(** * Airbitrage: the scout-then-snipe pipeline, embedded and verified

    A shallow embedding of the pipeline core of the repository:

    - [Sources]     price extraction           (src/agents/scout/sources.ts)
    - [Filter]      spread filter              (src/agents/scout/filter.ts)
    - [Budget]      daily token ledger         (src/lib/budget.ts)
    - [AgentQueue]  concurrency queue          (src/lib/agent-queue.ts)
    - [Runner]      snipe phase and helpers    (src/agents/scout/runner.ts)
    - [Spreads]     crypto spread detection    (src/agents/scout/filter.ts)
    - [BudgetStore] reading and saving         (src/lib/budget.ts)
    - [QueueStatus] status of the queue        (src/lib/agent-queue.ts)
    - [BaseAgent]   parser of the base agent   (src/agents/run-agent.ts)
    - [Feeds]       helpers of the feed parsers (src/agents/scout/sources.ts)
    - [ResaleLookup] resale entry of a lead    (src/agents/scout/filter.ts)

    Conventions.  A JavaScript string is the list of its UTF-16 code units
    ([text]).  Money is integer cents ([Z]).  Every other [number] is a
    rational ([Q]): the doubles the code computes with are rationals, and the
    arithmetic is carried out exactly.  Promises are collapsed to the values
    they resolve to; network collaborators are parameters. *)

From Stdlib Require Import ZArith QArith Qround Lia List String Ascii DecimalString
  Sorted Permutation.
From stdpp Require Import base list gmap.
Import ListNotations.

Open Scope Z_scope.

(* ================================================================== *)
(** * Part I: the embedding *)
(* ================================================================== *)

(** ** JavaScript values used by the pipeline *)

Module Js.

Definition char := N.
Definition text := list N.

(** A string literal of the source, as code units (ASCII literals only). *)
Definition str (s : string) : text := map N_of_ascii (list_ascii_of_string s).

Definition chr_is (a : ascii) (c : char) : bool := N.eqb c (N_of_ascii a).

(** [\d] *)
Definition is_digit (c : char) : bool := (N.leb 48 c && N.leb c 57)%bool.

(** [\s]: WhiteSpace and LineTerminator code units. *)
Definition is_space (c : char) : bool :=
  (N.leb 9 c && N.leb c 13
   || N.eqb c 32 || N.eqb c 160 || N.eqb c 5760
   || N.leb 8192 c && N.leb c 8202
   || N.eqb c 8232 || N.eqb c 8233 || N.eqb c 8239 || N.eqb c 8287
   || N.eqb c 12288 || N.eqb c 65279)%bool.

(** A letter under the [i] flag: both ASCII cases (code units >= 128 never
    canonicalize to an ASCII letter). *)
Definition is_ci (a : ascii) (c : char) : bool :=
  let n := N_of_ascii a in
  if (N.leb 97 n && N.leb n 122)%bool then (N.eqb c n || N.eqb c (n - 32))%bool
  else if (N.leb 65 n && N.leb n 90)%bool then (N.eqb c n || N.eqb c (n + 32))%bool
  else N.eqb c n.

Definition digit_val (c : char) : Z := Z.of_N c - 48.

(** Value of a run of decimal digits, most significant first. *)
Definition digits_val (ds : text) : Z :=
  fold_left (fun acc c => 10 * acc + digit_val c) ds 0.

(** [parseFloat] on the inputs the pipeline gives it: an unsigned decimal
    literal [digits* ( . digits* )?] read as the longest such prefix;
    [None] is NaN. *)
Fixpoint span_digits (s : text) : text * text :=
  match s with
  | c :: s' => if is_digit c then let (ds, r) := span_digits s' in (c :: ds, r)
               else ([], s)
  | [] => ([], [])
  end.

Definition parseFloat (s : text) : option Q :=
  let (ip, rest) := span_digits s in
  match rest with
  | c :: r =>
      if chr_is "." c then
        let (fp, _) := span_digits r in
        match ip, fp with
        | [], [] => None
        | _, _ => Some (inject_Z (digits_val ip)
                        + inject_Z (digits_val fp) / inject_Z (10 ^ Z.of_nat (length fp)))%Q
        end
      else match ip with [] => None | _ => Some (inject_Z (digits_val ip)) end
  | [] => match ip with [] => None | _ => Some (inject_Z (digits_val ip)) end
  end.

(** [Math.round]: nearest integer, halves towards +infinity. *)
Definition Math_round (x : Q) : Z := Qfloor (x + (1 # 2))%Q.

Definition Math_max (a b : Z) : Z := Z.max a b.

(** [a < b] and [a >= b] on numbers *)
Definition Qltb (a b : Q) : bool := negb (Qle_bool b a).
Definition Qgeb (a b : Q) : bool := Qle_bool b a.

(** [String(n)] for a non-negative integer. *)
Definition decimal (n : nat) : text := str (NilZero.string_of_uint (Nat.to_uint n)).

(** [(cents / 100).toFixed(0)] for integer [cents]: nearest integer, halves
    away from zero, the sign printed first. *)
Definition toFixed0_cents (cents : Z) : text :=
  if cents <? 0 then str "-" ++ decimal (Z.to_nat ((- cents + 50) / 100))
  else decimal (Z.to_nat ((cents + 50) / 100)).

(** [Array.prototype.join] *)
Fixpoint join (sep : text) (l : list text) : text :=
  match l with
  | [] => []
  | [x] => x
  | x :: l' => x ++ sep ++ join sep l'
  end.

(** [Array.prototype.sort] with a comparator is stable; on a comparator
    that orders by a key its result is the stable insertion sort. *)
Section Sort.
Context {A : Type} (cmp : A -> A -> Z).

Fixpoint insert_sorted (x : A) (l : list A) : list A :=
  match l with
  | [] => [x]
  | y :: l' => if cmp x y <=? 0 then x :: y :: l' else y :: insert_sorted x l'
  end.

Definition Array_sort (l : list A) : list A := foldr insert_sorted [] l.
End Sort.

End Js.

Import Js.

(** ** Regular expressions, with the backtracking semantics of RegExp

    Alternatives are tried left to right, a greedy star tries one more
    iteration first, a lazy star tries to stop first, an iteration that
    consumes nothing is refused, and the first success wins. *)

Module Regex.

Inductive regex : Type :=
| Eps : regex
| Chr : (char -> bool) -> regex
| Seq : regex -> regex -> regex
| Alt : regex -> regex -> regex
| Star : bool -> regex -> regex
| Group : nat -> regex -> regex.

Definition captures := list (nat * text).

Section Matcher.
Context {A : Type}.

Definition cont := text -> captures -> option A.

Fixpoint star_loop (step : text -> captures -> cont -> option A)
    (greedy : bool) (k : cont) (n : nat) (s : text) (caps : captures) : option A :=
  match n with
  | O => k s caps
  | S n' =>
      let more := fun _ : unit =>
        step s caps (fun s' caps' =>
          if (length s' <? length s)%nat then star_loop step greedy k n' s' caps'
          else None) in
      if greedy then
        match more tt with Some v => Some v | None => k s caps end
      else
        match k s caps with Some v => Some v | None => more tt end
  end.

Fixpoint rmatch (r : regex) (s : text) (caps : captures) (k : cont) : option A :=
  match r with
  | Eps => k s caps
  | Chr p => match s with
             | c :: s' => if p c then k s' caps else None
             | [] => None
             end
  | Seq r1 r2 => rmatch r1 s caps (fun s' caps' => rmatch r2 s' caps' k)
  | Alt r1 r2 => match rmatch r1 s caps k with
                 | Some v => Some v
                 | None => rmatch r2 s caps k
                 end
  | Star g r1 => star_loop (rmatch r1) g k (S (length s)) s caps
  | Group i r1 =>
      rmatch r1 s caps (fun s' caps' =>
        k s' ((i, take (length s - length s') s) :: caps'))
  end.
End Matcher.

(** [r?], [r+], literals *)
Definition opt (r : regex) : regex := Alt r Eps.
Definition plus (r : regex) : regex := Seq r (Star true r).
Definition seqs (rs : list regex) : regex := foldr Seq Eps rs.
Definition alts (rs : list regex) : regex := foldr Alt (Chr (fun _ => false)) rs.
Definition lit (s : string) : regex :=
  seqs (map (fun a => Chr (chr_is a)) (list_ascii_of_string s)).
Definition lit_ci (s : string) : regex :=
  seqs (map (fun a => Chr (is_ci a)) (list_ascii_of_string s)).

(** A match attempt at the start of [s]: the rest of the input after the
    match, and the capture groups. *)
Definition match_here (r : regex) (s : text) : option (text * captures) :=
  rmatch r s [] (fun s' caps => Some (s', caps)).

(** Capture group [i] of a match ([match[i]]). *)
Fixpoint cap (i : nat) (caps : captures) : option text :=
  match caps with
  | [] => None
  | (j, t) :: caps' => if Nat.eqb i j then Some t else cap i caps'
  end.

(** [text.match(r)] without the [g] flag: the leftmost match. *)
Fixpoint search (r : regex) (s : text) : option captures :=
  match match_here r s with
  | Some (_, caps) => Some caps
  | None => match s with
            | [] => None
            | _ :: s' => search r s'
            end
  end.

(** [while ((m = r.exec(text)) !== null)] with the [g] flag: every match,
    left to right, each search resuming where the previous match ended
    ([skip] counts the code units of the previous match still to pass).
    The patterns of this program all consume at least one code unit. *)
Fixpoint exec_all (r : regex) (skip : nat) (s : text) : list captures :=
  match s with
  | [] => []
  | _ :: s' =>
      match skip with
      | S n => exec_all r n s'
      | O => match match_here r s with
             | Some (rest, caps) =>
                 caps :: exec_all r (length s - length rest - 1) s'
             | None => exec_all r 0 s'
             end
      end
  end.

End Regex.

Import Regex.

(** ** src/agents/scout/sources.ts: price extraction *)

Module Sources.

Record ScoutLead := {
  lead_title : text;
  lead_url : text;
  lead_snippet : text;
  lead_source : text;
  priceFound : option Z;
  lead_category : text
}.

Record DealFeedItem := {
  item_title : text;
  item_url : text;
  item_description : text;
  item_source : text;
  pubDate : text
}.

Inductive DiagStatus := st_success | st_error | st_empty | st_blocked.

#[global] Instance DiagStatus_eq_dec : EqDecision DiagStatus.
Proof. solve_decision. Defined.

Definition statusName (st : DiagStatus) : text :=
  match st with
  | st_success => str "success"
  | st_error => str "error"
  | st_empty => str "empty"
  | st_blocked => str "blocked"
  end.

Record SourceDiagnostic := {
  diag_source : text;
  diag_status : DiagStatus;
  diag_error : option text
}.

(** [([\d,]+(?:\.\d{2})?)] as capture group [i] *)
Definition amount (i : nat) : regex :=
  Group i (Seq (plus (Chr (fun c => is_digit c || chr_is "," c)))
               (opt (seqs [Chr (chr_is "."); Chr is_digit; Chr is_digit]))).

(** [/\$\s?([\d,]+(?:\.\d{2})?)/g] *)
Definition dollar_pattern : regex :=
  seqs [Chr (chr_is "$"); opt (Chr is_space); amount 1].

(** [/USD\s?([\d,]+(?:\.\d{2})?)/gi] *)
Definition usd_pattern : regex :=
  seqs [lit_ci "USD"; opt (Chr is_space); amount 1].

(** [/price[:\s]+\$?([\d,]+(?:\.\d{2})?)/gi] *)
Definition price_pattern : regex :=
  seqs [lit_ci "price"; plus (Chr (fun c => chr_is ":" c || is_space c));
        opt (Chr (chr_is "$")); amount 1].

(** [s.replace(/,/g, '')] *)
Definition strip_commas (s : text) : text := List.filter (fun c => negb (chr_is "," c)) s.

(** The body of the [while] loop: the cents of one match, when its dollar
    value passes the sanity check. *)
Definition cents_of_match (caps : captures) : option Z :=
  match cap 1 caps with
  | None => None
  | Some m =>
      match parseFloat (strip_commas m) with
      | None => None
      | Some num =>
          if Qltb 0%Q num && Qltb num 1000000%Q then Some (Math_round (num * 100)%Q)
          else None
      end
  end.

Definition prices_of (pattern : regex) (t : text) : list Z :=
  omap cents_of_match (exec_all pattern 0 t).

Definition extractPrice (t : text) : option Z :=
  let patterns := [dollar_pattern; usd_pattern; price_pattern] in
  let prices := flat_map (fun pattern => prices_of pattern t) patterns in
  head prices.

Definition extractAllPrices (t : text) : list Z := prices_of dollar_pattern t.

End Sources.

Import Sources.

(** ** src/agents/scout/filter.ts: the spread filter

    The module follows the revision of filter.ts that the runner imports
    (the one whose leads carry [sellPriceType]); [Rev0] at its end is the
    earlier revision of the two filter functions, whose leads have no
    [sellPriceType] field. *)

Module Filter.

Inductive SellPriceType := verified | estimated | research_needed.
Inductive Confidence := high | medium | low.

Record CryptoPrice := {
  cp_exchange : text;
  cp_pair : text;
  cp_price : Q;
  cp_url : text
}.

Inductive RawLead :=
| RawScout (l : ScoutLead)
| RawDeal (d : DealFeedItem)
| RawCrypto (c : CryptoPrice).

Record QualifiedLead := {
  title : text;
  description : text;
  buyPrice : Z;
  buySource : text;
  buyUrl : text;
  sellPriceEstimate : Z;
  sellSource : text;
  sellUrl : text;
  sellPriceType : option SellPriceType;
  estimatedSpread : Z;
  spreadPercent : Q;
  confidence : Confidence;
  category : text;
  raw : RawLead
}.

Record ResalePriceInfo := {
  estimatedPrice : Z;
  platform : text;
  url : text;
  dataPoints : Z;
  listingDataPoints : option Z;
  priceType : option SellPriceType
}.

Definition is_research_needed (t : option SellPriceType) : bool :=
  match t with Some research_needed => true | _ => false end.

(** [a || b] on strings: the empty string is falsy. *)
Definition text_or (a b : text) : text := match a with [] => b | _ => a end.

(** [(num / den) * 100] *)
Definition percent (num den : Z) : Q := (inject_Z num / inject_Z den * 100)%Q.

Section WithSearchUrl.
(** [cleanTitleForSearch] (sources.ts) and the built-in
    [encodeURIComponent] only shape the text of [sellUrl]. *)
Variables cleanTitleForSearch encodeURIComponent : text -> text.

Definition soldSearchUrl (t : text) : text :=
  str "https://www.ebay.com/sch/i.html?_nkw="
    ++ encodeURIComponent (cleanTitleForSearch t)
    ++ str "&LH_Sold=1&LH_Complete=1".

(** *** Resale-price qualification *)

Definition resaleConfidence (resale : ResalePriceInfo) (spreadPct : Q) : Confidence :=
  let listingPts := default 0 (listingDataPoints resale) in
  if ((2 <=? listingPts) || (5 <=? dataPoints resale)) && Qltb 50 spreadPct then high
  else if ((1 <=? listingPts) || (3 <=? dataPoints resale)) && Qltb 30 spreadPct then medium
  else low.

Definition lookupResale (resalePriceData : gmap text ResalePriceInfo)
    (lead : ScoutLead) : option ResalePriceInfo :=
  match resalePriceData !! lead_url lead with
  | Some r => Some r
  | None => resalePriceData !! lead_title lead
  end.

Definition researchLead (lead : ScoutLead) (price : Z) (resale : ResalePriceInfo)
    : QualifiedLead :=
  {| title := lead_title lead;
     description := lead_snippet lead;
     buyPrice := price;
     buySource := lead_source lead;
     buyUrl := lead_url lead;
     sellPriceEstimate := 0;
     sellSource := str "Unknown";
     sellUrl := text_or (url resale) (soldSearchUrl (lead_title lead));
     sellPriceType := Some research_needed;
     estimatedSpread := 0;
     spreadPercent := 0;
     confidence := low;
     category := lead_category lead;
     raw := RawScout lead |}.

Definition resaleLead (lead : ScoutLead) (price : Z) (resale : ResalePriceInfo)
    (spread : Z) (spreadPct : Q) (spt : option SellPriceType) : QualifiedLead :=
  {| title := lead_title lead;
     description := lead_snippet lead;
     buyPrice := price;
     buySource := lead_source lead;
     buyUrl := lead_url lead;
     sellPriceEstimate := estimatedPrice resale;
     sellSource := platform resale;
     sellUrl := text_or (url resale) (soldSearchUrl (lead_title lead));
     sellPriceType := spt;
     estimatedSpread := spread;
     spreadPercent := spreadPct;
     confidence := resaleConfidence resale spreadPct;
     category := lead_category lead;
     raw := RawScout lead |}.

(** One iteration of the [for (const lead of leads)] loop, on the two
    arrays [qualified] and [unresearched]. *)
Definition filterLeadStep (resalePriceData : gmap text ResalePriceInfo)
    (minProfitCents : Z) (minSpreadPercent : Q)
    (acc : list QualifiedLead * list QualifiedLead) (lead : ScoutLead)
    : list QualifiedLead * list QualifiedLead :=
  let (qualified, unresearched) := acc in
  match priceFound lead with
  | None => acc
  | Some price =>
      if price <=? 0 then acc
      else
        match lookupResale resalePriceData lead with
        | None => acc
        | Some resale =>
            if (estimatedPrice resale =? 0) || is_research_needed (priceType resale)
            then (qualified, unresearched ++ [researchLead lead price resale])
            else
              let spread := estimatedPrice resale - price in
              let spreadPct := percent spread price in
              if spread <? minProfitCents then acc
              else if Qltb spreadPct minSpreadPercent then acc
              else (qualified ++ [resaleLead lead price resale spread spreadPct
                                    (priceType resale)],
                    unresearched)
        end
  end.

Definition bySpreadDesc (a b : QualifiedLead) : Z :=
  estimatedSpread b - estimatedSpread a.

Definition filterLeadsWithPriceData (leads : list ScoutLead)
    (resalePriceData : gmap text ResalePriceInfo)
    (minProfitCents : Z) (minSpreadPercent : Q) : list QualifiedLead :=
  let (qualified, unresearched) :=
    fold_left (filterLeadStep resalePriceData minProfitCents minSpreadPercent)
              leads ([], []) in
  Array_sort bySpreadDesc qualified ++ take 5 unresearched.

(** *** Deal-feed qualification *)

Definition parseDollar (s : text) : Z :=
  match parseFloat (strip_commas s) with
  | Some num =>
      if Qltb 0%Q num && Qltb num 1000000%Q then Math_round (num * 100)%Q else 0
  | None => 0
  end.

Definition ws : regex := Star true (Chr is_space).
Definition comma_or_dot : regex := Chr (fun c => chr_is "," c || chr_is "." c).

(** [/\$\s?(A)\s*\(\s*\d+%\s*off\s*\$\s?(A)\s*\)/i] *)
Definition pctOffPattern : regex :=
  seqs [Chr (chr_is "$"); opt (Chr is_space); amount 1; ws; Chr (chr_is "("); ws;
        plus (Chr is_digit); Chr (chr_is "%"); ws; lit_ci "off"; ws;
        Chr (chr_is "$"); opt (Chr is_space); amount 2; ws; Chr (chr_is ")")].

(** [/\$\s?(A)\s*\(\s*(?:was|reg\.?|originally|msrp|regular\s*(?:price)?|retail)\s*\$?\s?(A)\s*\)/i] *)
Definition wasPattern : regex :=
  seqs [Chr (chr_is "$"); opt (Chr is_space); amount 1; ws; Chr (chr_is "("); ws;
        alts [lit_ci "was"; Seq (lit_ci "reg") (opt (Chr (chr_is ".")));
              lit_ci "originally"; lit_ci "msrp";
              seqs [lit_ci "regular"; ws; opt (lit_ci "price")];
              lit_ci "retail"];
        ws; opt (Chr (chr_is "$")); opt (Chr is_space); amount 2; ws;
        Chr (chr_is ")")].

(** [/(?:was|from)\s*\$\s?(A)\s*[,.]?\s*(?:now|to|→|->)\s*\$\s?(A)/i];
    8594 is the code unit of the arrow. *)
Definition wasNowPattern : regex :=
  seqs [alts [lit_ci "was"; lit_ci "from"]; ws;
        Chr (chr_is "$"); opt (Chr is_space); amount 1; ws; opt comma_or_dot; ws;
        alts [lit_ci "now"; lit_ci "to"; Chr (N.eqb 8594); lit "->"]; ws;
        Chr (chr_is "$"); opt (Chr is_space); amount 2].

(** [/\$\s?(A)\s*[,.]?\s*(?:regularly|normally|usually|list(?:ed)?(?:\s+at)?)\s*\$?\s?(A)/i] *)
Definition regPattern : regex :=
  seqs [Chr (chr_is "$"); opt (Chr is_space); amount 1; ws; opt comma_or_dot; ws;
        alts [lit_ci "regularly"; lit_ci "normally"; lit_ci "usually";
              seqs [lit_ci "list"; opt (lit_ci "ed");
                    opt (Seq (plus (Chr is_space)) (lit_ci "at"))]];
        ws; opt (Chr (chr_is "$")); opt (Chr is_space); amount 2].

Record PricePair := { dealPrice : Z; regularPrice : Z }.

(** One [if (m) { ... if (deal > 0 && regular > deal) return ... }] block;
    [dealIdx] and [regIdx] are the groups holding the two amounts. *)
Definition tryPattern (pattern : regex) (dealIdx regIdx : nat) (t : text)
    : option PricePair :=
  match search pattern t with
  | None => None
  | Some m =>
      let deal := parseDollar (default [] (cap dealIdx m)) in
      let regular := parseDollar (default [] (cap regIdx m)) in
      if (0 <? deal) && (deal <? regular)
      then Some {| dealPrice := deal; regularPrice := regular |}
      else None
  end.

Definition extractDealPricePair (t : text) : option PricePair :=
  match tryPattern pctOffPattern 1 2 t with
  | Some p => Some p
  | None =>
  match tryPattern wasPattern 1 2 t with
  | Some p => Some p
  | None =>
  match tryPattern wasNowPattern 2 1 t with
  | Some p => Some p
  | None => tryPattern regPattern 1 2 t
  end end end.

(** The object literal pushed by every branch of [filterDealFeedItems]. *)
Definition dealLead (item : DealFeedItem) (deal regular : Z) (pct : Q)
    (conf : Confidence) (spt : option SellPriceType) : QualifiedLead :=
  {| title := item_title item;
     description := item_description item;
     buyPrice := deal;
     buySource := item_source item;
     buyUrl := item_url item;
     sellPriceEstimate := regular;
     sellSource := str "Amazon/eBay";
     sellUrl := soldSearchUrl (item_title item);
     sellPriceType := spt;
     estimatedSpread := regular - deal;
     spreadPercent := pct;
     confidence := conf;
     category := item_source item;
     raw := RawDeal item |}.

(** [/(\d+)%\s*off/i] *)
Definition pctPattern : regex :=
  seqs [Group 1 (plus (Chr is_digit)); Chr (chr_is "%"); ws; lit_ci "off"].

Definition fullText (item : DealFeedItem) : text :=
  item_title item ++ str " " ++ item_description item.

(** Fallback 3: a price in the title against the median of the higher
    prices of title and description. *)
Definition dealFallback3 (item : DealFeedItem) (minDiscountPercent : Q)
    : option QualifiedLead :=
  let singlePrice := extractAllPrices (item_title item) in
  let allTextPrices := extractAllPrices (fullText item) in
  match singlePrice with
  | deal :: _ =>
      if (2 <=? length allTextPrices)%nat then
        let otherPrices :=
          List.filter (fun p => negb (p =? deal) && (deal <? p)) allTextPrices in
        match otherPrices with
        | [] => None
        | _ =>
            let sorted := Array_sort (fun a b => a - b) otherPrices in
            let regular := nth (length sorted / 2) sorted 0 in
            let discount := percent (regular - deal) regular in
            if Qgeb discount minDiscountPercent && (0 <? deal)
            then Some (dealLead item deal regular discount low (Some estimated))
            else None
        end
      else None
  | [] => None
  end.

(** Fallback 2: one price in the title and an explicit percentage. *)
Definition dealFallback2 (item : DealFeedItem) (minDiscountPercent : Q)
    : option QualifiedLead :=
  let singlePrice := extractAllPrices (item_title item) in
  match search pctPattern (fullText item), singlePrice with
  | Some m, [deal] =>
      let pctOff := digits_val (default [] (cap 1 m)) in
      if Qgeb (inject_Z pctOff) minDiscountPercent && (pctOff <? 95) then
        let regular :=
          Math_round (inject_Z deal / (1 - inject_Z pctOff / 100))%Q in
        if (deal <? regular) && (0 <? deal)
        then Some (dealLead item deal regular (inject_Z pctOff) low (Some estimated))
        else dealFallback3 item minDiscountPercent
      else dealFallback3 item minDiscountPercent
  | _, _ => dealFallback3 item minDiscountPercent
  end.

(** Fallback 1: exactly two prices in the title.  [spt] is the
    [sellPriceType] written into the lead, [next] what the loop body
    goes on to when this branch does not [continue]. *)
Definition dealFallback1 (item : DealFeedItem) (minDiscountPercent : Q)
    (spt : option SellPriceType) (next : option QualifiedLead)
    : option QualifiedLead :=
  let titlePrices := extractAllPrices (item_title item) in
  if (length titlePrices =? 2)%nat then
    let sorted := Array_sort (fun a b => a - b) titlePrices in
    let deal := nth 0 sorted 0 in
    let regular := nth 1 sorted 0 in
    if (deal <? regular) && (0 <? deal) then
      let discount := percent (regular - deal) regular in
      if Qgeb discount minDiscountPercent
      then Some (dealLead item deal regular discount medium spt)
      else next
    else next
  else next.

(** The structured-pattern branch, which always ends in [continue]. *)
Definition dealFromPair (item : DealFeedItem) (minDiscountPercent : Q)
    (spt : option SellPriceType) (p : PricePair) : option QualifiedLead :=
  let discount := percent (regularPrice p - dealPrice p) (regularPrice p) in
  if Qgeb discount minDiscountPercent
  then Some (dealLead item (dealPrice p) (regularPrice p) discount
               (if Qltb 70 discount then high else medium) spt)
  else None.

Definition titlePricePair (item : DealFeedItem) : option PricePair :=
  match extractDealPricePair (item_title item) with
  | Some p => Some p
  | None => extractDealPricePair (fullText item)
  end.

(** The body of the [for (const item of items)] loop: the lead it pushes,
    if any. *)
Definition dealFeedLead (minDiscountPercent : Q) (item : DealFeedItem)
    : option QualifiedLead :=
  match titlePricePair item with
  | Some p => dealFromPair item minDiscountPercent (Some estimated) p
  | None =>
      dealFallback1 item minDiscountPercent (Some estimated)
        (dealFallback2 item minDiscountPercent)
  end.

Definition filterDealFeedItems (items : list DealFeedItem)
    (minDiscountPercent : Q) : list QualifiedLead :=
  Array_sort bySpreadDesc (omap (dealFeedLead minDiscountPercent) items).

End WithSearchUrl.

(** *** The earlier revision (src/agents/scout/filter.ts as named) *)

Module Rev0.
Section WithSearchUrl.
Variables cleanTitleForSearch encodeURIComponent : text -> text.

Definition filterLeadStep (resalePriceData : gmap text ResalePriceInfo)
    (minProfitCents : Z) (minSpreadPercent : Q)
    (qualified : list QualifiedLead) (lead : ScoutLead) : list QualifiedLead :=
  match priceFound lead with
  | None => qualified
  | Some price =>
      if price <=? 0 then qualified
      else
        match lookupResale resalePriceData lead with
        | None => qualified
        | Some resale =>
            if estimatedPrice resale =? 0 then qualified
            else
              let spread := estimatedPrice resale - price in
              let spreadPct := percent spread price in
              if spread <? minProfitCents then qualified
              else if Qltb spreadPct minSpreadPercent then qualified
              else qualified
                     ++ [resaleLead cleanTitleForSearch encodeURIComponent
                           lead price resale spread spreadPct None]
        end
  end.

Definition filterLeadsWithPriceData (leads : list ScoutLead)
    (resalePriceData : gmap text ResalePriceInfo)
    (minProfitCents : Z) (minSpreadPercent : Q) : list QualifiedLead :=
  Array_sort bySpreadDesc
    (fold_left (filterLeadStep resalePriceData minProfitCents minSpreadPercent)
               leads []).

Definition dealFeedLead (minDiscountPercent : Q) (item : DealFeedItem)
    : option QualifiedLead :=
  match titlePricePair item with
  | Some p =>
      dealFromPair cleanTitleForSearch encodeURIComponent
        item minDiscountPercent None p
  | None =>
      dealFallback1 cleanTitleForSearch encodeURIComponent
        item minDiscountPercent None None
  end.

Definition filterDealFeedItems (items : list DealFeedItem)
    (minDiscountPercent : Q) : list QualifiedLead :=
  Array_sort bySpreadDesc (omap (dealFeedLead minDiscountPercent) items).
End WithSearchUrl.
End Rev0.

(** *** weightedMedian *)

Record Entry := { value : Z; weight : Z }.

(** The [for (const entry of sorted)] loop with its running [cumulative]. *)
Fixpoint medianScan (halfWeight : Q) (cumulative : Z) (sorted : list Entry)
    : option Z :=
  match sorted with
  | [] => None
  | entry :: rest =>
      let cumulative := cumulative + weight entry in
      if Qle_bool halfWeight (inject_Z cumulative) then Some (value entry)
      else medianScan halfWeight cumulative rest
  end.

Definition weightedMedian (entries : list Entry) : Z :=
  match entries with
  | [] => 0
  | [e] => value e
  | _ =>
      let sorted := Array_sort (fun a b => value a - value b) entries in
      let totalWeight := fold_left (fun sum e => sum + weight e) sorted 0 in
      let halfWeight := (inject_Z totalWeight / 2)%Q in
      match medianScan halfWeight 0 sorted with
      | Some v => v
      | None => value (List.last sorted {| value := 0; weight := 0 |})
      end
  end.

End Filter.

(** ** src/lib/budget.ts: the daily token ledger

    The data directory holds two JSON documents.  A document that is
    missing or does not parse is [None] (the [catch] branches). *)

Module Budget.

Record BudgetConfig := {
  dailyTokenLimit : Z;
  perRunTokenLimit : Z;
  perRunToolCallLimit : Z
}.

Record RunUsageEntry := {
  run_agentType : text;
  startedAt : text;
  inputTokens : Z;
  outputTokens : Z;
  run_totalTokens : Z;
  toolCalls : Z
}.

Record TokenUsageEntry := {
  date : text;
  totalTokens : Z;
  totalInputTokens : Z;
  totalOutputTokens : Z;
  runs : list RunUsageEntry
}.

Definition DEFAULT_BUDGET : BudgetConfig :=
  {| dailyTokenLimit := 500000; perRunTokenLimit := 50000; perRunToolCallLimit := 25 |}.

(** The fields a stored budget-config.json sets. *)
Record StoredConfig := {
  stored_dailyTokenLimit : option Z;
  stored_perRunTokenLimit : option Z;
  stored_perRunToolCallLimit : option Z
}.

Record Files := {
  usageFile : option TokenUsageEntry;
  configFile : option StoredConfig
}.

Definition freshUsage (today : text) : TokenUsageEntry :=
  {| date := today; totalTokens := 0; totalInputTokens := 0;
     totalOutputTokens := 0; runs := [] |}.

Section Clock.
(** [todayUTC()] and [new Date().toISOString()] *)
Variables (today now : text).

Definition readUsage (fs : Files) : TokenUsageEntry :=
  match usageFile fs with
  | Some usage =>
      if bool_decide (date usage <> today) then freshUsage today else usage
  | None => freshUsage today
  end.

Definition writeUsage (usage : TokenUsageEntry) (fs : Files) : Files :=
  {| usageFile := Some usage; configFile := configFile fs |}.

Record BudgetStatus := {
  allowed : bool;
  remaining : Z;
  used : Z;
  limit : Z;
  runsToday : nat
}.

Definition checkBudget (config : BudgetConfig) (fs : Files) : BudgetStatus :=
  let usage := readUsage fs in
  {| allowed := totalTokens usage <? dailyTokenLimit config;
     remaining := Z.max 0 (dailyTokenLimit config - totalTokens usage);
     used := totalTokens usage;
     limit := dailyTokenLimit config;
     runsToday := length (runs usage) |}.

Definition recordUsage (agentType : text) (input output calls : Z) (fs : Files)
    : Files :=
  let usage := readUsage fs in
  let total := input + output in
  writeUsage
    {| date := date usage;
       totalTokens := totalTokens usage + total;
       totalInputTokens := totalInputTokens usage + input;
       totalOutputTokens := totalOutputTokens usage + output;
       runs := runs usage
                 ++ [{| run_agentType := agentType; startedAt := now;
                        inputTokens := input; outputTokens := output;
                        run_totalTokens := total; toolCalls := calls |}] |}
    fs.
End Clock.

(** [{ ...DEFAULT_BUDGET, ...JSON.parse(data) }] *)
Definition loadBudgetConfig (fs : Files) : BudgetConfig :=
  match configFile fs with
  | Some c =>
      {| dailyTokenLimit :=
           default (dailyTokenLimit DEFAULT_BUDGET) (stored_dailyTokenLimit c);
         perRunTokenLimit :=
           default (perRunTokenLimit DEFAULT_BUDGET) (stored_perRunTokenLimit c);
         perRunToolCallLimit :=
           default (perRunToolCallLimit DEFAULT_BUDGET) (stored_perRunToolCallLimit c) |}
  | None => DEFAULT_BUDGET
  end.

(** Input $3 and output $15 per million tokens. *)
Definition estimateCost (input output : Z) : Q :=
  (inject_Z input / 1000000 * 3 + inject_Z output / 1000000 * 15)%Q.

End Budget.

(** ** src/lib/agent-queue.ts: the concurrency queue

    The module state ([activeRuns], [queue], [runIdCounter]) is threaded
    explicitly.  A caller is identified by a [ticket], which stands for its
    [execute] callback and its [started] promise; what the queue does to
    them ([execute()], [resolve()], [reject(...)]) is appended to [effects].
    The [finally] callback of a started run is the operation [finishRun]. *)

Module AgentQueue.

Inductive AgentType :=
| listings | auctions | crypto | retail | tickets | collectibles | books.

#[global] Instance AgentType_eq_dec : EqDecision AgentType.
Proof. solve_decision. Defined.

Record QueuedRun := { agentType : AgentType; ticket : nat }.

Inductive Effect :=
| Executed (ticket runId : nat)
| Resolved (ticket : nat)
| Rejected (ticket : nat).

Record State := {
  activeRuns : gmap nat AgentType;
  queue : list QueuedRun;
  runIdCounter : nat;
  effects : list Effect
}.

Definition MAX_CONCURRENT : nat := 2.

Definition initial : State :=
  {| activeRuns := ∅; queue := []; runIdCounter := 0; effects := [] |}.

(** [[...activeRuns.values()].includes(agentType)] *)
Definition isAgentRunning (t : AgentType) (s : State) : bool :=
  existsb (fun kv => bool_decide (kv.2 = t)) (map_to_list (activeRuns s)).

(** [queue.findIndex(q => q.agentType === agentType)] and [splice]: the
    first entry of that type, and the queue without it. *)
Fixpoint removeQueued (t : AgentType) (q : list QueuedRun)
    : option (QueuedRun * list QueuedRun) :=
  match q with
  | [] => None
  | x :: q' =>
      if bool_decide (agentType x = t) then Some (x, q')
      else match removeQueued t q' with
           | Some (r, q'') => Some (r, x :: q'')
           | None => None
           end
  end.

(** The [while] loop of [processQueue], one queued entry per iteration. *)
Fixpoint processLoop (q : list QueuedRun) (active : gmap nat AgentType)
    (counter : nat) (eff : list Effect) : State :=
  match q with
  | next :: q' =>
      if (size active <? MAX_CONCURRENT)%nat then
        let runId := S counter in
        processLoop q' (<[runId := agentType next]> active) runId
          (eff ++ [Resolved (ticket next); Executed (ticket next) runId])
      else {| activeRuns := active; queue := q; runIdCounter := counter; effects := eff |}
  | [] => {| activeRuns := active; queue := []; runIdCounter := counter; effects := eff |}
  end.

Definition processQueue (s : State) : State :=
  processLoop (queue s) (activeRuns s) (runIdCounter s) (effects s).

(** The [started] promise handed back to the caller. *)
Inductive Started :=
| AlreadyResolved
| AlreadyRejected
| Pending (ticket : nat).

Record Enqueued := { position : Z; started : Started }.

Definition enqueueAgentRun (t : AgentType) (tk : nat) (s : State)
    : Enqueued * State :=
  if isAgentRunning t s then
    ({| position := -1; started := AlreadyRejected |}, s)
  else
    let (q, eff) :=
      match removeQueued t (queue s) with
      | Some (removed, q') => (q', effects s ++ [Rejected (ticket removed)])
      | None => (queue s, effects s)
      end in
    if (size (activeRuns s) <? MAX_CONCURRENT)%nat then
      let runId := S (runIdCounter s) in
      ({| position := 0; started := AlreadyResolved |},
       {| activeRuns := <[runId := t]> (activeRuns s);
          queue := q;
          runIdCounter := runId;
          effects := eff ++ [Executed tk runId] |})
    else
      let q' := q ++ [{| agentType := t; ticket := tk |}] in
      ({| position := Z.of_nat (length q'); started := Pending tk |},
       {| activeRuns := activeRuns s;
          queue := q';
          runIdCounter := runIdCounter s;
          effects := eff |}).

(** [() => { activeRuns.delete(runId); processQueue(); }] *)
Definition finishRun (runId : nat) (s : State) : State :=
  processQueue
    {| activeRuns := delete runId (activeRuns s);
       queue := queue s;
       runIdCounter := runIdCounter s;
       effects := effects s |}.

(** What can happen to the queue: a call of [enqueueAgentRun], or the
    end of a run. *)
Inductive Event :=
| Enqueue (t : AgentType) (tk : nat)
| Finish (runId : nat).

Definition step (s : State) (e : Event) : State :=
  match e with
  | Enqueue t tk => (enqueueAgentRun t tk s).2
  | Finish runId => finishRun runId s
  end.

Definition run (events : list Event) : State := fold_left step events initial.

End AgentQueue.

(** ** src/agents/scout/runner.ts: crypto opportunities, the parser of the
       model's answer, and the snipe phase *)

Module Runner.

(** *** buildCryptoOpportunities *)

Record CryptoSpread := {
  pair : text;
  buyExchange : text;
  spread_buyPrice : Q;
  spread_buyUrl : text;
  sellExchange : text;
  spread_sellPrice : Q;
  spread_sellUrl : text;
  spreadPercent : Q;
  spreadAmount : Q
}.

Record Fees := {
  platformFee : option Z;
  shippingCost : option Z;
  other : option Z;
  total : Z
}.

Record ParsedOpportunity := {
  title : text;
  description : text;
  buyPrice : Z;
  buySource : text;
  buyUrl : text;
  sellPrice : Z;
  sellSource : text;
  sellUrl : text;
  sellPriceType : Filter.SellPriceType;
  estimatedProfit : Z;
  fees : Fees;
  confidence : Z;
  riskNotes : list text;
  reasoning : text
}.

(** [→] *)
Definition arrow : text := [8594%N].

Section Crypto.
(** [Number.prototype.toFixed(digits)], used for the wording only. *)
Variable toFixed : nat -> Q -> text.

Definition cryptoOpportunity (spread : CryptoSpread) : ParsedOpportunity :=
  let buyPriceCents := Math_round (spread_buyPrice spread * 100)%Q in
  let sellPriceCents := Math_round (spread_sellPrice spread * 100)%Q in
  let buyFee := Math_round (inject_Z buyPriceCents * (1 # 1000))%Q in
  let sellFee := Math_round (inject_Z sellPriceCents * (1 # 1000))%Q in
  let withdrawalFee := 500 in
  let totalFees := buyFee + sellFee + withdrawalFee in
  let profit := sellPriceCents - buyPriceCents - totalFees in
  {| title := pair spread ++ str " Spread: " ++ buyExchange spread
                ++ str " " ++ arrow ++ str " " ++ sellExchange spread;
     description :=
       pair spread ++ str " is trading at $" ++ toFixed 2 (spread_buyPrice spread)
         ++ str " on " ++ buyExchange spread ++ str " and $"
         ++ toFixed 2 (spread_sellPrice spread) ++ str " on " ++ sellExchange spread
         ++ str ". Spread: " ++ toFixed 3 (spreadPercent spread) ++ str "%.";
     buyPrice := buyPriceCents;
     buySource := buyExchange spread;
     buyUrl := spread_buyUrl spread;
     sellPrice := sellPriceCents;
     sellSource := sellExchange spread;
     sellUrl := spread_sellUrl spread;
     sellPriceType := Filter.verified;
     estimatedProfit := Math_max 0 profit;
     fees := {| platformFee := Some (buyFee + sellFee);
                shippingCost := None;
                other := Some withdrawalFee;
                total := totalFees |};
     confidence := if Qltb 1 (spreadPercent spread) then 85
                   else if Qltb (1 # 2) (spreadPercent spread) then 70 else 55;
     riskNotes := [str "Spread may close during transfer time";
                   str "Transfer time depends on network congestion";
                   str "Price is a snapshot - may change by the time you trade"];
     reasoning :=
       str "Live API data: " ++ buyExchange spread ++ str " price $"
         ++ toFixed 2 (spread_buyPrice spread) ++ str " vs " ++ sellExchange spread
         ++ str " price $" ++ toFixed 2 (spread_sellPrice spread)
         ++ str ". Raw spread " ++ toFixed 3 (spreadPercent spread) ++ str "%." |}.

Definition buildCryptoOpportunities (spreads : list CryptoSpread)
    : list ParsedOpportunity :=
  map cryptoOpportunity spreads.
End Crypto.

(** *** The model's messages *)

Inductive BlockType := text_block | tool_use | tool_result.

#[global] Instance BlockType_eq_dec : EqDecision BlockType.
Proof. solve_decision. Defined.

Record ToolInput := { product_name : option text }.

Record ClaudeContentBlock := {
  block_type : BlockType;
  block_text : option text;
  block_id : option text;
  block_name : option text;
  block_input : option ToolInput;
  tool_use_id : option text;
  block_content : option text
}.

Inductive Role := user | assistant.

Inductive MessageContent :=
| Text (t : text)
| Blocks (bs : list ClaudeContentBlock).

Record ClaudeMessage := { role : Role; content : MessageContent }.

Record ClaudeTool := { tool_name : text; tool_description : text }.

Record ClaudeRequest := {
  model : text;
  max_tokens : Z;
  system : text;
  messages : list ClaudeMessage;
  tools : option (list ClaudeTool)
}.

Record ClaudeUsage := { input_tokens : Z; output_tokens : Z }.

Record ClaudeResponse := {
  response_content : list ClaudeContentBlock;
  usage : ClaudeUsage
}.

(** A call that either returns or throws an [Error] with a message. *)
Inductive Outcome (A : Type) :=
| Returned (a : A)
| Thrown (message : text).
Arguments Returned {A} a.
Arguments Thrown {A} message.

(** *** JSON values, as [JSON.parse] builds them *)

#[warnings="-register-all"]
Inductive Json :=
| JNull
| JBool (b : bool)
| JNum (q : Q)
| JStr (t : text)
| JArr (elements : list Json)
| JObj (fields : list (text * Json)).

(** A JavaScript value read out of parsed JSON: [None] is [undefined]. *)
Definition Value := option Json.

Fixpoint assoc (key : text) (fields : list (text * Json)) : Value :=
  match fields with
  | [] => None
  | (k, v) :: rest => if bool_decide (k = key) then Some v else assoc key rest
  end.

(** [o.key] for one of the property names the parser reads (none of them
    exists on a string, an array, a number or a boolean); reading a
    property of [null] throws a TypeError. *)
Definition getProp (o : Json) (key : text) : Outcome Value :=
  match o with
  | JNull => Thrown (str "TypeError")
  | JObj fields => Returned (assoc key fields)
  | _ => Returned None
  end.

Definition truthy (v : Value) : bool :=
  match v with
  | None => false
  | Some JNull => false
  | Some (JBool b) => b
  | Some (JNum q) => negb (Qeq_bool q 0)
  | Some (JStr t) => match t with [] => false | _ => true end
  | Some (JArr _) => true
  | Some (JObj _) => true
  end.

(** [typeof v === 'number'] *)
Definition isNumber (v : Value) : bool :=
  match v with Some (JNum _) => true | _ => false end.

(** Own enumerable properties, as the spread [{ ...o }] copies them. *)
Definition indexed {A} (f : A -> Json) (l : list A) : list (text * Json) :=
  imap (fun i x => (decimal i, f x)) l.

Definition ownProps (o : Json) : list (text * Json) :=
  match o with
  | JObj fields => fields
  | JArr elements => indexed (fun x => x) elements
  | JStr t => indexed (fun c => JStr [c]) t
  | _ => []
  end.

(** [{ ...props, key: v }] *)
Fixpoint setProp (key : text) (v : Json) (props : list (text * Json))
    : list (text * Json) :=
  match props with
  | [] => [(key, v)]
  | (k, w) :: rest =>
      if bool_decide (k = key) then (k, v) :: rest else (k, w) :: setProp key v rest
  end.

(** *** parseOpportunities *)

(** [/<opportunities>\s*([\s\S]*?)\s*<\/opportunities>/] *)
Definition opportunitiesPattern : regex :=
  seqs [lit "<opportunities>"; Filter.ws; Group 1 (Star false (Chr (fun _ => true)));
        Filter.ws; lit "</opportunities>"].

(** The text blocks of a response, joined by newlines. *)
Definition responseText (response : ClaudeResponse) : text :=
  join (str (String (ascii_of_nat 10) EmptyString))
    (map (fun b => default [] (block_text b))
       (List.filter (fun b => bool_decide (block_type b = text_block))
          (response_content response))).

(** A property read that is known not to throw. *)
Definition prop (o : Json) (key : text) : Value :=
  match getProp o key with
  | Returned v => v
  | Thrown _ => None
  end.

(** The predicate of [parsed.filter(...)]; the first read, [o.title], is
    the one that throws on [null]. *)
Definition keepOpportunity (o : Json) : Outcome bool :=
  match getProp o (str "title") with
  | Thrown e => Thrown e
  | Returned t =>
      Returned (truthy t
                && isNumber (prop o (str "buyPrice"))
                && isNumber (prop o (str "sellPrice"))
                && truthy (prop o (str "buySource"))
                && truthy (prop o (str "sellSource")))
  end.

(** [Array.prototype.filter] with a predicate that may throw. *)
Fixpoint filterOpportunities (parsed : list Json) : Outcome (list Json) :=
  match parsed with
  | [] => Returned []
  | o :: rest =>
      match keepOpportunity o with
      | Thrown e => Thrown e
      | Returned keep =>
          match filterOpportunities rest with
          | Thrown e => Thrown e
          | Returned kept => Returned (if keep then o :: kept else kept)
          end
      end
  end.

(** [{ ...o, sellPriceType: o.sellPriceType || 'estimated' }] *)
Definition withSellPriceType (o : Json) : Json :=
  let given := prop o (str "sellPriceType") in
  let chosen := if truthy given then default JNull given else JStr (str "estimated") in
  JObj (setProp (str "sellPriceType") chosen (ownProps o)).

Section Parse.
(** The built-in [JSON.parse]; [None] is a SyntaxError. *)
Variable JSON_parse : text -> option Json.

Definition parseOpportunities (response : ClaudeResponse) : list Json :=
  match search opportunitiesPattern (responseText response) with
  | None => []
  | Some m =>
      match JSON_parse (default [] (cap 1 m)) with
      | None => []
      | Some (JArr parsed) =>
          match filterOpportunities parsed with
          | Returned kept => map withSellPriceType kept
          | Thrown _ => []
          end
      | Some _ => []
      end
  end.
End Parse.

Definition extractReasoning (response : ClaudeResponse) : text := responseText response.

(** *** runScoutThenSnipe, from the merge of the qualified leads on

    The scout phase is network traffic; what it hands to the rest of the
    function is collected in [ScoutPhase].  Progress notifications and
    console output are left out. *)

Record AgentScoutConfig := {
  useEbaySearch : bool;
  useDealFeeds : bool;
  useCryptoAPIs : bool;
  useCraigslistRSS : bool;
  useGovAuctions : bool;
  useCollectiblesAPIs : bool;
  useOpenLibrary : bool;
  minProfitCents : Z;
  minSpreadPercent : Q;
  snipeSystemPrompt : text
}.

(** [(userConfig.x as number) || fallback] *)
Definition orZ (given : option Z) (fallback : Z) : Z :=
  match given with
  | Some x => if x =? 0 then fallback else x
  | None => fallback
  end.

Definition orQ (given : option Q) (fallback : Q) : Q :=
  match given with
  | Some x => if Qeq_bool x 0 then fallback else x
  | None => fallback
  end.

(** [getScoutConfig]: the source switches and thresholds of each agent
    type.  The query tables are left out; [SNIPE_PROMPTS] is the table of
    system prompts. *)
Definition getScoutConfig (SNIPE_PROMPTS : AgentQueue.AgentType -> text)
    (agentType : AgentQueue.AgentType)
    (userMinProfitCents : option Z) (userMinSpreadPercent : option Q)
    : AgentScoutConfig :=
  match agentType with
  | AgentQueue.listings =>
    {| useEbaySearch := false; useDealFeeds := false; useCryptoAPIs := false;
       useCraigslistRSS := true; useGovAuctions := false;
       useCollectiblesAPIs := false; useOpenLibrary := false;
       minProfitCents := orZ userMinProfitCents 1000;
       minSpreadPercent := 15;
       snipeSystemPrompt := SNIPE_PROMPTS agentType |}
  | AgentQueue.auctions =>
    {| useEbaySearch := true; useDealFeeds := false; useCryptoAPIs := false;
       useCraigslistRSS := false; useGovAuctions := true;
       useCollectiblesAPIs := false; useOpenLibrary := false;
       minProfitCents := orZ userMinProfitCents 1000;
       minSpreadPercent := 15;
       snipeSystemPrompt := SNIPE_PROMPTS agentType |}
  | AgentQueue.crypto =>
    {| useEbaySearch := false; useDealFeeds := false; useCryptoAPIs := true;
       useCraigslistRSS := false; useGovAuctions := false;
       useCollectiblesAPIs := false; useOpenLibrary := false;
       minProfitCents := 0;
       minSpreadPercent := orQ userMinSpreadPercent (15 # 100);
       snipeSystemPrompt := SNIPE_PROMPTS agentType |}
  | AgentQueue.retail =>
    {| useEbaySearch := false; useDealFeeds := true; useCryptoAPIs := false;
       useCraigslistRSS := false; useGovAuctions := false;
       useCollectiblesAPIs := false; useOpenLibrary := false;
       minProfitCents := orZ userMinProfitCents 1000;
       minSpreadPercent := 20;
       snipeSystemPrompt := SNIPE_PROMPTS agentType |}
  | AgentQueue.tickets =>
    {| useEbaySearch := false; useDealFeeds := false; useCryptoAPIs := false;
       useCraigslistRSS := false; useGovAuctions := false;
       useCollectiblesAPIs := false; useOpenLibrary := false;
       minProfitCents := orZ userMinProfitCents 1500;
       minSpreadPercent := 15;
       snipeSystemPrompt := SNIPE_PROMPTS agentType |}
  | AgentQueue.collectibles =>
    {| useEbaySearch := true; useDealFeeds := false; useCryptoAPIs := false;
       useCraigslistRSS := false; useGovAuctions := false;
       useCollectiblesAPIs := true; useOpenLibrary := false;
       minProfitCents := orZ userMinProfitCents 1000;
       minSpreadPercent := 15;
       snipeSystemPrompt := SNIPE_PROMPTS agentType |}
  | AgentQueue.books =>
    {| useEbaySearch := true; useDealFeeds := false; useCryptoAPIs := false;
       useCraigslistRSS := false; useGovAuctions := false;
       useCollectiblesAPIs := false; useOpenLibrary := true;
       minProfitCents := orZ userMinProfitCents 500;
       minSpreadPercent := 20;
       snipeSystemPrompt := SNIPE_PROMPTS agentType |}
  end.

(** Step 1f of the scout phase: the deal-feed items go through
    [filterDealFeedItems] with the literal threshold 25. *)
Definition dealLeadsOf (cleanTitleForSearch encodeURIComponent : text -> text)
    (agentConfig : AgentScoutConfig) (feed : list DealFeedItem)
    : list Filter.QualifiedLead :=
  if useDealFeeds agentConfig
  then Filter.filterDealFeedItems cleanTitleForSearch encodeURIComponent feed 25
  else [].

(** Step 1i: the priced leads go through [filterLeadsWithPriceData] with the
    thresholds of the agent type. *)
Definition resaleLeadsOf (cleanTitleForSearch encodeURIComponent : text -> text)
    (agentConfig : AgentScoutConfig) (allLeads : list ScoutLead)
    (resaleData : gmap text Filter.ResalePriceInfo) : list Filter.QualifiedLead :=
  Filter.filterLeadsWithPriceData cleanTitleForSearch encodeURIComponent
    allLeads resaleData (minProfitCents agentConfig) (minSpreadPercent agentConfig).

Record ScoutSnipeConfig := {
  agentType : AgentQueue.AgentType;
  apiKey : text;
  tavilyApiKey : text
}.

Definition agentTypeName (t : AgentQueue.AgentType) : text :=
  match t with
  | AgentQueue.listings => str "listings"
  | AgentQueue.auctions => str "auctions"
  | AgentQueue.crypto => str "crypto"
  | AgentQueue.retail => str "retail"
  | AgentQueue.tickets => str "tickets"
  | AgentQueue.collectibles => str "collectibles"
  | AgentQueue.books => str "books"
  end.

Record ScoutPhase := {
  allLeads : list ScoutLead;
  bookLeads : list ScoutLead;
  qualifiedLeads : list Filter.QualifiedLead;
  dealLeads : list Filter.QualifiedLead;
  bookQualifiedLeads : list Filter.QualifiedLead;
  collectiblesDirectLeads : list Filter.QualifiedLead;
  sourcesChecked : list text;
  allDiagnostics : list SourceDiagnostic
}.

Record ScoutStats := {
  leadsFound : nat;
  leadsQualified : nat;
  stats_sourcesChecked : list text;
  diagnostics : option (list SourceDiagnostic)
}.

Record ScoutSnipeResult := {
  success : bool;
  opportunities : list Json;
  result_reasoning : text;
  totalInputTokens : Z;
  totalOutputTokens : Z;
  totalToolCalls : nat;
  estimatedCost : Q;
  scoutStats : ScoutStats;
  error : option text;
  abortReason : option text
}.

(** What a run leaves behind: the ledger files, and the calls it made to
    the model and to the sold-price search, in order. *)
Record World := {
  files : Budget.Files;
  claudeCalls : list ClaudeRequest;
  searches : list text
}.

Definition allQualified (scout : ScoutPhase) : list Filter.QualifiedLead :=
  take 25 (qualifiedLeads scout ++ dealLeads scout
           ++ bookQualifiedLeads scout ++ collectiblesDirectLeads scout).

Definition totalLeads (scout : ScoutPhase) : nat :=
  (length (allLeads scout)
   + (if (0 <? length (dealLeads scout))%nat then length (dealLeads scout) else 0)
   + length (bookLeads scout))%nat.

Definition diagSummary (scout : ScoutPhase) : text :=
  join (str "; ")
    (map (fun d =>
            diag_source d ++ str ": " ++ statusName (diag_status d)
              ++ match diag_error d with
                 | Some (c :: e) => str " (" ++ (c :: e) ++ str ")"
                 | _ => []
                 end)
       (List.filter (fun d => negb (bool_decide (diag_status d = st_success)))
          (allDiagnostics scout))).

Definition noLeadsReasoning (agentConfig : AgentScoutConfig) (scout : ScoutPhase) : text :=
  str "Scouted " ++ decimal (totalLeads scout) ++ str " leads across "
    ++ join (str ", ") (sourcesChecked scout)
    ++ str ". No leads passed the minimum profit threshold of $"
    ++ toFixed0_cents (minProfitCents agentConfig) ++ str "."
    ++ match diagSummary scout with
       | [] => []
       | summary => str " Source issues: " ++ summary
       end.

Definition needsResearch (leads : list Filter.QualifiedLead) : nat :=
  length (List.filter
            (fun l => match Filter.sellPriceType l with
                      | Some Filter.research_needed | Some Filter.estimated => true
                      | _ => false
                      end) leads).

Definition search_sold_prices_tool : ClaudeTool :=
  {| tool_name := str "search_sold_prices";
     tool_description := str "Search eBay sold listings to find real sold prices for a product. Returns listing URLs and prices. Use this to verify or find sell prices for leads marked ESTIMATED or UNKNOWN." |}.

Definition maxToolCalls : nat := 5.

(** The variables of the tool-use loop. *)
Record LoopState := {
  toolCallsUsed : nat;
  loop_messages : list ClaudeMessage;
  loop_inputTokens : Z;
  loop_outputTokens : Z;
  loop_world : World
}.

(** How the [for] loop is left: by [break] with [finalResponse] set, by
    running out of iterations ([finalResponse] still [null]), or by an
    exception of [callClaude]. *)
Inductive LoopExit :=
| Final (finalResponse : option ClaudeResponse) (st : LoopState)
| Failed (message : text) (st : LoopState).

Section Run.
Variable JSON_parse : text -> option Json.
(** The model, and the web search behind the [search_sold_prices] tool. *)
Variable callClaude : ClaudeRequest -> Outcome ClaudeResponse.
Variable searchSoldPrices : text -> Outcome text.
(** The wording of the prompt built from the leads. *)
Variable snipeMessage : list Filter.QualifiedLead -> nat -> text.
Variables (today now : text).

Variable config : ScoutSnipeConfig.
Variable agentConfig : AgentScoutConfig.

Definition isToolUse (b : ClaudeContentBlock) : bool :=
  bool_decide (block_type b = tool_use).

(** [input?.product_name || ''] *)
Definition productNameOf (block : ClaudeContentBlock) : text :=
  match block_input block with
  | Some input => default [] (product_name input)
  | None => []
  end.

(** One iteration of [for (const block of toolUseBlocks)]. *)
Definition executeTool (acc : nat * list ClaudeContentBlock * list text)
    (block : ClaudeContentBlock) : nat * list ClaudeContentBlock * list text :=
  let '(used, toolResults, searched) := acc in
  let productName := productNameOf block in
  let resultText :=
    match searchSoldPrices productName with
    | Returned t => t
    | Thrown _ => str "Error: search failed"
    end in
  (S used,
   toolResults ++ [{| block_type := tool_result; block_text := None;
                      block_id := None; block_name := None; block_input := None;
                      tool_use_id := block_id block;
                      block_content := Some resultText |}],
   searched ++ [productName]).

(** [for (let loop = 0; loop < maxToolCalls + 1; loop++)]: [iterations]
    is the number of iterations left. *)
Fixpoint snipeLoop (snipeTools : option (list ClaudeTool)) (iterations : nat)
    (st : LoopState) : LoopExit :=
  match iterations with
  | O => Final None st
  | S iterations' =>
      let request :=
        {| model := str "claude-haiku-4-5-20251001";
           max_tokens := 4096;
           system := snipeSystemPrompt agentConfig;
           messages := loop_messages st;
           tools := match snipeTools with
                    | Some ts => if (toolCallsUsed st <? maxToolCalls)%nat
                                 then Some ts else None
                    | None => None
                    end |} in
      let called :=
        {| files := files (loop_world st);
           claudeCalls := claudeCalls (loop_world st) ++ [request];
           searches := searches (loop_world st) |} in
      match callClaude request with
      | Thrown e =>
          Failed e {| toolCallsUsed := toolCallsUsed st;
                      loop_messages := loop_messages st;
                      loop_inputTokens := loop_inputTokens st;
                      loop_outputTokens := loop_outputTokens st;
                      loop_world := called |}
      | Returned response =>
          let recorded :=
            {| files := Budget.recordUsage today now
                          (agentTypeName (agentType config))
                          (input_tokens (usage response))
                          (output_tokens (usage response)) 0 (files called);
               claudeCalls := claudeCalls called;
               searches := searches called |} in
          let inTok := loop_inputTokens st + input_tokens (usage response) in
          let outTok := loop_outputTokens st + output_tokens (usage response) in
          let toolUseBlocks := List.filter isToolUse (response_content response) in
          if (length toolUseBlocks =? 0)%nat || (maxToolCalls <=? toolCallsUsed st)%nat
          then
            Final (Some response)
              {| toolCallsUsed := toolCallsUsed st;
                 loop_messages := loop_messages st;
                 loop_inputTokens := inTok;
                 loop_outputTokens := outTok;
                 loop_world := recorded |}
          else
            let '(used, toolResults, searched) :=
              fold_left executeTool toolUseBlocks
                (toolCallsUsed st, [], searches recorded) in
            snipeLoop snipeTools iterations'
              {| toolCallsUsed := used;
                 loop_messages :=
                   loop_messages st
                     ++ [{| role := assistant;
                            content := Blocks (response_content response) |};
                         {| role := user; content := Blocks toolResults |}];
                 loop_inputTokens := inTok;
                 loop_outputTokens := outTok;
                 loop_world := {| files := files recorded;
                                  claudeCalls := claudeCalls recorded;
                                  searches := searched |} |}
      end
  end.

(** The tool definitions, the first message and the loop of the snipe
    phase. *)
Definition snipeToolsFor (qualified : list Filter.QualifiedLead)
    : option (list ClaudeTool) :=
  if (0 <? needsResearch qualified)%nat then Some [search_sold_prices_tool] else None.

Definition snipeStart (qualified : list Filter.QualifiedLead) (w : World) : LoopState :=
  {| toolCallsUsed := 0;
     loop_messages :=
       [{| role := user;
           content := Text (snipeMessage qualified (needsResearch qualified)) |}];
     loop_inputTokens := 0;
     loop_outputTokens := 0;
     loop_world := w |}.

Definition snipePhase (qualified : list Filter.QualifiedLead) (w : World) : LoopExit :=
  snipeLoop (snipeToolsFor qualified) (maxToolCalls + 1) (snipeStart qualified w).

Definition runScoutThenSnipe (scout : ScoutPhase) (w : World)
    : ScoutSnipeResult * World :=
  let qualified := allQualified scout in
  let total := totalLeads scout in
  match qualified with
  | [] =>
      ({| success := true;
          opportunities := [];
          result_reasoning := noLeadsReasoning agentConfig scout;
          totalInputTokens := 0;
          totalOutputTokens := 0;
          totalToolCalls := 0;
          estimatedCost := 0;
          scoutStats := {| leadsFound := total; leadsQualified := 0;
                           stats_sourcesChecked := sourcesChecked scout;
                           diagnostics := Some (allDiagnostics scout) |};
          error := None;
          abortReason := None |}, w)
  | _ =>
      let budgetConfig := Budget.loadBudgetConfig (files w) in
      let budget := Budget.checkBudget today budgetConfig (files w) in
      if negb (Budget.allowed budget) then
        ({| success := false;
            opportunities := [];
            result_reasoning := [];
            totalInputTokens := 0;
            totalOutputTokens := 0;
            totalToolCalls := 0;
            estimatedCost := 0;
            scoutStats := {| leadsFound := total;
                             leadsQualified := length qualified;
                             stats_sourcesChecked := sourcesChecked scout;
                             diagnostics := None |};
            error := None;
            abortReason := Some (str "Daily token limit reached.") |}, w)
      else
        match snipePhase qualified w with
        | Final finalResponse st =>
            ({| success := true;
                opportunities :=
                  match finalResponse with
                  | Some r => parseOpportunities JSON_parse r
                  | None => []
                  end;
                result_reasoning :=
                  match finalResponse with
                  | Some r => extractReasoning r
                  | None => []
                  end;
                totalInputTokens := loop_inputTokens st;
                totalOutputTokens := loop_outputTokens st;
                totalToolCalls := 1 + toolCallsUsed st;
                estimatedCost :=
                  Budget.estimateCost (loop_inputTokens st) (loop_outputTokens st);
                scoutStats := {| leadsFound := total;
                                 leadsQualified := length qualified;
                                 stats_sourcesChecked := sourcesChecked scout;
                                 diagnostics := Some (allDiagnostics scout) |};
                error := None;
                abortReason := None |}, loop_world st)
        | Failed message st =>
            ({| success := false;
                opportunities := [];
                result_reasoning := [];
                totalInputTokens := loop_inputTokens st;
                totalOutputTokens := loop_outputTokens st;
                totalToolCalls := 0;
                estimatedCost :=
                  Budget.estimateCost (loop_inputTokens st) (loop_outputTokens st);
                scoutStats := {| leadsFound := 0; leadsQualified := 0;
                                 stats_sourcesChecked := sourcesChecked scout;
                                 diagnostics := Some (allDiagnostics scout) |};
                error := Some message;
                abortReason := None |}, loop_world st)
        end
  end.
End Run.

End Runner.

(** ** src/agents/scout/filter.ts: crypto spread detection

    [findCryptoSpreads] is the same in both revisions of filter.ts.  The
    quotient [(high - low) / low] is the one of the rationals, which is the
    quotient the code computes whenever [low.price] is not zero; the
    exchange fetchers push a quote only when its price is truthy. *)

Module Spreads.
Import Filter Runner.

(** [byPair]: a [Map] from pair to the quotes of that pair, in insertion
    order.  [get(p.pair) || []], [push(p)], [set(p.pair, existing)]. *)
Fixpoint addQuote (p : CryptoPrice) (byPair : list (text * list CryptoPrice))
    : list (text * list CryptoPrice) :=
  match byPair with
  | [] => [(cp_pair p, [p])]
  | (k, existing) :: rest =>
      if bool_decide (k = cp_pair p) then (k, existing ++ [p]) :: rest
      else (k, existing) :: addQuote p rest
  end.

Definition groupByPair (prices : list CryptoPrice) : list (text * list CryptoPrice) :=
  fold_left (fun byPair p => addQuote p byPair) prices [].

(** The body of the two nested loops for the quotes [a] and [b]. *)
Definition spreadOf (pair : text) (minSpreadPercent : Q) (a b : CryptoPrice)
    : option CryptoSpread :=
  let low := if Qltb (cp_price a) (cp_price b) then a else b in
  let high := if Qltb (cp_price a) (cp_price b) then b else a in
  let spreadPercent := ((cp_price high - cp_price low) / cp_price low * 100)%Q in
  if Qgeb spreadPercent minSpreadPercent then
    Some {| pair := pair;
            buyExchange := cp_exchange low;
            spread_buyPrice := cp_price low;
            spread_buyUrl := cp_url low;
            sellExchange := cp_exchange high;
            spread_sellPrice := cp_price high;
            spread_sellUrl := cp_url high;
            spreadPercent := spreadPercent;
            spreadAmount := (cp_price high - cp_price low)%Q |}
  else None.

(** [for i ... for j = i + 1 ...] over the quotes of one pair. *)
Fixpoint pairSpreads (pair : text) (minSpreadPercent : Q)
    (exchangePrices : list CryptoPrice) : list CryptoSpread :=
  match exchangePrices with
  | [] => []
  | a :: rest =>
      omap (spreadOf pair minSpreadPercent a) rest
        ++ pairSpreads pair minSpreadPercent rest
  end.

(** The sign of [b.spreadPercent - a.spreadPercent]. *)
Definition byPercentDesc (a b : CryptoSpread) : Z :=
  Z.sgn (Qnum (spreadPercent b - spreadPercent a)%Q).

Definition findCryptoSpreads (prices : list CryptoPrice) (minSpreadPercent : Q)
    : list CryptoSpread :=
  let spreads :=
    flat_map (fun '(pair, exchangePrices) =>
                if (length exchangePrices <? 2)%nat then []
                else pairSpreads pair minSpreadPercent exchangePrices)
             (groupByPair prices) in
  Array_sort byPercentDesc spreads.

End Spreads.

(** ** src/lib/budget.ts: the rest of the module *)

Module BudgetStore.
Import Budget.

(** [getDailyUsage] *)
Definition getDailyUsage (today : text) (fs : Files) : TokenUsageEntry :=
  readUsage today fs.


End BudgetStore.

(** ** src/lib/agent-queue.ts: getQueueStatus

    A [Map] iterates in insertion order.  Run ids are issued by a counter
    that only grows and an id is never set twice, so the insertion order of
    [activeRuns] is the ascending order of its run ids. *)

Module QueueStatus.
Import AgentQueue.

Record Status := {
  active : list AgentType;
  queued : list AgentType;
  activeCount : nat;
  queuedCount : nat
}.

(** [[...activeRuns.values()]] *)
Definition activeValues (s : State) : list AgentType :=
  map snd (Array_sort (fun a b => Z.of_nat a.1 - Z.of_nat b.1)
             (map_to_list (activeRuns s))).

Definition getQueueStatus (s : State) : Status :=
  {| active := activeValues s;
     queued := map agentType (queue s);
     activeCount := size (activeRuns s);
     queuedCount := length (queue s) |}.

End QueueStatus.

(** ** src/agents/run-agent.ts: the helpers of the base agent *)

Module BaseAgent.
Import Runner.

Section Parse.
Variable JSON_parse : text -> option Json.

(** [parseOpportunities(response: ClaudeResponse | null)]: the same block,
    the same test, and the elements returned as they are. *)
Definition parseOpportunities (response : option ClaudeResponse) : list Json :=
  match response with
  | None => []
  | Some response =>
      match search opportunitiesPattern (responseText response) with
      | None => []
      | Some m =>
          match JSON_parse (default [] (cap 1 m)) with
          | None => []
          | Some (JArr parsed) =>
              match filterOpportunities parsed with
              | Returned kept => kept
              | Thrown _ => []
              end
          | Some _ => []
          end
      end
  end.
End Parse.

Definition extractFullReasoning (response : option ClaudeResponse) : text :=
  match response with
  | None => []
  | Some response => responseText response
  end.

End BaseAgent.

(** ** src/agents/scout/sources.ts: helpers of the feed parsers *)

Module Feeds.

(** [s.replace(r, rep)] with the [g] flag, for a pattern that consumes at
    least one code unit: every match, left to right, is replaced ([skip]
    counts the code units of the previous match still to pass). *)
Fixpoint replace_all (r : regex) (rep : text) (skip : nat) (s : text) : text :=
  match s with
  | [] => []
  | c :: s' =>
      match skip with
      | S n => replace_all r rep n s'
      | O => match match_here r s with
             | Some (rest, _) => rep ++ replace_all r rep (length s - length rest - 1) s'
             | None => c :: replace_all r rep 0 s'
             end
      end
  end.

(** The entities and what they stand for; 34 and 39 are the code units of
    the double and the single quote. *)
Definition entities : list (string * text) :=
  [("&amp;", str "&"); ("&lt;", str "<"); ("&gt;", str ">"); ("&quot;", [34%N]);
   ("&#39;", [39%N]); ("&#x27;", [39%N]); ("&nbsp;", str " ")]%string.

Definition decodeHTMLEntities (t : text) : text :=
  fold_left (fun t '(entity, rep) => replace_all (lit entity) rep 0 t) entities t.

(** [/dc:format[^>]*>([^<]+)/i] *)
Definition dcFormatPattern : regex :=
  seqs [lit_ci "dc:format"; Star true (Chr (fun c => negb (chr_is ">" c)));
        Chr (chr_is ">"); Group 1 (plus (Chr (fun c => negb (chr_is "<" c))))].

(** [if (price)]: a price that is [null] or 0 is falsy. *)
Definition truthyPrice (p : option Z) : bool :=
  match p with
  | Some c => negb (c =? 0)
  | None => false
  end.

Definition extractCraigslistPrice (title description rawXml : text) : option Z :=
  let titlePrice := extractPrice title in
  if truthyPrice titlePrice then titlePrice
  else
    let descPrice := extractPrice description in
    if truthyPrice descPrice then descPrice
    else
      match search dcFormatPattern rawXml with
      | Some dcMatch =>
          let p := extractPrice (default [] (cap 1 dcMatch)) in
          if truthyPrice p then p else None
      | None => None
      end.

End Feeds.

(** ** src/agents/scout/filter.ts: the resale entry of one lead

    From [batchResaleLookup], what is computed for one lead out of the
    search response, and how it is stored.  The request itself is network
    traffic.  [isListingUrl] (sources.ts) and the range tests on a price,
    which the code computes in double precision ([price < buy * 0.1] and
    the like), are parameters. *)

Module ResaleLookup.
Import Filter.

Record SearchResult := {
  result_url : text;
  result_title : option text;
  result_content : option text
}.

(** [s.includes(w)] *)
Definition includes (w : string) (s : text) : bool :=
  match search (lit w) s with
  | Some _ => true
  | None => false
  end.

(** [(result.title || '') + ' ' + (result.content || '')] *)
Definition resultText (result : SearchResult) : text :=
  default [] (result_title result) ++ str " " ++ default [] (result_content result).

Definition platformOf (url : text) : text :=
  if includes "ebay" url then str "eBay"
  else if includes "amazon" url then str "Amazon"
  else if includes "stockx" url then str "StockX"
  else if includes "mercari" url then str "Mercari"
  else str "Marketplace".

(** [resaleMap.set(lead.url, info); resaleMap.set(lead.title, info)] *)
Definition storeInfo (lead : ScoutLead) (info : ResalePriceInfo)
    (resaleMap : gmap text ResalePriceInfo) : gmap text ResalePriceInfo :=
  <[lead_title lead := info]> (<[lead_url lead := info]> resaleMap).

Section PerLead.
Variable isListingUrl : text -> bool.
(** [keeps buy price]: the price passes the range tests for the buy price. *)
Variable keeps : Z -> Z -> bool.
Variable encodeURIComponent : text -> text.

(** The variables of the loop over the results. *)
Record Listing := {
  listingPrices : list Z;
  listingDataPoints : Z;
  bestListingUrl : text;
  bestListingPlatform : text
}.

Definition listingStep (buyPriceCents : Z) (acc : Listing) (result : SearchResult)
    : Listing :=
  if negb (isListingUrl (result_url result)) then acc
  else
    let resultPrices := extractAllPrices (resultText result) in
    let kept := List.filter (keeps buyPriceCents) resultPrices in
    let best :=
      match bestListingUrl acc, resultPrices with
      | [], _ :: _ => (result_url result, platformOf (result_url result))
      | _, _ => (bestListingUrl acc, bestListingPlatform acc)
      end in
    {| listingPrices := listingPrices acc ++ kept;
       listingDataPoints := listingDataPoints acc + Z.of_nat (length kept);
       bestListingUrl := best.1;
       bestListingPlatform := best.2 |}.

(** The entry stored for a lead ([cleanTitle] is its cleaned title). *)
Definition resaleInfo (cleanTitle : text) (buyPriceCents : Z)
    (results : list SearchResult) : ResalePriceInfo :=
  let acc := fold_left (listingStep buyPriceCents) results
               {| listingPrices := []; listingDataPoints := 0;
                  bestListingUrl := []; bestListingPlatform := [] |} in
  let priceType := if 2 <=? listingDataPoints acc then verified else estimated in
  match listingPrices acc with
  | _ :: _ =>
      let sorted := Array_sort (fun a b => a - b) (listingPrices acc) in
      let median := nth (length sorted / 2) sorted 0 in
      {| estimatedPrice := median;
         platform := text_or (bestListingPlatform acc) (str "Marketplace");
         url := bestListingUrl acc;
         dataPoints := Z.of_nat (length (listingPrices acc));
         Filter.listingDataPoints := Some (listingDataPoints acc);
         priceType := Some priceType |}
  | [] =>
      {| estimatedPrice := 0;
         platform := str "eBay";
         url := str "https://www.ebay.com/sch/i.html?_nkw="
                  ++ encodeURIComponent cleanTitle ++ str "&LH_Sold=1&LH_Complete=1";
         dataPoints := 0;
         Filter.listingDataPoints := Some 0;
         priceType := Some research_needed |}
  end.
End PerLead.

(** The earlier revision: every result counts, weighted by its kind, and
    the weighted median is taken; nothing is stored without a price. *)
Module Rev0.
Section PerLead.
Variable isListingUrl : text -> bool.
Variable keeps : Z -> Z -> bool.

Definition weighted (w : Z) (prices : list Z) : list Entry :=
  map (fun price => {| value := price; weight := w |}) prices.

(** [if (data.answer) { ... }]: an empty answer is falsy. *)
Definition answerPrices (buyPriceCents : Z) (answer : option text) : list Entry :=
  match answer with
  | Some (c :: a) =>
      weighted 2 (List.filter (keeps buyPriceCents) (extractAllPrices (c :: a)))
  | _ => []
  end.

Definition resultStep (buyPriceCents : Z) (acc : list Entry * Z) (result : SearchResult)
    : list Entry * Z :=
  let resultPrices := extractAllPrices (resultText result) in
  let isListing := isListingUrl (result_url result) in
  let w := if isListing then 3 else 1 in
  let kept := List.filter (keeps buyPriceCents) resultPrices in
  (acc.1 ++ weighted w kept,
   if isListing then acc.2 + Z.of_nat (length kept) else acc.2).

(** [listingResult || marketplaceResult || results[0]] *)
Definition bestResult (results : list SearchResult) : option SearchResult :=
  match List.find (fun r => isListingUrl (result_url r)) results with
  | Some r => Some r
  | None =>
      match List.find (fun r => includes "ebay.com" (result_url r)
                                || includes "amazon.com" (result_url r)) results with
      | Some r => Some r
      | None => head results
      end
  end.

Definition resaleInfo (buyPriceCents : Z) (answer : option text)
    (results : list SearchResult) : option ResalePriceInfo :=
  let '(weightedPrices, listingDataPoints) :=
    fold_left (resultStep buyPriceCents) results (answerPrices buyPriceCents answer, 0) in
  match weightedPrices with
  | _ :: _ =>
      let best := bestResult results in
      Some {| estimatedPrice := weightedMedian weightedPrices;
              platform := match best with
                          | Some r => platformOf (result_url r)
                          | None => str "Marketplace"
                          end;
              url := match best with Some r => result_url r | None => [] end;
              dataPoints := Z.of_nat (length weightedPrices);
              Filter.listingDataPoints := Some listingDataPoints;
              priceType := None |}
  | [] => None
  end.
End PerLead.
End Rev0.

End ResaleLookup.

(* ================================================================== *)
(** * Part II: the properties *)
(* ================================================================== *)

Import Sources.

(** ** Sanity checks of the embedding on concrete inputs *)

Example extractPrice_plain : extractPrice (str "$45.99") = Some 4599.
Proof. vm_compute. reflexivity. Qed.

Example extractPrice_thousands : extractPrice (str "buy for $1,200.00 now") = Some 120000.
Proof. vm_compute. reflexivity. Qed.

Example extractPrice_pattern_order : extractPrice (str "USD 5 or $7") = Some 700.
Proof. vm_compute. reflexivity. Qed.

Example extractPrice_price_colon : extractPrice (str "price: 45.99") = Some 4599.
Proof. vm_compute. reflexivity. Qed.

Example extractPrice_skips_out_of_range :
  extractPrice (str "$0 and $1000000 then Price   $3.5") = Some 300.
Proof. vm_compute. reflexivity. Qed.

Example extractPrice_none : extractPrice (str "no price here, 45.99") = None.
Proof. vm_compute. reflexivity. Qed.

Example extractAllPrices_document_order :
  extractAllPrices (str "$45.99 $ 3 $,.50 $. $12.3.45 $$5") = [4599; 300; 50; 1200; 500].
Proof. vm_compute. reflexivity. Qed.

Example extractDealPricePair_was :
  Filter.extractDealPricePair (str "Widget $44.99 (Regular Price $100)")
  = Some {| Filter.dealPrice := 4499; Filter.regularPrice := 10000 |}.
Proof. vm_compute. reflexivity. Qed.

Example extractDealPricePair_was_now :
  Filter.extractDealPricePair (str "Widget was $100, now $50")
  = Some {| Filter.dealPrice := 5000; Filter.regularPrice := 10000 |}.
Proof. vm_compute. reflexivity. Qed.

Example extractDealPricePair_single_price :
  Filter.extractDealPricePair (str "Widget $30 ") = None.
Proof. vm_compute. reflexivity. Qed.

(** ** Lists and sorting *)

Section SortFacts.
Context {A : Type} (cmp : A -> A -> Z).

Lemma insert_sorted_In (x y : A) (l : list A) :
  In y (insert_sorted cmp x l) <-> y = x \/ In y l.
Proof.
  induction l as [|z l IH]; simpl.
  - intuition.
  - destruct (cmp x z <=? 0); simpl; [intuition|].
    rewrite IH. intuition.
Qed.

Lemma Array_sort_In (y : A) (l : list A) : In y (Array_sort cmp l) <-> In y l.
Proof.
  induction l as [|x l IH]; simpl; [tauto|].
  rewrite insert_sorted_In, IH. intuition.
Qed.

Lemma insert_sorted_length (x : A) (l : list A) :
  length (insert_sorted cmp x l) = S (length l).
Proof.
  induction l as [|z l IH]; simpl; [reflexivity|].
  destruct (cmp x z <=? 0); simpl; congruence.
Qed.

Lemma Array_sort_length (l : list A) : length (Array_sort cmp l) = length l.
Proof.
  induction l as [|x l IH]; simpl; [reflexivity|].
  rewrite insert_sorted_length. congruence.
Qed.
End SortFacts.

(** ** C7: the weighted median *)

Definition sample_entries : list Filter.Entry :=
  [ {| Filter.value := 100; Filter.weight := 1 |};
    {| Filter.value := 200; Filter.weight := 1 |};
    {| Filter.value := 300; Filter.weight := 3 |} ].

(** The total weight of a list of entries. *)
Definition weightSum (l : list Filter.Entry) : Z :=
  fold_left (fun sum y => sum + Filter.weight y) l 0.

Lemma weightSum_cons (y : Filter.Entry) (l : list Filter.Entry) :
  weightSum (y :: l) = Filter.weight y + weightSum l.
Proof.
  unfold weightSum. simpl.
  assert (shift : forall (l : list Filter.Entry) (a : Z),
             fold_left (fun sum y => sum + Filter.weight y) l a
             = a + fold_left (fun sum y => sum + Filter.weight y) l 0).
  { clear. induction l as [|z l IH]; intros a; simpl; [lia|].
    rewrite (IH (a + Filter.weight z)), (IH (0 + Filter.weight z)). lia. }
  apply shift.
Qed.

(** The scan returns the value of the first entry at which the running
    weight reaches [halfWeight]. *)
Lemma medianScan_first (halfWeight : Q) (before : list Filter.Entry)
    (e : Filter.Entry) (after : list Filter.Entry) (c0 : Z) :
  (forall pre x post, before = pre ++ x :: post ->
     (inject_Z (c0 + weightSum (pre ++ [x])) < halfWeight)%Q) ->
  (halfWeight <= inject_Z (c0 + weightSum (before ++ [e])))%Q ->
  Filter.medianScan halfWeight c0 (before ++ e :: after) = Some (Filter.value e).
Proof.
  revert c0. induction before as [|b before IH]; intros c0 Hlt Hge.
  - simpl in *. rewrite weightSum_cons in Hge. unfold weightSum in Hge. simpl in Hge.
    rewrite Z.add_0_r in Hge.
    apply Qle_bool_iff in Hge. rewrite Hge. reflexivity.
  - simpl.
    assert (Hb := Hlt [] b before eq_refl). simpl in Hb.
    rewrite weightSum_cons in Hb. unfold weightSum in Hb. simpl in Hb.
    rewrite Z.add_0_r in Hb.
    destruct (Qle_bool halfWeight (inject_Z (c0 + Filter.weight b))) eqn:E.
    + apply Qle_bool_iff in E. exfalso.
      apply (Qlt_irrefl halfWeight). eapply Qle_lt_trans; [exact E|exact Hb].
    + apply IH.
      * intros pre x post ->.
        specialize (Hlt (b :: pre) x post eq_refl). simpl in Hlt.
        rewrite weightSum_cons in Hlt.
        rewrite <- Z.add_assoc. exact Hlt.
      * simpl in Hge. rewrite weightSum_cons in Hge.
        rewrite <- Z.add_assoc. exact Hge.
Qed.

(** C7. On the entries (100, weight 1), (200, weight 1), (300, weight 3)
    the weighted median is 300: in ascending order of value the running
    weights are 1, 2, 5, half of the total is 5/2, and 300 is the first value
    at which the running weight reaches it. *)
Theorem weightedMedian_sample :
  Filter.weightedMedian sample_entries = 300
  /\ Array_sort (fun a b => Filter.value a - Filter.value b) sample_entries = sample_entries
  /\ Filter.medianScan (5 # 2) 0 sample_entries = Some 300.
Proof. repeat split; vm_compute; reflexivity. Qed.

(** ** C4: the daily budget *)

(** The total recorded for [today]: a stored entry of another date, or no
    readable entry at all, counts as zero. *)
Definition recordedToday (today : text) (fs : Budget.Files) : Z :=
  match Budget.usageFile fs with
  | Some usage => if bool_decide (Budget.date usage = today)
                  then Budget.totalTokens usage else 0
  | None => 0
  end.

Lemma readUsage_total (today : text) (fs : Budget.Files) :
  Budget.totalTokens (Budget.readUsage today fs) = recordedToday today fs.
Proof.
  unfold Budget.readUsage, recordedToday.
  destruct (Budget.usageFile fs) as [usage|]; [|reflexivity].
  destruct (decide (Budget.date usage = today)) as [Heq|Hne].
  - rewrite (bool_decide_eq_true_2 _ Heq).
    rewrite bool_decide_eq_false_2 by (intros H; exact (H Heq)). reflexivity.
  - rewrite (bool_decide_eq_false_2 _ Hne).
    rewrite (bool_decide_eq_true_2 _ Hne). reflexivity.
Qed.

(** C4. [checkBudget] refuses exactly when the total recorded for today
    has reached the daily limit; an entry stored under another date counts
    as zero. *)
Theorem checkBudget_refuses_iff (today : text) (config : Budget.BudgetConfig)
    (fs : Budget.Files) :
  Budget.allowed (Budget.checkBudget today config fs) = false
  <-> Budget.dailyTokenLimit config <= recordedToday today fs.
Proof.
  unfold Budget.checkBudget. simpl. rewrite readUsage_total.
  rewrite Z.ltb_ge. reflexivity.
Qed.

(** The ledger starts from zero on a new day, and a recorded call is read
    back by the next check of the same day. *)
Lemma recordUsage_then_check (today now agent : text) (input output calls : Z)
    (config : Budget.BudgetConfig) (fs : Budget.Files) :
  Budget.used (Budget.checkBudget today config
                 (Budget.recordUsage today now agent input output calls fs))
  = recordedToday today fs + (input + output).
Proof.
  unfold Budget.checkBudget. simpl. rewrite readUsage_total.
  assert (Hd : Budget.date (Budget.readUsage today fs) = today).
  { unfold Budget.readUsage. destruct (Budget.usageFile fs) as [usage|]; [|reflexivity].
    destruct (bool_decide (Budget.date usage <> today)) eqn:E; [reflexivity|].
    apply bool_decide_eq_false in E. apply dec_stable in E. exact E. }
  unfold recordedToday at 1. unfold Budget.recordUsage, Budget.writeUsage. simpl.
  rewrite (bool_decide_eq_true_2 _ Hd). rewrite readUsage_total. reflexivity.
Qed.

(** ** C2: crypto opportunities *)

Definition spread_100_101 : Runner.CryptoSpread :=
  {| Runner.pair := str "BTC/USD";
     Runner.buyExchange := str "Kraken";
     Runner.spread_buyPrice := 100;
     Runner.spread_buyUrl := [];
     Runner.sellExchange := str "Binance";
     Runner.spread_sellPrice := 101;
     Runner.spread_sellUrl := [];
     Runner.spreadPercent := 1;
     Runner.spreadAmount := 1 |}.

(** C2, as stated, fails: for a one-dollar spread on a 100-dollar price the
    fees (10 + 10 + 500 cents) exceed the spread (100 cents), the difference
    is -420 and the opportunity reports a profit of 0. *)
Lemma crypto_profit_clamped_at_zero :
  exists o,
    In o (Runner.buildCryptoOpportunities (fun _ _ => []) [spread_100_101])
    /\ Runner.buyPrice o = 10000 /\ Runner.sellPrice o = 10100
    /\ Runner.total (Runner.fees o) = 520
    /\ Runner.estimatedProfit o = 0
    /\ Runner.estimatedProfit o
       <> Runner.sellPrice o - Runner.buyPrice o - Runner.total (Runner.fees o).
Proof.
  eexists. split; [left; reflexivity|].
  vm_compute. repeat split; try reflexivity. discriminate.
Qed.

(** C2, amended. Every opportunity built from a spread reports
    [max 0 (sellPrice - buyPrice - fees.total)] as its profit; it equals the
    difference exactly when the difference is not negative. *)
Theorem crypto_profit_is_clamped_difference (toFixed : nat -> Q -> text)
    (spreads : list Runner.CryptoSpread) (o : Runner.ParsedOpportunity) :
  In o (Runner.buildCryptoOpportunities toFixed spreads) ->
  Runner.estimatedProfit o
    = Z.max 0 (Runner.sellPrice o - Runner.buyPrice o - Runner.total (Runner.fees o))
  /\ (0 <= Runner.sellPrice o - Runner.buyPrice o - Runner.total (Runner.fees o) ->
      Runner.estimatedProfit o
      = Runner.sellPrice o - Runner.buyPrice o - Runner.total (Runner.fees o))
  /\ Runner.sellPriceType o = Filter.verified.
Proof.
  unfold Runner.buildCryptoOpportunities. rewrite in_map_iff.
  intros (spread & <- & _). simpl. unfold Math_max.
  repeat split. intros H. lia.
Qed.

Lemma crypto_profit_is_clamped_difference_witness :
  let o := Runner.cryptoOpportunity (fun _ _ => []) spread_100_101 in
  Runner.estimatedProfit o
    = Z.max 0 (Runner.sellPrice o - Runner.buyPrice o - Runner.total (Runner.fees o))
  /\ (0 <= Runner.sellPrice o - Runner.buyPrice o - Runner.total (Runner.fees o) ->
      Runner.estimatedProfit o
      = Runner.sellPrice o - Runner.buyPrice o - Runner.total (Runner.fees o))
  /\ Runner.sellPriceType o = Filter.verified.
Proof.
  apply (crypto_profit_is_clamped_difference (fun _ _ => []) [spread_100_101]).
  left. reflexivity.
Defined.

(** ** C3: the concurrency queue *)

Section QueueFacts.
Import AgentQueue.

Lemma isAgentRunning_spec (t : AgentType) (s : State) :
  isAgentRunning t s = true <-> exists id, activeRuns s !! id = Some t.
Proof.
  unfold isAgentRunning. rewrite existsb_exists. split.
  - intros ([id u] & Hin & Hu). exists id.
    apply bool_decide_eq_true in Hu. simpl in Hu. subst u.
    apply elem_of_map_to_list. apply list_elem_of_In. exact Hin.
  - intros (id & Hid). exists (id, t). split.
    + apply list_elem_of_In. apply elem_of_map_to_list. exact Hid.
    + apply bool_decide_eq_true. reflexivity.
Qed.

Lemma removeQueued_None (t : AgentType) (q : list QueuedRun) :
  removeQueued t q = None <-> (forall x, In x q -> agentType x <> t).
Proof.
  induction q as [|x q IH]; simpl.
  - split; [intros _ y []|reflexivity].
  - destruct (decide (agentType x = t)) as [Heq|Hne].
    + rewrite (bool_decide_eq_true_2 _ Heq). split; [discriminate|].
      intros H. exfalso. exact (H x (or_introl eq_refl) Heq).
    + rewrite (bool_decide_eq_false_2 _ Hne).
      destruct (removeQueued t q) as [[r q'']|].
      * split; [discriminate|]. intros H. exfalso.
        assert (Some (r, q'') = None) as Habs; [|discriminate Habs].
        apply IH. intros y Hy. apply H. right. exact Hy.
      * split; [|reflexivity]. intros _ y [<-|Hy]; [exact Hne|].
        apply IH; [reflexivity|exact Hy].
Qed.

Lemma removeQueued_Some (t : AgentType) (q : list QueuedRun)
    (r : QueuedRun) (q' : list QueuedRun) :
  removeQueued t q = Some (r, q') ->
  agentType r = t
  /\ exists pre post, q = pre ++ r :: post /\ q' = pre ++ post
                      /\ (forall x, In x pre -> agentType x <> t).
Proof.
  revert r q'. induction q as [|x q IH]; simpl; intros r q' H; [discriminate|].
  destruct (decide (agentType x = t)) as [Heq|Hne].
  - rewrite (bool_decide_eq_true_2 _ Heq) in H. injection H as <- <-.
    split; [exact Heq|]. exists [], q. repeat split. intros y [].
  - rewrite (bool_decide_eq_false_2 _ Hne) in H.
    destruct (removeQueued t q) as [[r0 q0]|] eqn:E; [|discriminate].
    injection H as <- <-.
    destruct (IH r0 q0 eq_refl) as (Ht & pre & post & -> & -> & Hpre).
    split; [exact Ht|]. exists (x :: pre), post. repeat split.
    intros y [<-|Hy]; [exact Hne|exact (Hpre y Hy)].
Qed.

(** The invariant of the module state: the cap holds, nothing waits while
    a slot is free, and no agent type occurs twice among the queued and the
    active entries. *)
Record QueueInv (s : State) : Prop := {
  inv_cap : (size (activeRuns s) <= MAX_CONCURRENT)%nat;
  inv_full : queue s <> [] -> (MAX_CONCURRENT <= size (activeRuns s))%nat;
  inv_queued_once : List.NoDup (map agentType (queue s));
  inv_queued_idle :
    forall q id, In q (queue s) -> activeRuns s !! id <> Some (agentType q);
  inv_active_once :
    forall i j t, activeRuns s !! i = Some t -> activeRuns s !! j = Some t -> i = j
}.

Lemma size_insert_le (i : nat) (t : AgentType) (m : gmap nat AgentType) :
  (size (<[i := t]> m) <= S (size m))%nat.
Proof. rewrite map_size_insert. destruct (m !! i); simpl; lia. Qed.

Lemma size_delete_le (i : nat) (m : gmap nat AgentType) :
  (size (delete i m) <= size m)%nat.
Proof. rewrite map_size_delete. destruct (m !! i); simpl; lia. Qed.

Lemma insert_active_once (i : nat) (t : AgentType) (m : gmap nat AgentType) :
  (forall id, m !! id <> Some t) ->
  (forall a b u, m !! a = Some u -> m !! b = Some u -> a = b) ->
  forall a b u, <[i := t]> m !! a = Some u -> <[i := t]> m !! b = Some u -> a = b.
Proof.
  intros Hidle Honce a b u Ha Hb.
  destruct (decide (i = a)) as [Hia|Hia]; destruct (decide (i = b)) as [Hib|Hib].
  - congruence.
  - subst a. rewrite lookup_insert_eq in Ha. rewrite lookup_insert_ne in Hb by exact Hib.
    injection Ha as <-. exfalso. exact (Hidle b Hb).
  - subst b. rewrite lookup_insert_eq in Hb. rewrite lookup_insert_ne in Ha by exact Hia.
    injection Hb as <-. exfalso. exact (Hidle a Ha).
  - rewrite lookup_insert_ne in Ha by exact Hia.
    rewrite lookup_insert_ne in Hb by exact Hib.
    exact (Honce a b u Ha Hb).
Qed.

Lemma processLoop_inv (q : list QueuedRun) (active : gmap nat AgentType)
    (counter : nat) (eff : list Effect) :
  (size active <= MAX_CONCURRENT)%nat ->
  List.NoDup (map agentType q) ->
  (forall x id, In x q -> active !! id <> Some (agentType x)) ->
  (forall a b u, active !! a = Some u -> active !! b = Some u -> a = b) ->
  QueueInv (processLoop q active counter eff).
Proof.
  revert active counter eff.
  induction q as [|next q IH]; intros active counter eff Hcap Hnd Hidle Honce; simpl.
  - constructor; simpl; auto; try congruence; try (intros x id []).
  - destruct (size active <? MAX_CONCURRENT)%nat eqn:E.
    + apply Nat.ltb_lt in E. simpl in Hnd. apply List.NoDup_cons_iff in Hnd as [Hnot Hnd].
      apply IH.
      * pose proof (size_insert_le (S counter) (agentType next) active). lia.
      * exact Hnd.
      * intros x id Hx Hid.
        destruct (decide (S counter = id)) as [Hid'|Hne].
        -- subst id. rewrite lookup_insert_eq in Hid. injection Hid as Heq.
           apply Hnot. rewrite Heq. apply in_map. exact Hx.
        -- rewrite lookup_insert_ne in Hid by exact Hne.
           exact (Hidle x id (or_intror Hx) Hid).
      * apply insert_active_once; [|exact Honce].
        intros id. apply Hidle. left. reflexivity.
    + apply Nat.ltb_ge in E. constructor; simpl; auto.
Qed.

Lemma initial_inv : QueueInv initial.
Proof.
  constructor; simpl.
  - rewrite map_size_empty. unfold MAX_CONCURRENT. lia.
  - congruence.
  - constructor.
  - intros q id [].
  - intros i j t H. rewrite lookup_empty in H. discriminate.
Qed.

Lemma finishRun_inv (runId : nat) (s : State) : QueueInv s -> QueueInv (finishRun runId s).
Proof.
  intros [Hcap Hfull Hnd Hidle Honce]. unfold finishRun, processQueue. simpl.
  apply processLoop_inv.
  - pose proof (size_delete_le runId (activeRuns s)). lia.
  - exact Hnd.
  - intros x id Hx Hid. apply lookup_delete_Some in Hid as [_ Hid].
    exact (Hidle x id Hx Hid).
  - intros a b u Ha Hb. apply lookup_delete_Some in Ha as [_ Ha].
    apply lookup_delete_Some in Hb as [_ Hb]. exact (Honce a b u Ha Hb).
Qed.

Lemma NoDup_map_remove_middle {B C : Type} (f : B -> C) (pre post : list B) (r : B) :
  List.NoDup (map f (pre ++ r :: post)) ->
  List.NoDup (map f (pre ++ post))
  /\ (forall x, In x (pre ++ post) -> f x <> f r).
Proof.
  rewrite !map_app. simpl. intros H.
  split.
  - eapply List.NoDup_remove_1. exact H.
  - apply List.NoDup_remove_2 in H. intros x Hx Heq. apply H.
    rewrite <- map_app. rewrite <- Heq. apply in_map. exact Hx.
Qed.

Lemma NoDup_snoc {B : Type} (l : list B) (x : B) :
  List.NoDup l -> ~ In x l -> List.NoDup (l ++ [x]).
Proof.
  induction l as [|y l IH]; simpl; intros Hnd Hx.
  - constructor; [intros []|constructor].
  - apply List.NoDup_cons_iff in Hnd as [Hy Hnd]. constructor.
    + rewrite in_app_iff. intros [H|[H|[]]]; [exact (Hy H)|].
      apply Hx. left. symmetry. exact H.
    + apply IH; [exact Hnd|]. intros H. apply Hx. right. exact H.
Qed.

Lemma enqueueAgentRun_inv (t : AgentType) (tk : nat) (s : State) :
  QueueInv s -> QueueInv (enqueueAgentRun t tk s).2.
Proof.
  intros Hinv. pose proof Hinv as [Hcap Hfull Hnd Hidle Honce].
  unfold enqueueAgentRun.
  destruct (isAgentRunning t s) eqn:Erun; [exact Hinv|].
  assert (Hnotrun : forall id, activeRuns s !! id <> Some t).
  { intros id Hid.
    assert (isAgentRunning t s = true) by (apply isAgentRunning_spec; eauto).
    congruence. }
  (* the queue once the stale entry is gone *)
  assert (Hq : exists q eff,
    match removeQueued t (queue s) with
    | Some (removed, q') => (q', effects s ++ [Rejected (ticket removed)])
    | None => (queue s, effects s)
    end = (q, eff)
    /\ List.NoDup (map agentType q)
    /\ (forall x, In x q -> In x (queue s) /\ agentType x <> t)
    /\ (queue s = [] -> q = [])).
  { destruct (removeQueued t (queue s)) as [[removed q']|] eqn:E.
    - apply removeQueued_Some in E as (Ht & pre & post & Hqs & -> & Hpre).
      exists (pre ++ post), (effects s ++ [Rejected (ticket removed)]).
      rewrite Hqs in Hnd. apply NoDup_map_remove_middle in Hnd as [Hnd' Hne].
      repeat split; auto.
      + rewrite Hqs. apply in_app_iff in H as [H|H]; apply in_app_iff;
          [left; exact H|right; right; exact H].
      + rewrite <- Ht. apply Hne. exact H.
      + intros Hnil. rewrite Hqs in Hnil. destruct pre; discriminate.
    - exists (queue s), (effects s). repeat split; auto.
      apply (proj1 (removeQueued_None t (queue s)) E). exact H. }
  destruct Hq as (q & eff & -> & Hnd' & Hsub & Hnil).
  destruct (size (activeRuns s) <? MAX_CONCURRENT)%nat eqn:E; simpl.
  - apply Nat.ltb_lt in E.
    assert (Hempty : queue s = []).
    { destruct (queue s) eqn:Eq; [reflexivity|].
      assert (queue s <> []) as Hne by (rewrite Eq; discriminate).
      rewrite <- Eq in *. specialize (Hfull Hne). lia. }
    rewrite (Hnil Hempty).
    constructor; simpl.
    + pose proof (size_insert_le (S (runIdCounter s)) t (activeRuns s)). lia.
    + congruence.
    + constructor.
    + intros x id [].
    + apply insert_active_once; assumption.
  - apply Nat.ltb_ge in E.
    constructor; simpl.
    + exact Hcap.
    + intros _. exact E.
    + rewrite map_app. simpl. apply NoDup_snoc; [exact Hnd'|].
      intros Hin. apply in_map_iff in Hin as (x & Heq & Hx).
      destruct (Hsub x Hx) as [_ Hne]. exact (Hne Heq).
    + intros x id Hx. apply in_app_iff in Hx as [Hx|[<-|[]]].
      * apply Hidle. apply Hsub. exact Hx.
      * simpl. apply Hnotrun.
    + exact Honce.
Qed.

Lemma step_inv (s : State) (e : Event) : QueueInv s -> QueueInv (step s e).
Proof.
  destruct e; simpl; [apply enqueueAgentRun_inv|apply finishRun_inv].
Qed.

Lemma run_inv (events : list Event) : QueueInv (run events).
Proof.
  unfold run.
  assert (H : forall s, QueueInv s -> QueueInv (fold_left step events s)).
  { induction events as [|e events IH]; intros s Hs; simpl; [exact Hs|].
    apply IH. apply step_inv. exact Hs. }
  apply H. apply initial_inv.
Qed.

Lemma filter_none {B : Type} (f : B -> bool) (l : list B) :
  (forall x, In x l -> f x = false) -> List.filter f l = [].
Proof.
  induction l as [|x l IH]; intros H; simpl; [reflexivity|].
  rewrite (H x (or_introl eq_refl)). apply IH. intros y Hy. apply H. right. exact Hy.
Qed.

(** Requeueing a type that waits in the queue, from a state that satisfies
    the invariant. *)
Lemma requeue_evicts (t : AgentType) (tk : nat) (old : QueuedRun) (s : State) :
  QueueInv s -> In old (queue s) -> agentType old = t ->
  let r := enqueueAgentRun t tk s in
  List.filter (fun q => bool_decide (agentType q = t)) (queue r.2)
    = [{| agentType := t; ticket := tk |}]
  /\ In (Rejected (ticket old)) (effects r.2)
  /\ started r.1 = Pending tk
  /\ position r.1 = Z.of_nat (length (queue s))
  /\ List.filter (fun q => negb (bool_decide (agentType q = t))) (queue r.2)
     = List.filter (fun q => negb (bool_decide (agentType q = t))) (queue s)
  /\ activeRuns r.2 = activeRuns s.
Proof.
  intros [Hcap Hfull Hnd Hidle Honce] Hold Ht. unfold enqueueAgentRun.
  assert (Erun : isAgentRunning t s = false).
  { destruct (isAgentRunning t s) eqn:E; [|reflexivity].
    apply isAgentRunning_spec in E as (id & Hid). exfalso.
    apply (Hidle old id Hold). rewrite Ht. exact Hid. }
  rewrite Erun.
  assert (Hne : queue s <> []) by (intros H; rewrite H in Hold; destruct Hold).
  specialize (Hfull Hne).
  assert (E : (size (activeRuns s) <? MAX_CONCURRENT)%nat = false)
    by (apply Nat.ltb_ge; exact Hfull).
  destruct (removeQueued t (queue s)) as [[removed q']|] eqn:Erem.
  - apply removeQueued_Some in Erem as (Htr & pre & post & Hqs & -> & Hpre).
    rewrite E. simpl.
    pose proof Hnd as Hnd0.
    rewrite Hqs in Hnd. apply NoDup_map_remove_middle in Hnd as [Hnd' Hrest].
    assert (Hremoved : removed = old).
    { rewrite Hqs in Hold. apply in_app_iff in Hold as [Hin|[Heq|Hin]].
      - exfalso. apply (Hrest old); [apply in_app_iff; left; exact Hin|congruence].
      - exact Heq.
      - exfalso. apply (Hrest old); [apply in_app_iff; right; exact Hin|congruence]. }
    subst removed.
    assert (Hnone : List.filter (fun q => bool_decide (agentType q = t)) (pre ++ post) = []).
    { apply filter_none. intros x Hx. apply bool_decide_eq_false.
      rewrite <- Ht. apply Hrest. exact Hx. }
    repeat split.
    + rewrite List.filter_app, Hnone. simpl.
      rewrite bool_decide_eq_true_2 by reflexivity. reflexivity.
    + apply in_app_iff. right. left. reflexivity.
    + rewrite Hqs. f_equal. repeat rewrite length_app. simpl. lia.
    + rewrite Hqs, !List.filter_app. simpl.
      rewrite (bool_decide_eq_true_2 _ Ht), (bool_decide_eq_true_2 (t = t) eq_refl).
      simpl. rewrite app_nil_r. reflexivity.
  - exfalso. apply (proj1 (removeQueued_None t (queue s)) Erem old Hold Ht).
Qed.

End QueueFacts.

(** C3. After any sequence of enqueue calls and run completions at most
    [MAX_CONCURRENT] = 2 runs are active; and enqueueing a type that has a
    queued entry rejects that entry and leaves the new one as the only
    queued entry of the type (the other queued entries keep their order). *)
Theorem queue_cap_and_eviction (events : list AgentQueue.Event) :
  (size (AgentQueue.activeRuns (AgentQueue.run events)) <= 2)%nat
  /\ forall (t : AgentQueue.AgentType) (tk : nat) (old : AgentQueue.QueuedRun),
       In old (AgentQueue.queue (AgentQueue.run events)) ->
       AgentQueue.agentType old = t ->
       let r := AgentQueue.enqueueAgentRun t tk (AgentQueue.run events) in
       List.filter (fun q => bool_decide (AgentQueue.agentType q = t))
         (AgentQueue.queue r.2)
         = [{| AgentQueue.agentType := t; AgentQueue.ticket := tk |}]
       /\ In (AgentQueue.Rejected (AgentQueue.ticket old)) (AgentQueue.effects r.2)
       /\ AgentQueue.started r.1 = AgentQueue.Pending tk
       /\ (size (AgentQueue.activeRuns r.2) <= 2)%nat.
Proof.
  pose proof (run_inv events) as Hinv. split.
  - exact (inv_cap _ Hinv).
  - intros t tk old Hold Ht r.
    destruct (requeue_evicts t tk old _ Hinv Hold Ht) as (H1 & H2 & H3 & _ & _ & H6).
    repeat split; try assumption.
    fold r in H6. rewrite H6. exact (inv_cap _ Hinv).
Qed.

Definition sample_events : list AgentQueue.Event :=
  [AgentQueue.Enqueue AgentQueue.retail 1; AgentQueue.Enqueue AgentQueue.books 2;
   AgentQueue.Enqueue AgentQueue.crypto 3].

Lemma queue_cap_and_eviction_witness :
  (size (AgentQueue.activeRuns (AgentQueue.run sample_events)) <= 2)%nat
  /\ let r := AgentQueue.enqueueAgentRun AgentQueue.crypto 4 (AgentQueue.run sample_events) in
     List.filter (fun q => bool_decide (AgentQueue.agentType q = AgentQueue.crypto))
       (AgentQueue.queue r.2)
       = [{| AgentQueue.agentType := AgentQueue.crypto; AgentQueue.ticket := 4%nat |}]
     /\ In (AgentQueue.Rejected 3) (AgentQueue.effects r.2)
     /\ AgentQueue.started r.1 = AgentQueue.Pending 4
     /\ (size (AgentQueue.activeRuns r.2) <= 2)%nat.
Proof.
  split.
  - exact (proj1 (queue_cap_and_eviction sample_events)).
  - apply (proj2 (queue_cap_and_eviction sample_events) AgentQueue.crypto 4%nat
             {| AgentQueue.agentType := AgentQueue.crypto; AgentQueue.ticket := 3%nat |}).
    + vm_compute. left. reflexivity.
    + reflexivity.
Defined.

(** ** C1: the spread qualification invariant *)

Section FilterFacts.
Import Filter.
Variables cleanTitleForSearch encodeURIComponent : text -> text.

(** What the resale path guarantees of a lead, against its two thresholds. *)
Definition resale_qualified (minProfitCents : Z) (minSpreadPercent : Q)
    (L : QualifiedLead) : Prop :=
  estimatedSpread L = sellPriceEstimate L - buyPrice L
  /\ minProfitCents <= estimatedSpread L
  /\ (minSpreadPercent <= spreadPercent L)%Q.

(** What the deal-feed path guarantees, against its one threshold. *)
Definition deal_qualified (minDiscountPercent : Q) (L : QualifiedLead) : Prop :=
  estimatedSpread L = sellPriceEstimate L - buyPrice L
  /\ 0 < estimatedSpread L
  /\ (minDiscountPercent <= spreadPercent L)%Q.

Lemma Qltb_false (a b : Q) : Qltb a b = false -> (b <= a)%Q.
Proof.
  unfold Qltb. intros H. apply negb_false_iff in H. apply Qle_bool_iff. exact H.
Qed.

Lemma Qgeb_true (a b : Q) : Qgeb a b = true -> (b <= a)%Q.
Proof. unfold Qgeb. apply Qle_bool_iff. Qed.

Lemma In_take {B : Type} (n : nat) (l : list B) (x : B) : In x (take n l) -> In x l.
Proof.
  intros H. rewrite <- (firstn_skipn n l). apply in_app_iff. left. exact H.
Qed.

Lemma In_omap {B C : Type} (f : B -> option C) (l : list B) (y : C) :
  In y (omap f l) -> exists x, In x l /\ f x = Some y.
Proof.
  induction l as [|x l IH]; simpl; [intros []|].
  destruct (f x) as [z|] eqn:E.
  - intros [<-|H]; [exists x; auto|].
    destruct (IH H) as (x' & Hx' & Hf). exists x'. auto.
  - intros H. destruct (IH H) as (x' & Hx' & Hf). exists x'. auto.
Qed.

(** *** The resale path *)

Lemma filterLeadStep_inv (data : gmap text ResalePriceInfo) (mp : Z) (ms : Q)
    (acc : list QualifiedLead * list QualifiedLead) (lead : ScoutLead) :
  Forall (fun L => resale_qualified mp ms L
                   /\ sellPriceType L <> Some research_needed) acc.1 ->
  Forall (fun L => sellPriceType L = Some research_needed) acc.2 ->
  let acc' := filterLeadStep cleanTitleForSearch encodeURIComponent data mp ms acc lead in
  Forall (fun L => resale_qualified mp ms L
                   /\ sellPriceType L <> Some research_needed) acc'.1
  /\ Forall (fun L => sellPriceType L = Some research_needed) acc'.2.
Proof.
  destruct acc as [qualified unresearched]. simpl. intros Hq Hu.
  unfold filterLeadStep.
  destruct (priceFound lead) as [price|]; [|split; assumption].
  destruct (price <=? 0); [split; assumption|].
  destruct (lookupResale data lead) as [resale|]; [|split; assumption].
  destruct ((estimatedPrice resale =? 0) || is_research_needed (priceType resale)) eqn:E.
  - simpl. split; [assumption|].
    apply Forall_app. split; [assumption|]. constructor; [reflexivity|constructor].
  - apply orb_false_iff in E as [_ Eres].
    destruct (estimatedPrice resale - price <? mp) eqn:Ep; [split; assumption|].
    destruct (Qltb (percent (estimatedPrice resale - price) price) ms) eqn:Es;
      [split; assumption|].
    simpl. split; [|assumption].
    apply Forall_app. split; [assumption|]. constructor; [|constructor].
    split.
    + repeat split; simpl.
      * apply Z.ltb_ge. exact Ep.
      * apply Qltb_false. exact Es.
    + simpl. intros H. rewrite H in Eres. discriminate.
Qed.

Lemma filterLeads_fold_inv (data : gmap text ResalePriceInfo) (mp : Z) (ms : Q)
    (leads : list ScoutLead) (acc : list QualifiedLead * list QualifiedLead) :
  Forall (fun L => resale_qualified mp ms L
                   /\ sellPriceType L <> Some research_needed) acc.1 ->
  Forall (fun L => sellPriceType L = Some research_needed) acc.2 ->
  let acc' := fold_left (filterLeadStep cleanTitleForSearch encodeURIComponent data mp ms)
                leads acc in
  Forall (fun L => resale_qualified mp ms L
                   /\ sellPriceType L <> Some research_needed) acc'.1
  /\ Forall (fun L => sellPriceType L = Some research_needed) acc'.2.
Proof.
  revert acc. induction leads as [|lead leads IH]; intros acc Hq Hu; simpl.
  - split; assumption.
  - destruct (filterLeadStep_inv data mp ms acc lead Hq Hu) as [Hq' Hu'].
    apply IH; assumption.
Qed.

Lemma filterLeadsWithPriceData_qualified (leads : list ScoutLead)
    (data : gmap text ResalePriceInfo) (mp : Z) (ms : Q) (L : QualifiedLead) :
  In L (filterLeadsWithPriceData cleanTitleForSearch encodeURIComponent leads data mp ms) ->
  sellPriceType L <> Some research_needed ->
  resale_qualified mp ms L.
Proof.
  unfold filterLeadsWithPriceData.
  pose proof (filterLeads_fold_inv data mp ms leads ([], [])
                (List.Forall_nil _) (List.Forall_nil _)) as H.
  simpl in H.
  destruct (fold_left _ leads ([], [])) as [qualified unresearched].
  destruct H as [Hq Hu]. simpl in *.
  intros Hin Hne. apply in_app_iff in Hin as [Hin|Hin].
  - apply Array_sort_In in Hin.
    rewrite List.Forall_forall in Hq. exact (proj1 (Hq L Hin)).
  - apply In_take in Hin. rewrite List.Forall_forall in Hu.
    exfalso. exact (Hne (Hu L Hin)).
Qed.

Lemma filterLeadStep_rev0_inv (data : gmap text ResalePriceInfo) (mp : Z) (ms : Q)
    (leads : list ScoutLead) (qualified : list QualifiedLead) :
  Forall (resale_qualified mp ms) qualified ->
  Forall (resale_qualified mp ms)
    (fold_left (Rev0.filterLeadStep cleanTitleForSearch encodeURIComponent data mp ms)
       leads qualified).
Proof.
  revert qualified. induction leads as [|lead leads IH]; intros qualified Hq; simpl.
  - exact Hq.
  - apply IH. unfold Rev0.filterLeadStep.
    destruct (priceFound lead) as [price|]; [|assumption].
    destruct (price <=? 0); [assumption|].
    destruct (lookupResale data lead) as [resale|]; [|assumption].
    destruct (estimatedPrice resale =? 0); [assumption|].
    destruct (estimatedPrice resale - price <? mp) eqn:Ep; [assumption|].
    destruct (Qltb (percent (estimatedPrice resale - price) price) ms) eqn:Es;
      [assumption|].
    apply Forall_app. split; [assumption|]. constructor; [|constructor].
    repeat split; simpl.
    + apply Z.ltb_ge. exact Ep.
    + apply Qltb_false. exact Es.
Qed.

Lemma filterLeadsWithPriceData_rev0_qualified (leads : list ScoutLead)
    (data : gmap text ResalePriceInfo) (mp : Z) (ms : Q) (L : QualifiedLead) :
  In L (Rev0.filterLeadsWithPriceData cleanTitleForSearch encodeURIComponent
          leads data mp ms) ->
  resale_qualified mp ms L.
Proof.
  unfold Rev0.filterLeadsWithPriceData. intros Hin. apply Array_sort_In in Hin.
  pose proof (filterLeadStep_rev0_inv data mp ms leads [] (List.Forall_nil _)) as H.
  rewrite List.Forall_forall in H. exact (H L Hin).
Qed.

(** *** The deal-feed path *)

Lemma tryPattern_ordered (pattern : regex) (i j : nat) (t : text) (p : PricePair) :
  tryPattern pattern i j t = Some p -> 0 < dealPrice p /\ dealPrice p < regularPrice p.
Proof.
  unfold tryPattern. destruct (search pattern t) as [m|]; [|discriminate].
  destruct ((0 <? parseDollar (default [] (cap i m)))
            && (parseDollar (default [] (cap i m))
                <? parseDollar (default [] (cap j m)))) eqn:E; [|discriminate].
  intros H. injection H as <-. simpl.
  apply andb_true_iff in E as [E1 E2].
  apply Z.ltb_lt in E1. apply Z.ltb_lt in E2. split; assumption.
Qed.

Lemma extractDealPricePair_ordered (t : text) (p : PricePair) :
  extractDealPricePair t = Some p -> 0 < dealPrice p /\ dealPrice p < regularPrice p.
Proof.
  unfold extractDealPricePair.
  destruct (tryPattern pctOffPattern 1 2 t) eqn:E1;
    [intros H; injection H as <-; exact (tryPattern_ordered _ _ _ _ _ E1)|].
  destruct (tryPattern wasPattern 1 2 t) eqn:E2;
    [intros H; injection H as <-; exact (tryPattern_ordered _ _ _ _ _ E2)|].
  destruct (tryPattern wasNowPattern 2 1 t) eqn:E3;
    [intros H; injection H as <-; exact (tryPattern_ordered _ _ _ _ _ E3)|].
  apply tryPattern_ordered.
Qed.

Lemma titlePricePair_ordered (item : DealFeedItem) (p : PricePair) :
  titlePricePair item = Some p -> 0 < dealPrice p /\ dealPrice p < regularPrice p.
Proof.
  unfold titlePricePair.
  destruct (extractDealPricePair (item_title item)) eqn:E;
    [intros H; injection H as <-; exact (extractDealPricePair_ordered _ _ E)|].
  apply extractDealPricePair_ordered.
Qed.

Lemma dealLead_qualified (item : DealFeedItem) (deal regular : Z) (pct m : Q)
    (conf : Confidence) (spt : option SellPriceType) :
  deal < regular -> (m <= pct)%Q ->
  deal_qualified m
    (dealLead cleanTitleForSearch encodeURIComponent item deal regular pct conf spt).
Proof. intros Hlt Hpct. repeat split; simpl; [lia|exact Hpct]. Qed.

Lemma dealFromPair_qualified (item : DealFeedItem) (m : Q)
    (spt : option SellPriceType) (p : PricePair) (L : QualifiedLead) :
  dealPrice p < regularPrice p ->
  dealFromPair cleanTitleForSearch encodeURIComponent item m spt p = Some L ->
  deal_qualified m L /\ sellPriceType L = spt.
Proof.
  unfold dealFromPair. intros Hlt.
  destruct (Qgeb (percent (regularPrice p - dealPrice p) (regularPrice p)) m) eqn:E;
    [|discriminate].
  intros H. injection H as <-. split; [|reflexivity].
  apply dealLead_qualified; [exact Hlt|apply Qgeb_true; exact E].
Qed.

Lemma dealFallback1_qualified (item : DealFeedItem) (m : Q)
    (spt : option SellPriceType) (next : option QualifiedLead) (L : QualifiedLead) :
  dealFallback1 cleanTitleForSearch encodeURIComponent item m spt next = Some L ->
  (deal_qualified m L /\ sellPriceType L = spt) \/ next = Some L.
Proof.
  unfold dealFallback1.
  destruct (length (extractAllPrices (item_title item)) =? 2)%nat; [|auto].
  set (sorted := Array_sort (fun a b => a - b) (extractAllPrices (item_title item))).
  destruct ((nth 0 sorted 0 <? nth 1 sorted 0) && (0 <? nth 0 sorted 0)) eqn:E; [|auto].
  destruct (Qgeb (percent (nth 1 sorted 0 - nth 0 sorted 0) (nth 1 sorted 0)) m) eqn:Eq;
    [|auto].
  intros H. injection H as <-. left. split; [|reflexivity].
  apply andb_true_iff in E as [E1 _]. apply Z.ltb_lt in E1.
  apply dealLead_qualified; [exact E1|apply Qgeb_true; exact Eq].
Qed.

Lemma dealFallback3_qualified (item : DealFeedItem) (m : Q) (L : QualifiedLead) :
  dealFallback3 cleanTitleForSearch encodeURIComponent item m = Some L ->
  deal_qualified m L /\ sellPriceType L = Some estimated.
Proof.
  unfold dealFallback3.
  destruct (extractAllPrices (item_title item)) as [|deal rest]; [discriminate|].
  destruct (2 <=? length (extractAllPrices (fullText item)))%nat; [|discriminate].
  set (others := List.filter (fun p => negb (p =? deal) && (deal <? p))
                   (extractAllPrices (fullText item))).
  destruct others as [|o others'] eqn:Eo; [discriminate|].
  rewrite <- Eo.
  set (sorted := Array_sort (fun a b => a - b) others).
  set (regular := nth (length sorted / 2) sorted 0).
  destruct (Qgeb (percent (regular - deal) regular) m && (0 <? deal)) eqn:E; [|discriminate].
  intros H. injection H as <-. split; [|reflexivity].
  apply andb_true_iff in E as [E1 _].
  apply dealLead_qualified; [|apply Qgeb_true; exact E1].
  assert (Hin : In regular others).
  { apply (Array_sort_In (fun a b => a - b)). fold sorted. unfold regular.
    apply nth_In.
    assert (Hlen : length sorted = length others) by apply Array_sort_length.
    assert (0 < length others)%nat by (rewrite Eo; simpl; lia).
    apply Nat.div_lt; lia. }
  unfold others in Hin. apply filter_In in Hin as [_ Hc].
  apply andb_true_iff in Hc as [_ Hc]. apply Z.ltb_lt. exact Hc.
Qed.

Lemma dealFallback2_qualified (item : DealFeedItem) (m : Q) (L : QualifiedLead) :
  dealFallback2 cleanTitleForSearch encodeURIComponent item m = Some L ->
  deal_qualified m L /\ sellPriceType L = Some estimated.
Proof.
  unfold dealFallback2.
  destruct (search pctPattern (fullText item)) as [caps|];
    [|apply dealFallback3_qualified].
  destruct (extractAllPrices (item_title item)) as [|deal [|second rest]];
    try apply dealFallback3_qualified.
  destruct (Qgeb (inject_Z (digits_val (default [] (cap 1 caps)))) m
            && (digits_val (default [] (cap 1 caps)) <? 95)) eqn:E;
    [|apply dealFallback3_qualified].
  match goal with
  | |- context [if ?c then _ else _] => destruct c eqn:Ec
  end; [|apply dealFallback3_qualified].
  intros H. injection H as <-. split; [|reflexivity].
  apply andb_true_iff in E as [E1 _]. apply andb_true_iff in Ec as [Ec _].
  apply Z.ltb_lt in Ec.
  apply dealLead_qualified; [exact Ec|apply Qgeb_true; exact E1].
Qed.

Lemma dealFeedLead_qualified (m : Q) (item : DealFeedItem) (L : QualifiedLead) :
  dealFeedLead cleanTitleForSearch encodeURIComponent m item = Some L ->
  deal_qualified m L /\ sellPriceType L = Some estimated.
Proof.
  unfold dealFeedLead. destruct (titlePricePair item) as [p|] eqn:E.
  - intros H. eapply dealFromPair_qualified; [|exact H].
    exact (proj2 (titlePricePair_ordered item p E)).
  - intros H. destruct (dealFallback1_qualified _ _ _ _ _ H) as [H'|H']; [exact H'|].
    exact (dealFallback2_qualified _ _ _ H').
Qed.

Lemma dealFeedLead_rev0_qualified (m : Q) (item : DealFeedItem) (L : QualifiedLead) :
  Rev0.dealFeedLead cleanTitleForSearch encodeURIComponent m item = Some L ->
  deal_qualified m L /\ sellPriceType L = None.
Proof.
  unfold Rev0.dealFeedLead. destruct (titlePricePair item) as [p|] eqn:E.
  - intros H. eapply dealFromPair_qualified; [|exact H].
    exact (proj2 (titlePricePair_ordered item p E)).
  - intros H. destruct (dealFallback1_qualified _ _ _ _ _ H) as [H'|H'];
      [exact H'|discriminate].
Qed.

End FilterFacts.

Definition penny_deal : DealFeedItem :=
  {| item_title := str "Widget $1.00 (was $2.00)";
     item_url := str "https://slickdeals.net/f/1";
     item_description := [];
     item_source := str "Slickdeals";
     pubDate := [] |}.

(** C1, as stated, fails on the deal-feed path: the retail agent is
    configured with [minProfitCents] = 1000, it runs the deal feed through
    [filterDealFeedItems(items, 25)], and a deal of $1.00 against a regular
    price of $2.00 (a 50% discount) comes out as a qualified lead with an
    estimated spread of 100 cents. Both revisions of the filter agree. *)
Lemma deal_feed_lead_below_minProfitCents :
  let agentConfig := Runner.getScoutConfig (fun _ => []) AgentQueue.retail None None in
  Runner.minProfitCents agentConfig = 1000
  /\ (exists L,
        In L (Runner.dealLeadsOf (fun t => t) (fun t => t) agentConfig [penny_deal])
        /\ Filter.sellPriceType L = Some Filter.estimated
        /\ Filter.buyPrice L = 100 /\ Filter.sellPriceEstimate L = 200
        /\ Filter.estimatedSpread L = 100
        /\ ~ Runner.minProfitCents agentConfig <= Filter.estimatedSpread L)
  /\ (exists L,
        In L (Filter.Rev0.filterDealFeedItems (fun t => t) (fun t => t) [penny_deal] 25)
        /\ Filter.sellPriceType L = None
        /\ Filter.estimatedSpread L = 100).
Proof.
  split; [reflexivity|]. split.
  - eexists. split; [vm_compute; left; reflexivity|].
    simpl. repeat split; try reflexivity. vm_compute. intros H. apply H. reflexivity.
  - eexists. split; [vm_compute; left; reflexivity|].
    simpl. repeat split; reflexivity.
Qed.

(** C1, amended. A lead of [filterLeadsWithPriceData] whose sell price is
    not [research_needed] has [estimatedSpread = sellPriceEstimate - buyPrice],
    a spread of at least [minProfitCents] and a spread percentage of at least
    [minSpreadPercent]. A lead of [filterDealFeedItems] has
    [estimatedSpread = sellPriceEstimate - buyPrice], a positive spread, and a
    spread percentage of at least [minDiscountPercent], the only threshold
    that path takes. Both revisions of the two functions. *)
Theorem spread_qualification (cleanTitleForSearch encodeURIComponent : text -> text)
    (L : Filter.QualifiedLead) :
  (forall leads data minProfitCents minSpreadPercent,
     In L (Filter.filterLeadsWithPriceData cleanTitleForSearch encodeURIComponent
             leads data minProfitCents minSpreadPercent)
     \/ In L (Filter.Rev0.filterLeadsWithPriceData cleanTitleForSearch encodeURIComponent
                leads data minProfitCents minSpreadPercent) ->
     Filter.sellPriceType L <> Some Filter.research_needed ->
     resale_qualified minProfitCents minSpreadPercent L)
  /\ (forall items minDiscountPercent,
        In L (Filter.filterDealFeedItems cleanTitleForSearch encodeURIComponent
                items minDiscountPercent)
        \/ In L (Filter.Rev0.filterDealFeedItems cleanTitleForSearch encodeURIComponent
                   items minDiscountPercent) ->
        deal_qualified minDiscountPercent L
        /\ Filter.sellPriceType L <> Some Filter.research_needed).
Proof.
  split.
  - intros leads data mp ms [Hin|Hin] Hne.
    + eapply filterLeadsWithPriceData_qualified; eassumption.
    + eapply filterLeadsWithPriceData_rev0_qualified; eassumption.
  - intros items m [Hin|Hin].
    + unfold Filter.filterDealFeedItems in Hin. apply Array_sort_In in Hin.
      apply In_omap in Hin as (item & _ & Hitem).
      apply dealFeedLead_qualified in Hitem as [Hq Hs]. split; [exact Hq|].
      rewrite Hs. discriminate.
    + unfold Filter.Rev0.filterDealFeedItems in Hin. apply Array_sort_In in Hin.
      apply In_omap in Hin as (item & _ & Hitem).
      apply dealFeedLead_rev0_qualified in Hitem as [Hq Hs]. split; [exact Hq|].
      rewrite Hs. discriminate.
Qed.

Definition sample_lead : ScoutLead :=
  {| lead_title := str "Dyson V8 Absolute";
     lead_url := str "https://sfbay.craigslist.org/sfc/ele/d/dyson/7712345678.html";
     lead_snippet := str "Dyson V8 Absolute, works great";
     lead_source := str "craigslist-sfbay";
     priceFound := Some 10000;
     lead_category := str "electronics" |}.

Definition sample_resale : Filter.ResalePriceInfo :=
  {| Filter.estimatedPrice := 18900;
     Filter.platform := str "eBay";
     Filter.url := str "https://www.ebay.com/itm/12345";
     Filter.dataPoints := 3;
     Filter.listingDataPoints := Some 2;
     Filter.priceType := Some Filter.verified |}.

Lemma spread_qualification_witness :
  resale_qualified 1000 15
    (Filter.resaleLead (fun t => t) (fun t => t) sample_lead 10000 sample_resale
       8900 (Filter.percent 8900 10000) (Some Filter.verified))
  /\ deal_qualified 25
       (Filter.dealLead (fun t => t) (fun t => t) penny_deal 100 200
          (Filter.percent 100 200) Filter.medium (Some Filter.estimated)).
Proof.
  split.
  - apply (proj1 (spread_qualification (fun t => t) (fun t => t) _)
             [sample_lead] {[ lead_url sample_lead := sample_resale ]} 1000 15%Q).
    + left. vm_compute. left. reflexivity.
    + discriminate.
  - apply (proj2 (spread_qualification (fun t => t) (fun t => t) _) [penny_deal] 25%Q).
    left. vm_compute. left. reflexivity.
Defined.

(** ** C6: a run without qualified leads *)

Section RunFacts.
Import Runner.
Variable JSON_parse : text -> option Json.
Variable callClaude : ClaudeRequest -> Outcome ClaudeResponse.
Variable searchSoldPrices : text -> Outcome text.
Variable snipeMessage : list Filter.QualifiedLead -> nat -> text.
Variables (today now : text).
Variable config : ScoutSnipeConfig.
Variable agentConfig : AgentScoutConfig.

Local Abbreviation loop :=
  (snipeLoop callClaude searchSoldPrices today now config agentConfig).
Local Abbreviation phase :=
  (snipePhase callClaude searchSoldPrices snipeMessage today now config agentConfig).
Local Abbreviation run :=
  (runScoutThenSnipe JSON_parse callClaude searchSoldPrices snipeMessage
     today now config agentConfig).



(** *** The tool-use loop *)

Lemma executeTool_fold (blocks : list ClaudeContentBlock)
    (acc : nat * list ClaudeContentBlock * list text) :
  (fold_left (executeTool searchSoldPrices) blocks acc).1.1
    = (acc.1.1 + length blocks)%nat
  /\ (fold_left (executeTool searchSoldPrices) blocks acc).2
     = acc.2 ++ map productNameOf blocks.
Proof.
  revert acc. induction blocks as [|b blocks IH]; intros [[used results] searched]; simpl.
  - rewrite Nat.add_0_r, app_nil_r. split; reflexivity.
  - destruct (IH (S used,
                  results ++ [{| block_type := tool_result; block_text := None;
                                 block_id := None; block_name := None;
                                 block_input := None; tool_use_id := block_id b;
                                 block_content :=
                                   Some match searchSoldPrices (productNameOf b) with
                                        | Returned t => t
                                        | Thrown _ => str "Error: search failed"
                                        end |}],
                  searched ++ [productNameOf b])) as [H1 H2].
    simpl in H1, H2. split.
    + rewrite H1. lia.
    + rewrite H2, <- app_assoc. reflexivity.
Qed.

(** The loop always leaves by [break] or by an exception: with six
    iterations ahead and every tool round using at least one tool call, the
    sixth call to the model finds the cap reached. *)
Lemma snipeLoop_breaks (snipeTools : option (list ClaudeTool)) (iterations : nat)
    (st : LoopState) :
  (1 <= iterations)%nat -> (maxToolCalls + 1 <= iterations + toolCallsUsed st)%nat ->
  (exists r st', loop snipeTools iterations st = Final (Some r) st')
  \/ (exists e st', loop snipeTools iterations st = Failed e st').
Proof.
  revert st. induction iterations as [|n IH]; intros st H1 H2; [lia|].
  cbn [snipeLoop].
  destruct (callClaude _) as [response|e]; [|right; eexists _, _; reflexivity].
  destruct ((length (List.filter isToolUse (response_content response)) =? 0)%nat
            || (maxToolCalls <=? toolCallsUsed st)%nat) eqn:E;
    [left; eexists _, _; reflexivity|].
  apply orb_false_iff in E as [E1 E2].
  apply Nat.eqb_neq in E1. apply Nat.leb_gt in E2.
  match goal with
  | |- context [fold_left (executeTool searchSoldPrices) ?bs ?acc] =>
      pose proof (proj1 (executeTool_fold bs acc)) as Hused;
      destruct (fold_left (executeTool searchSoldPrices) bs acc) as [[used results] searched]
  end.
  simpl in Hused.
  apply IH; simpl; unfold maxToolCalls in *; lia.
Qed.

(** The state in which the loop is left. *)
Definition exitState (e : LoopExit) : LoopState :=
  match e with
  | Final _ st => st
  | Failed _ st => st
  end.

(** The loop calls the model at most once per iteration: at most six times. *)
Lemma snipeLoop_calls (snipeTools : option (list ClaudeTool)) (iterations : nat)
    (st : LoopState) :
  (length (claudeCalls (loop_world (exitState (loop snipeTools iterations st))))
   <= length (claudeCalls (loop_world st)) + iterations)%nat.
Proof.
  revert st. induction iterations as [|n IH]; intros st; [simpl; lia|].
  cbn [snipeLoop].
  destruct (callClaude _) as [response|e];
    [|simpl; rewrite length_app; simpl; lia].
  destruct ((length (List.filter isToolUse (response_content response)) =? 0)%nat
            || (maxToolCalls <=? toolCallsUsed st)%nat);
    [simpl; rewrite length_app; simpl; lia|].
  match goal with
  | |- context [fold_left (executeTool searchSoldPrices) ?bs ?acc] =>
      destruct (fold_left (executeTool searchSoldPrices) bs acc) as [[used results] searched]
  end.
  etransitivity; [apply IH|]. simpl. rewrite length_app. simpl. lia.
Qed.

(** The cap is tested once per answer of the model, before its tool
    requests are carried out: when no answer asks for more than [k] tools,
    at most [4 + k] tool calls are made. *)
Lemma snipeLoop_tool_calls (k : nat) (snipeTools : option (list ClaudeTool))
    (iterations : nat) (st : LoopState) :
  (forall request response, callClaude request = Returned response ->
     (length (List.filter isToolUse (response_content response)) <= k)%nat) ->
  (toolCallsUsed st <= 4 + k)%nat ->
  (toolCallsUsed (exitState (loop snipeTools iterations st)) <= 4 + k)%nat.
Proof.
  intros Hk. revert st. induction iterations as [|n IH]; intros st Hst; [exact Hst|].
  cbn [snipeLoop].
  destruct (callClaude _) as [response|e] eqn:Ecall; [|exact Hst].
  destruct ((length (List.filter isToolUse (response_content response)) =? 0)%nat
            || (maxToolCalls <=? toolCallsUsed st)%nat) eqn:E; [exact Hst|].
  apply orb_false_iff in E as [_ E2]. apply Nat.leb_gt in E2.
  match goal with
  | |- context [fold_left (executeTool searchSoldPrices) ?bs ?acc] =>
      pose proof (proj1 (executeTool_fold bs acc)) as Hused;
      destruct (fold_left (executeTool searchSoldPrices) bs acc) as [[used results] searched]
  end.
  simpl in Hused. apply IH. simpl.
  specialize (Hk _ _ Ecall). unfold maxToolCalls in *. lia.
Qed.

(** *** The run *)


Lemma run_with_final_response (scout : ScoutPhase) (w : World)
    (r : ClaudeResponse) (st : LoopState) :
  allQualified scout <> [] ->
  Budget.allowed (Budget.checkBudget today (Budget.loadBudgetConfig (files w)) (files w))
    = true ->
  phase (allQualified scout) w = Final (Some r) st ->
  success (run scout w).1 = true
  /\ opportunities (run scout w).1 = parseOpportunities JSON_parse r
  /\ error (run scout w).1 = None
  /\ abortReason (run scout w).1 = None.
Proof.
  intros Hne Hallowed Hphase. unfold runScoutThenSnipe.
  destruct (allQualified scout) as [|q qs] eqn:Eq; [congruence|].
  rewrite Hallowed. simpl negb. cbv iota. rewrite Hphase. simpl. auto.
Qed.

End RunFacts.

Definition empty_world : Runner.World :=
  {| Runner.files := {| Budget.usageFile := None; Budget.configFile := None |};
     Runner.claudeCalls := [];
     Runner.searches := [] |}.

Definition retail_run : Runner.ScoutSnipeConfig :=
  {| Runner.agentType := AgentQueue.retail; Runner.apiKey := []; Runner.tavilyApiKey := [] |}.

Definition retail_config : Runner.AgentScoutConfig :=
  Runner.getScoutConfig (fun _ => str "You are the Retail Agent for Airbitrage.")
    AgentQueue.retail None None.

(** A scout phase that found one lead without a price and qualified none. *)
Definition scout_nothing_qualified : Runner.ScoutPhase :=
  {| Runner.allLeads := [ {| lead_title := str "Dyson V8"; lead_url := [];
                             lead_snippet := []; lead_source := str "tavily";
                             priceFound := None; lead_category := [] |} ];
     Runner.bookLeads := [];
     Runner.qualifiedLeads := [];
     Runner.dealLeads := [];
     Runner.bookQualifiedLeads := [];
     Runner.collectiblesDirectLeads := [];
     Runner.sourcesChecked := [str "Slickdeals"; str "Tavily Search"];
     Runner.allDiagnostics :=
       [ {| diag_source := str "DealNews"; diag_status := st_error;
            diag_error := Some (str "HTTP 503") |} ] |}.

(** A scout phase whose one qualified lead is the penny deal, with an
    estimated sell price. *)
Definition scout_one_estimated : Runner.ScoutPhase :=
  {| Runner.allLeads := [];
     Runner.bookLeads := [];
     Runner.qualifiedLeads := [];
     Runner.dealLeads :=
       [Filter.dealLead (fun t => t) (fun t => t) penny_deal 100 200
          (Filter.percent 100 200) Filter.medium (Some Filter.estimated)];
     Runner.bookQualifiedLeads := [];
     Runner.collectiblesDirectLeads := [];
     Runner.sourcesChecked := [str "Slickdeals"];
     Runner.allDiagnostics := [] |}.

Definition text_answer (t : string) : Runner.ClaudeResponse :=
  {| Runner.response_content :=
       [ {| Runner.block_type := Runner.text_block; Runner.block_text := Some (str t);
            Runner.block_id := None; Runner.block_name := None;
            Runner.block_input := None; Runner.tool_use_id := None;
            Runner.block_content := None |} ];
     Runner.usage := {| Runner.input_tokens := 900; Runner.output_tokens := 100 |} |}.

Definition tool_request (id product : string) : Runner.ClaudeContentBlock :=
  {| Runner.block_type := Runner.tool_use; Runner.block_text := None;
     Runner.block_id := Some (str id);
     Runner.block_name := Some (str "search_sold_prices");
     Runner.block_input := Some {| Runner.product_name := Some (str product) |};
     Runner.tool_use_id := None; Runner.block_content := None |}.

(** A model that asks for six sold-price searches in its first answer and
    gives its verdict in the second. *)
Definition six_requests_then_verdict (request : Runner.ClaudeRequest)
    : Runner.Outcome Runner.ClaudeResponse :=
  if (length (Runner.messages request) =? 1)%nat then
    Runner.Returned
      {| Runner.response_content :=
           [tool_request "t1" "Widget"; tool_request "t2" "Widget A";
            tool_request "t3" "Widget B"; tool_request "t4" "Widget C";
            tool_request "t5" "Widget D"; tool_request "t6" "Widget E"];
         Runner.usage := {| Runner.input_tokens := 900; Runner.output_tokens := 100 |} |}
  else Runner.Returned (text_answer "<opportunities>[]</opportunities>").

(** A model that answers in prose, with no opportunities block. *)
Definition prose_only (request : Runner.ClaudeRequest)
    : Runner.Outcome Runner.ClaudeResponse :=
  Runner.Returned (text_answer "None of the leads is a real opportunity.").

Definition search_finds_nothing (product : text) : Runner.Outcome text :=
  Runner.Returned (str "No eBay sold listings found.").



Example zero_qualified_leads_reasoning :
  Runner.result_reasoning
    (Runner.runScoutThenSnipe (fun _ => None) prose_only search_finds_nothing
       (fun _ _ => []) (str "2026-03-01") (str "2026-03-01T10:00:00.000Z")
       retail_run retail_config scout_nothing_qualified empty_world).1
  = str "Scouted 1 leads across Slickdeals, Tavily Search. No leads passed the minimum profit threshold of $10. Source issues: DealNews: error (HTTP 503)".
Proof. vm_compute. reflexivity. Qed.

(** ** C5: the tool-use loop *)

(** C5 fails on the code: the cap of five is compared with the number of
    tool calls made before an answer, and every tool request of an answer
    is then carried out. A first answer with six requests leads to six
    sold-price searches; the second call to the model ends the loop. *)
Theorem six_tool_requests_in_one_answer :
  let result := Runner.runScoutThenSnipe (fun _ => None) six_requests_then_verdict
                  search_finds_nothing (fun _ _ => []) (str "2026-03-01")
                  (str "2026-03-01T10:00:00.000Z")
                  retail_run retail_config scout_one_estimated empty_world in
  Runner.success result.1 = true
  /\ length (Runner.claudeCalls result.2) = 2%nat
  /\ length (Runner.searches result.2) = 6%nat
  /\ Runner.totalToolCalls result.1 = 7%nat
  /\ (Runner.maxToolCalls < length (Runner.searches result.2))%nat.
Proof. vm_compute. repeat split. apply le_n. Qed.

(** ** Facts about the regular-expression matcher *)

Section RegexFacts.
Context {A : Type}.

Lemma star_loop_suffix (step : text -> captures -> @cont A -> option A)
    (g : bool) (k : @cont A) :
  (forall s caps k' v, step s caps k' = Some v ->
     exists p s' caps', s = p ++ s' /\ k' s' caps' = Some v) ->
  forall (n : nat) (s : text) (caps : captures) (v : A),
    star_loop step g k n s caps = Some v ->
    exists p s' caps', s = p ++ s' /\ k s' caps' = Some v.
Proof.
  intros Hstep. induction n as [|n IHn]; intros s caps v H; simpl in H.
  - exists [], s, caps. split; [reflexivity|exact H].
  - assert (Hmore :
      forall v', step s caps
                   (fun s' caps' =>
                      if (length s' <? length s)%nat
                      then star_loop step g k n s' caps' else None) = Some v' ->
                 exists p s' caps', s = p ++ s' /\ k s' caps' = Some v').
    { intros v' Hm. apply Hstep in Hm as (p1 & s1 & caps1 & -> & Hm).
      destruct (length s1 <? length (p1 ++ s1))%nat; [|discriminate].
      apply IHn in Hm as (p2 & s2 & caps2 & -> & Hm).
      exists (p1 ++ p2), s2, caps2. split; [rewrite app_assoc; reflexivity|exact Hm]. }
    destruct g.
    + destruct (step s caps _) as [v1|] eqn:E.
      * injection H as ->. exact (Hmore _ eq_refl).
      * exists [], s, caps. split; [reflexivity|exact H].
    + destruct (k s caps) as [v1|] eqn:E.
      * injection H as ->. exists [], s, caps. split; [reflexivity|exact E].
      * exact (Hmore _ H).
Qed.

(** A successful match hands a suffix of its input to the continuation. *)
Lemma rmatch_suffix (r : regex) :
  forall (s : text) (caps : captures) (k : @cont A) (v : A),
    rmatch r s caps k = Some v ->
    exists p s' caps', s = p ++ s' /\ k s' caps' = Some v.
Proof.
  induction r as [|c|r1 IH1 r2 IH2|r1 IH1 r2 IH2|g r1 IH1|i r1 IH1];
    intros s caps k v H.
  - exists [], s, caps. split; [reflexivity|exact H].
  - simpl in H. destruct s as [|x s0]; [discriminate|].
    destruct (c x); [|discriminate].
    exists [x], s0, caps. split; [reflexivity|exact H].
  - simpl in H. apply IH1 in H as (p1 & s1 & caps1 & -> & H).
    apply IH2 in H as (p2 & s2 & caps2 & -> & H).
    exists (p1 ++ p2), s2, caps2. split; [rewrite app_assoc; reflexivity|exact H].
  - simpl in H. destruct (rmatch r1 s caps k) as [v1|] eqn:E.
    + injection H as ->. exact (IH1 _ _ _ _ E).
    + exact (IH2 _ _ _ _ H).
  - change (star_loop (rmatch r1) g k (S (length s)) s caps = Some v) in H.
    exact (star_loop_suffix (rmatch r1) g k IH1 _ _ _ _ H).
  - simpl in H. apply IH1 in H as (p1 & s1 & caps1 & -> & H).
    exists p1, s1, ((i, take (length (p1 ++ s1) - length s1) (p1 ++ s1)) :: caps1).
    split; [reflexivity|exact H].
Qed.

(** A literal matches exactly its own text. *)
Lemma rmatch_lit (w : string) (s : text) (caps : captures) (k : @cont A) (v : A) :
  rmatch (lit w) s caps k = Some v ->
  exists s', s = str w ++ s' /\ k s' caps = Some v.
Proof.
  unfold lit, str, seqs. revert s.
  induction (list_ascii_of_string w) as [|a l IH]; intros s H; simpl in H.
  - exists s. split; [reflexivity|exact H].
  - destruct s as [|x s0]; [discriminate|].
    destruct (chr_is a x) eqn:E; [|discriminate].
    apply N.eqb_eq in E. subst x.
    apply IH in H as (s' & -> & H). exists s'. split; [reflexivity|exact H].
Qed.

End RegexFacts.

(** A leftmost match is a match at some position. *)
Lemma search_position (r : regex) (t : text) (m : captures) :
  search r t = Some m ->
  exists before here rest, t = before ++ here /\ match_here r here = Some (rest, m).
Proof.
  induction t as [|c t IH]; simpl.
  - destruct (match_here r []) as [[rest caps]|] eqn:E; [|discriminate].
    intros H. injection H as <-. exists [], [], rest. split; [reflexivity|exact E].
  - destruct (match_here r (c :: t)) as [[rest caps]|] eqn:E.
    + intros H. injection H as <-. exists [], (c :: t), rest.
      split; [reflexivity|exact E].
    + intros H. apply IH in H as (before & here & rest & -> & H).
      exists (c :: before), here, rest. split; [reflexivity|exact H].
Qed.

(** ** C9 and C10: the parser of the model's answer *)

(** The text holds an opportunities block: an opening tag and, after it, a
    closing tag. *)
Definition has_block (t : text) : Prop :=
  exists before inside after,
    t = before ++ str "<opportunities>" ++ inside ++ str "</opportunities>" ++ after.

(** The content of the block the parser reads, if there is one. *)
Definition blockContent (t : text) : option text :=
  match search Runner.opportunitiesPattern t with
  | Some m => Some (default [] (cap 1 m))
  | None => None
  end.

Lemma opportunitiesPattern_shape (t : text) (m : captures) :
  search Runner.opportunitiesPattern t = Some m -> has_block t.
Proof.
  intros H. apply search_position in H as (before & here & rest & -> & H).
  unfold match_here in H.
  change Runner.opportunitiesPattern
    with (Seq (lit "<opportunities>")
            (Seq Filter.ws
               (Seq (Group 1 (Star false (Chr (fun _ => true))))
                  (Seq Filter.ws (Seq (lit "</opportunities>") Eps))))) in H.
  change (rmatch (Seq ?a ?b) ?s ?c ?k)
    with (rmatch a s c (fun s' caps' => rmatch b s' caps' k)) in H.
  apply rmatch_lit in H as (s1 & -> & H).
  change (rmatch (Seq ?a ?b) ?s ?c ?k)
    with (rmatch a s c (fun s' caps' => rmatch b s' caps' k)) in H.
  apply rmatch_suffix in H as (p2 & s2 & caps2 & -> & H).
  change (rmatch (Seq ?a ?b) ?s ?c ?k)
    with (rmatch a s c (fun s' caps' => rmatch b s' caps' k)) in H.
  apply rmatch_suffix in H as (p3 & s3 & caps3 & -> & H).
  change (rmatch (Seq ?a ?b) ?s ?c ?k)
    with (rmatch a s c (fun s' caps' => rmatch b s' caps' k)) in H.
  apply rmatch_suffix in H as (p4 & s4 & caps4 & -> & H).
  change (rmatch (Seq ?a ?b) ?s ?c ?k)
    with (rmatch a s c (fun s' caps' => rmatch b s' caps' k)) in H.
  apply rmatch_lit in H as (s5 & -> & H).
  exists before, (p2 ++ p3 ++ p4), s5.
  rewrite <- !app_assoc. reflexivity.
Qed.

(** The element passes the predicate of the parser's [filter]. *)
Definition passes (o : Runner.Json) : bool :=
  match Runner.keepOpportunity o with
  | Runner.Returned b => b
  | Runner.Thrown _ => false
  end.

(** The element is [null]. *)
Definition isNull (o : Runner.Json) : bool :=
  match o with
  | Runner.JNull => true
  | _ => false
  end.

Section ParseFacts.
Import Runner.

Lemma existsb_isNull (parsed : list Json) :
  existsb isNull parsed = true <-> In JNull parsed.
Proof.
  rewrite existsb_exists. split.
  - intros (o & Hin & Ho). destruct o; try discriminate. exact Hin.
  - intros Hin. exists JNull. split; [exact Hin|reflexivity].
Qed.

Lemma assoc_setProp_same (key : text) (v : Json) (props : list (text * Json)) :
  assoc key (setProp key v props) = Some v.
Proof.
  induction props as [|[k w] props IH]; simpl.
  - rewrite bool_decide_eq_true_2 by reflexivity. reflexivity.
  - destruct (decide (k = key)) as [Heq|Hne].
    + rewrite (bool_decide_eq_true_2 _ Heq). simpl.
      rewrite (bool_decide_eq_true_2 _ Heq). reflexivity.
    + rewrite (bool_decide_eq_false_2 _ Hne). simpl.
      rewrite (bool_decide_eq_false_2 _ Hne). exact IH.
Qed.

Lemma assoc_setProp_other (key k' : text) (v : Json) (props : list (text * Json)) :
  k' <> key -> assoc k' (setProp key v props) = assoc k' props.
Proof.
  intros Hk. induction props as [|[k w] props IH]; simpl.
  - rewrite bool_decide_eq_false_2 by (intros H; exact (Hk (eq_sym H))). reflexivity.
  - destruct (decide (k = key)) as [Heq|Hne].
    + rewrite (bool_decide_eq_true_2 _ Heq). simpl.
      subst k. rewrite !bool_decide_eq_false_2 by (intros H; exact (Hk (eq_sym H))).
      reflexivity.
    + rewrite (bool_decide_eq_false_2 _ Hne). simpl.
      destruct (bool_decide (k = k')); [reflexivity|exact IH].
Qed.

(** Only an object with the five fields passes. *)
Lemma passes_object (o : Json) :
  passes o = true ->
  exists fields,
    o = JObj fields
    /\ truthy (assoc (str "title") fields) = true
    /\ isNumber (assoc (str "buyPrice") fields) = true
    /\ isNumber (assoc (str "sellPrice") fields) = true
    /\ truthy (assoc (str "buySource") fields) = true
    /\ truthy (assoc (str "sellSource") fields) = true.
Proof.
  unfold passes, keepOpportunity.
  destruct o as [|b|q|t|elements|fields]; simpl; try discriminate.
  intros H. exists fields. split; [reflexivity|].
  unfold prop in H. simpl in H.
  repeat (apply andb_true_iff in H as [H ?]). repeat split; assumption.
Qed.

Lemma filterOpportunities_kept (parsed kept : list Json) :
  filterOpportunities parsed = Returned kept -> kept = List.filter passes parsed.
Proof.
  revert kept. induction parsed as [|o parsed IH]; simpl; intros kept H.
  - injection H as <-. reflexivity.
  - unfold passes. destruct (keepOpportunity o) as [keep|e]; [|discriminate].
    destruct (filterOpportunities parsed) as [kept0|e]; [|discriminate].
    injection H as <-. rewrite (IH kept0 eq_refl). destruct keep; reflexivity.
Qed.

Lemma filterOpportunities_without_null (parsed : list Json) :
  Forall (fun o => o <> JNull) parsed ->
  filterOpportunities parsed = Returned (List.filter passes parsed).
Proof.
  induction 1 as [|o parsed Ho _ IH]; simpl; [reflexivity|].
  rewrite IH. unfold passes, keepOpportunity.
  destruct o; simpl; try reflexivity; try congruence.
Qed.

Lemma filterOpportunities_with_null (parsed : list Json) :
  In JNull parsed -> exists e, filterOpportunities parsed = Thrown e.
Proof.
  induction parsed as [|o parsed IH]; simpl; [intros []|].
  intros [->|Hin].
  - simpl. eexists. reflexivity.
  - destruct (keepOpportunity o) as [keep|e]; [|eexists; reflexivity].
    destruct (IH Hin) as (e & ->). eexists. reflexivity.
Qed.

Lemma sellPriceType_key_differs (key : string) :
  bool_decide (str key = str "sellPriceType") = false -> str key <> str "sellPriceType".
Proof. apply bool_decide_eq_false. Qed.

(** What the parser's [map] does to an object that passed. *)
Lemma withSellPriceType_object (fields : list (text * Json)) :
  let o := withSellPriceType (JObj fields) in
  prop o (str "title") = assoc (str "title") fields
  /\ prop o (str "buyPrice") = assoc (str "buyPrice") fields
  /\ prop o (str "sellPrice") = assoc (str "sellPrice") fields
  /\ prop o (str "buySource") = assoc (str "buySource") fields
  /\ prop o (str "sellSource") = assoc (str "sellSource") fields
  /\ prop o (str "sellPriceType")
     = (if truthy (assoc (str "sellPriceType") fields)
        then assoc (str "sellPriceType") fields
        else Some (JStr (str "estimated")))
  /\ truthy (prop o (str "sellPriceType")) = true.
Proof.
  unfold withSellPriceType, prop. cbn [getProp ownProps].
  repeat split;
    try (apply assoc_setProp_other; apply sellPriceType_key_differs; reflexivity).
  - rewrite assoc_setProp_same.
    destruct (assoc (str "sellPriceType") fields) as [v|]; [|reflexivity].
    destruct (truthy (Some v)); reflexivity.
  - rewrite assoc_setProp_same.
    destruct (assoc (str "sellPriceType") fields) as [v|]; [|reflexivity].
    destruct (truthy (Some v)) eqn:Et; [exact Et|reflexivity].
Qed.

Variable JSON_parse : text -> option Json.

Lemma parseOpportunities_cases (response : ClaudeResponse) :
  match blockContent (responseText response) with
  | None => parseOpportunities JSON_parse response = []
  | Some c =>
      match JSON_parse c with
      | Some (JArr parsed) =>
          parseOpportunities JSON_parse response
          = match filterOpportunities parsed with
            | Returned kept => map withSellPriceType kept
            | Thrown _ => []
            end
      | _ => parseOpportunities JSON_parse response = []
      end
  end.
Proof.
  unfold blockContent, parseOpportunities.
  destruct (search opportunitiesPattern (responseText response)) as [m|]; [|reflexivity].
  destruct (JSON_parse (default [] (cap 1 m))) as [v|]; [|reflexivity].
  destruct v; reflexivity.
Qed.

End ParseFacts.

(** C10. Every element the parser returns has a truthy [title],
    [buySource] and [sellSource], a numeric [buyPrice] and [sellPrice], and a
    [sellPriceType]: the one given when that is truthy, ['estimated']
    otherwise. The returned elements are the elements of the parsed array
    that pass the test, in order; a [null] element makes the test throw and
    the result empty; a parsed value that is no array gives the empty list. *)
Theorem parsed_opportunities_have_their_fields
    (JSON_parse : text -> option Runner.Json) (response : Runner.ClaudeResponse) :
  (forall o, In o (Runner.parseOpportunities JSON_parse response) ->
     Runner.truthy (Runner.prop o (str "title")) = true
     /\ Runner.truthy (Runner.prop o (str "buySource")) = true
     /\ Runner.truthy (Runner.prop o (str "sellSource")) = true
     /\ Runner.isNumber (Runner.prop o (str "buyPrice")) = true
     /\ Runner.isNumber (Runner.prop o (str "sellPrice")) = true
     /\ Runner.truthy (Runner.prop o (str "sellPriceType")) = true
     /\ exists c parsed o',
          blockContent (Runner.responseText response) = Some c
          /\ JSON_parse c = Some (Runner.JArr parsed)
          /\ In o' parsed /\ passes o' = true
          /\ o = Runner.withSellPriceType o'
          /\ Runner.prop o (str "sellPriceType")
             = (if Runner.truthy (Runner.prop o' (str "sellPriceType"))
                then Runner.prop o' (str "sellPriceType")
                else Some (Runner.JStr (str "estimated"))))
  /\ (forall c parsed,
        blockContent (Runner.responseText response) = Some c ->
        JSON_parse c = Some (Runner.JArr parsed) ->
        Runner.parseOpportunities JSON_parse response
        = if existsb isNull parsed then []
          else map Runner.withSellPriceType (List.filter passes parsed))
  /\ (forall c v,
        blockContent (Runner.responseText response) = Some c ->
        JSON_parse c = Some v ->
        (forall elements, v <> Runner.JArr elements) ->
        Runner.parseOpportunities JSON_parse response = []).
Proof.
  pose proof (parseOpportunities_cases JSON_parse response) as Hcases.
  split; [|split].
  - intros o Hin.
    destruct (blockContent (Runner.responseText response)) as [c|] eqn:Ec;
      [|rewrite Hcases in Hin; destruct Hin].
    destruct (JSON_parse c) as [v|] eqn:Ep; [|rewrite Hcases in Hin; destruct Hin].
    destruct v as [|b|q|t|parsed|fields]; try (rewrite Hcases in Hin; destruct Hin).
    rewrite Hcases in Hin.
    destruct (Runner.filterOpportunities parsed) as [kept|e] eqn:Ef; [|destruct Hin].
    apply filterOpportunities_kept in Ef. subst kept.
    apply in_map_iff in Hin as (o' & <- & Hin). apply filter_In in Hin as [Hin Hpass].
    destruct (passes_object o' Hpass) as (fields & -> & Ht & Hbp & Hsp & Hbs & Hss).
    destruct (withSellPriceType_object fields) as (E1 & E2 & E3 & E4 & E5 & E6 & E7).
    rewrite E1, E2, E3, E4, E5. repeat split; try assumption.
    exists c, parsed, (Runner.JObj fields). repeat split; try assumption.
  - intros c parsed Hc Hp. rewrite Hc, Hp in Hcases. rewrite Hcases.
    destruct (existsb isNull parsed) eqn:Enull.
    + apply existsb_isNull in Enull.
      destruct (filterOpportunities_with_null parsed Enull) as (e & ->). reflexivity.
    + rewrite filterOpportunities_without_null; [reflexivity|].
      apply List.Forall_forall. intros o Ho ->.
      apply existsb_isNull in Ho. congruence.
  - intros c v Hc Hp Hv. rewrite Hc, Hp in Hcases.
    destruct v; try exact Hcases. exfalso. exact (Hv _ eq_refl).
Qed.

Definition complete_opportunity : Runner.Json :=
  Runner.JObj [(str "title", Runner.JStr (str "Dyson V8"));
               (str "buyPrice", Runner.JNum 4500);
               (str "sellPrice", Runner.JNum 18900);
               (str "buySource", Runner.JStr (str "Craigslist"));
               (str "sellSource", Runner.JStr (str "eBay"));
               (str "sellPriceType", Runner.JStr (str "verified"))].

Definition untyped_opportunity : Runner.Json :=
  Runner.JObj [(str "title", Runner.JStr (str "Widget"));
               (str "buyPrice", Runner.JNum 100);
               (str "sellPrice", Runner.JNum 200);
               (str "buySource", Runner.JStr (str "Slickdeals"));
               (str "sellSource", Runner.JStr (str "eBay"))].

Definition untitled_opportunity : Runner.Json :=
  Runner.JObj [(str "buyPrice", Runner.JNum 1)].

(** A stand-in for [JSON.parse] on one document: whatever the text, the
    parsed value is [v]. *)
Definition parses_as (v : Runner.Json) (document : text) : option Runner.Json := Some v.

Definition answer_with_block : Runner.ClaudeResponse :=
  text_answer "Two leads hold up. <opportunities> [ ... ] </opportunities>".

Lemma parsed_opportunities_have_their_fields_witness :
  Runner.parseOpportunities
    (parses_as (Runner.JArr [complete_opportunity; untyped_opportunity;
                             untitled_opportunity]))
    answer_with_block
  = [complete_opportunity;
     Runner.JObj [(str "title", Runner.JStr (str "Widget"));
                  (str "buyPrice", Runner.JNum 100);
                  (str "sellPrice", Runner.JNum 200);
                  (str "buySource", Runner.JStr (str "Slickdeals"));
                  (str "sellSource", Runner.JStr (str "eBay"));
                  (str "sellPriceType", Runner.JStr (str "estimated"))]].
Proof.
  rewrite (proj1 (proj2 (parsed_opportunities_have_their_fields
                           (parses_as (Runner.JArr [complete_opportunity;
                                                    untyped_opportunity;
                                                    untitled_opportunity]))
                           answer_with_block))
             (str "[ ... ]")
             [complete_opportunity; untyped_opportunity; untitled_opportunity]).
  - vm_compute. reflexivity.
  - vm_compute. reflexivity.
  - reflexivity.
Defined.

Example null_element_empties_the_result :
  Runner.parseOpportunities
    (parses_as (Runner.JArr [complete_opportunity; Runner.JNull]))
    answer_with_block
  = [].
Proof. vm_compute. reflexivity. Qed.

(** A text without the character [<] holds no block. *)
Lemma no_angle_no_block (t : text) :
  forallb (fun c => negb (chr_is "<" c)) t = true -> ~ has_block t.
Proof.
  intros H (before & inside & after & ->).
  rewrite forallb_app in H. apply andb_true_iff in H as [_ H].
  vm_compute in H. discriminate.
Qed.

(** C9. An answer whose text holds no opportunities block, or whose block
    does not parse as JSON, gives the empty list of opportunities; and a run
    whose final answer is of that kind still reports success, with no
    opportunities and no error. *)
Theorem malformed_answer_is_no_opportunity
    (JSON_parse : text -> option Runner.Json)
    (callClaude : Runner.ClaudeRequest -> Runner.Outcome Runner.ClaudeResponse)
    (searchSoldPrices : text -> Runner.Outcome text)
    (snipeMessage : list Filter.QualifiedLead -> nat -> text)
    (today now : text)
    (config : Runner.ScoutSnipeConfig) (agentConfig : Runner.AgentScoutConfig) :
  (forall response,
     ~ has_block (Runner.responseText response)
     \/ (exists c, blockContent (Runner.responseText response) = Some c
                   /\ JSON_parse c = None) ->
     Runner.parseOpportunities JSON_parse response = [])
  /\ (forall scout w finalResponse st,
        Runner.allQualified scout <> [] ->
        Budget.allowed
          (Budget.checkBudget today (Budget.loadBudgetConfig (Runner.files w))
             (Runner.files w)) = true ->
        Runner.snipePhase callClaude searchSoldPrices snipeMessage today now
          config agentConfig (Runner.allQualified scout) w
        = Runner.Final (Some finalResponse) st ->
        ~ has_block (Runner.responseText finalResponse)
        \/ (exists c, blockContent (Runner.responseText finalResponse) = Some c
                      /\ JSON_parse c = None) ->
        let result := Runner.runScoutThenSnipe JSON_parse callClaude searchSoldPrices
                        snipeMessage today now config agentConfig scout w in
        Runner.success result.1 = true
        /\ Runner.opportunities result.1 = []
        /\ Runner.error result.1 = None
        /\ Runner.abortReason result.1 = None).
Proof.
  assert (Hparse : forall response,
            ~ has_block (Runner.responseText response)
            \/ (exists c, blockContent (Runner.responseText response) = Some c
                          /\ JSON_parse c = None) ->
            Runner.parseOpportunities JSON_parse response = []).
  { intros response H.
    pose proof (parseOpportunities_cases JSON_parse response) as Hcases.
    destruct H as [Hno|(c & Hc & Hp)].
    - destruct (blockContent (Runner.responseText response)) as [c|] eqn:Ec;
        [|exact Hcases].
      exfalso. apply Hno. unfold blockContent in Ec.
      destruct (search Runner.opportunitiesPattern (Runner.responseText response))
        as [m|] eqn:Es; [|discriminate].
      exact (opportunitiesPattern_shape _ _ Es).
    - rewrite Hc, Hp in Hcases. exact Hcases. }
  split; [exact Hparse|].
  intros scout w finalResponse st Hne Hallowed Hphase Hbad result.
  destruct (run_with_final_response JSON_parse callClaude searchSoldPrices snipeMessage
              today now config agentConfig scout w finalResponse st Hne Hallowed Hphase)
    as (H1 & H2 & H3 & H4).
  unfold result. rewrite H2, (Hparse finalResponse Hbad). auto.
Qed.

(** A model whose verdict carries a block that is no JSON. *)
Definition broken_block (request : Runner.ClaudeRequest)
    : Runner.Outcome Runner.ClaudeResponse :=
  Runner.Returned (text_answer "<opportunities>[{ oops</opportunities>").

Lemma malformed_answer_is_no_opportunity_witness :
  Runner.parseOpportunities (fun _ => None)
    (text_answer "None of the leads is a real opportunity.") = []
  /\ (let result := Runner.runScoutThenSnipe (fun _ => None) broken_block
                      search_finds_nothing (fun _ _ => []) (str "2026-03-01")
                      (str "2026-03-01T10:00:00.000Z")
                      retail_run retail_config scout_one_estimated empty_world in
      Runner.success result.1 = true
      /\ Runner.opportunities result.1 = []
      /\ Runner.error result.1 = None
      /\ Runner.abortReason result.1 = None).
Proof.
  split.
  - apply (proj1 (malformed_answer_is_no_opportunity (fun _ => None) prose_only
                    search_finds_nothing (fun _ _ => []) (str "2026-03-01")
                    (str "2026-03-01T10:00:00.000Z") retail_run retail_config)).
    left. apply no_angle_no_block. vm_compute. reflexivity.
  - eapply (proj2 (malformed_answer_is_no_opportunity (fun _ => None) broken_block
                     search_finds_nothing (fun _ _ => []) (str "2026-03-01")
                     (str "2026-03-01T10:00:00.000Z") retail_run retail_config)
              scout_one_estimated empty_world
              (text_answer "<opportunities>[{ oops</opportunities>")).
    + vm_compute. discriminate.
    + reflexivity.
    + vm_compute. reflexivity.
    + right. exists (str "[{ oops"). split; [vm_compute; reflexivity|reflexivity].
Defined.

(** ** C8: price extraction *)

(** A character of the integer part of an amount: [[\d,]]. *)
Definition is_amount_char (c : char) : bool := is_digit c || chr_is "," c.

(** A money string: [$], an integer part of digits and commas, and
    optionally a point and two digits. *)
Definition fraction_text (frac : option (char * char)) : text :=
  match frac with
  | Some (a, b) => [N_of_ascii "."; a; b]
  | None => []
  end.


Definition fraction_ok (frac : option (char * char)) : bool :=
  match frac with
  | Some (a, b) => is_digit a && is_digit b
  | None => true
  end.

(** Its value in cents: a hundred times the number its digits spell, plus
    the two digits after the point. *)
Definition money_cents (whole : text) (frac : option (char * char)) : Z :=
  100 * digits_val (List.filter is_digit whole)
  + match frac with
    | Some (a, b) => 10 * digit_val a + digit_val b
    | None => 0
    end.





Section PriceFacts.

Lemma amount_char_cases (c : char) :
  is_amount_char c = true -> (c = 44 \/ (48 <= c /\ c <= 57))%N.
Proof.
  unfold is_amount_char, is_digit, chr_is. intros H.
  apply orb_true_iff in H as [H|H].
  - apply andb_true_iff in H as [H1 H2]. apply N.leb_le in H1. apply N.leb_le in H2.
    right. split; assumption.
  - apply N.eqb_eq in H. left. exact H.
Qed.


Lemma amount_char_strip (c : char) :
  is_amount_char c = true -> negb (chr_is "," c) = is_digit c.
Proof.
  intros H. apply amount_char_cases in H. unfold chr_is, is_digit.
  destruct H as [->|[H1 H2]]; [reflexivity|].
  replace (c =? N_of_ascii ",")%N with false by (symmetry; apply N.eqb_neq; simpl; lia).
  apply N.leb_le in H1. apply N.leb_le in H2. rewrite H1, H2. reflexivity.
Qed.

Lemma strip_commas_amount (whole : text) :
  forallb is_amount_char whole = true ->
  strip_commas whole = List.filter is_digit whole.
Proof.
  unfold strip_commas. induction whole as [|c whole IH]; simpl; [reflexivity|].
  intros H. apply andb_true_iff in H as [Hc H].
  rewrite (amount_char_strip c Hc), (IH H). reflexivity.
Qed.

Lemma strip_commas_fraction (frac : option (char * char)) :
  fraction_ok frac = true -> strip_commas (fraction_text frac) = fraction_text frac.
Proof.
  destruct frac as [[a b]|]; [|reflexivity]. simpl. intros H.
  apply andb_true_iff in H as [Ha Hb]. unfold strip_commas. simpl.
  assert (Hd : forall c, is_digit c = true -> negb (chr_is "," c) = true).
  { intros c Hc. rewrite amount_char_strip; [exact Hc|].
    unfold is_amount_char. rewrite Hc. reflexivity. }
  rewrite (Hd a Ha), (Hd b Hb). reflexivity.
Qed.

Lemma span_digits_app (ds rest : text) :
  forallb is_digit ds = true ->
  match rest with c :: _ => is_digit c = false | [] => True end ->
  span_digits (ds ++ rest) = (ds, rest).
Proof.
  intros Hds Hrest. induction ds as [|d ds IH]; simpl.
  - destruct rest as [|c rest]; [reflexivity|]. simpl. rewrite Hrest. reflexivity.
  - simpl in Hds. apply andb_true_iff in Hds as [Hd Hds].
    rewrite Hd, (IH Hds). reflexivity.
Qed.

Lemma forallb_filter_digit (whole : text) :
  forallb is_digit (List.filter is_digit whole) = true.
Proof.
  induction whole as [|c whole IH]; simpl; [reflexivity|].
  destruct (is_digit c) eqn:E; simpl; [rewrite E|]; exact IH.
Qed.

Lemma Qfloor_half (z : Z) : Qfloor (inject_Z z + (1 # 2)) = z.
Proof.
  unfold Qfloor, Qplus, inject_Z. simpl.
  rewrite Z.mul_1_r. symmetry. apply (Z.div_unique _ _ z 1); lia.
Qed.

Lemma Math_round_cents (num : Q) (cents : Z) :
  (num * 100 == inject_Z cents)%Q -> Math_round (num * 100) = cents.
Proof.
  intros H. unfold Math_round.
  rewrite (Qfloor_comp _ (inject_Z cents + (1 # 2))%Q).
  - apply Qfloor_half.
  - rewrite H. reflexivity.
Qed.


Lemma strip_commas_app (a b : text) :
  strip_commas (a ++ b) = strip_commas a ++ strip_commas b.
Proof. unfold strip_commas. apply List.filter_app. Qed.




End PriceFacts.

(** *** The dollar pattern on a money string *)

Section MatcherFacts.
Context {A : Type}.





End MatcherFacts.


(** *** The first price pushed *)











(* ================================================================== *)
(** * Part III: further properties of the code *)
(* ================================================================== *)

(** ** What a match consumes and captures *)

(** [matches r p caps]: the pattern [r] can consume exactly [p], recording
    the groups [caps], the latest first. *)
Inductive matches : regex -> text -> captures -> Prop :=
| matches_Eps : matches Eps [] []
| matches_Chr (P : char -> bool) (c : char) : P c = true -> matches (Chr P) [c] []
| matches_Seq (r1 r2 : regex) (p1 p2 : text) (n1 n2 : captures) :
    matches r1 p1 n1 -> matches r2 p2 n2 -> matches (Seq r1 r2) (p1 ++ p2) (n2 ++ n1)
| matches_Alt_l (r1 r2 : regex) (p : text) (n : captures) :
    matches r1 p n -> matches (Alt r1 r2) p n
| matches_Alt_r (r1 r2 : regex) (p : text) (n : captures) :
    matches r2 p n -> matches (Alt r1 r2) p n
| matches_Star_nil (g : bool) (r : regex) : matches (Star g r) [] []
| matches_Star_cons (g : bool) (r : regex) (p1 p2 : text) (n1 n2 : captures) :
    matches r p1 n1 -> matches (Star g r) p2 n2 ->
    matches (Star g r) (p1 ++ p2) (n2 ++ n1)
| matches_Group (i : nat) (r : regex) (p : text) (n : captures) :
    matches r p n -> matches (Group i r) p ((i, p) :: n).

Section Soundness.
Context {A : Type}.

Lemma star_loop_matches (g : bool) (r : regex) (k : @cont A) :
  (forall s caps (k' : @cont A) v, rmatch r s caps k' = Some v ->
     exists p s' n, s = p ++ s' /\ matches r p n /\ k' s' (n ++ caps) = Some v) ->
  forall (fuel : nat) (s : text) (caps : captures) (v : A),
    star_loop (rmatch r) g k fuel s caps = Some v ->
    exists p s' n, s = p ++ s' /\ matches (Star g r) p n /\ k s' (n ++ caps) = Some v.
Proof.
  intros Hstep. induction fuel as [|fuel IH]; intros s caps v H; simpl in H.
  - exists [], s, []. repeat split; [constructor|exact H].
  - assert (Hmore :
      forall v', rmatch r s caps
                   (fun s' caps' =>
                      if (length s' <? length s)%nat
                      then star_loop (rmatch r) g k fuel s' caps' else None) = Some v' ->
                 exists p s' n,
                   s = p ++ s' /\ matches (Star g r) p n /\ k s' (n ++ caps) = Some v').
    { intros v' Hm. apply Hstep in Hm as (p1 & s1 & n1 & E1 & M1 & Hm). subst s.
      destruct (length s1 <? length (p1 ++ s1))%nat; [|discriminate].
      apply IH in Hm as (p2 & s2 & n2 & E2 & M2 & Hm). subst s1.
      exists (p1 ++ p2), s2, (n2 ++ n1). repeat split.
      - rewrite app_assoc. reflexivity.
      - constructor; assumption.
      - rewrite <- app_assoc. exact Hm. }
    destruct g.
    + destruct (rmatch r s caps _) as [v1|] eqn:E.
      * injection H as E1. subst v1. exact (Hmore _ eq_refl).
      * exists [], s, []. repeat split; [constructor|exact H].
    + destruct (k s caps) as [v1|] eqn:E.
      * injection H as E1. subst v1. exists [], s, []. repeat split; [constructor|exact E].
      * exact (Hmore _ H).
Qed.

(** Whatever the matcher accepts, it accepts by consuming a prefix that
    the pattern describes and handing the rest to its continuation. *)
Lemma rmatch_matches (r : regex) :
  forall (s : text) (caps : captures) (k : @cont A) (v : A),
    rmatch r s caps k = Some v ->
    exists p s' n, s = p ++ s' /\ matches r p n /\ k s' (n ++ caps) = Some v.
Proof.
  induction r as [|c|r1 IH1 r2 IH2|r1 IH1 r2 IH2|g r1 IH1|i r1 IH1];
    intros s caps k v H.
  - exists [], s, []. repeat split; [constructor|exact H].
  - simpl in H. destruct s as [|x s0]; [discriminate|].
    destruct (c x) eqn:E; [|discriminate].
    exists [x], s0, []. repeat split; [constructor; exact E|exact H].
  - simpl in H. apply IH1 in H as (p1 & s1 & n1 & E1 & M1 & H). subst s.
    apply IH2 in H as (p2 & s2 & n2 & E2 & M2 & H). subst s1.
    exists (p1 ++ p2), s2, (n2 ++ n1). repeat split.
    + rewrite app_assoc. reflexivity.
    + constructor; assumption.
    + rewrite <- app_assoc. exact H.
  - simpl in H. destruct (rmatch r1 s caps k) as [v1|] eqn:E.
    + injection H as E1. subst v1.
      destruct (IH1 _ _ _ _ E) as (p & s' & n & E1 & M & H).
      exists p, s', n. repeat split; [exact E1|apply matches_Alt_l; exact M|exact H].
    + destruct (IH2 _ _ _ _ H) as (p & s' & n & E1 & M & H').
      exists p, s', n. repeat split; [exact E1|apply matches_Alt_r; exact M|exact H'].
  - change (star_loop (rmatch r1) g k (S (length s)) s caps = Some v) in H.
    exact (star_loop_matches g r1 k IH1 _ _ _ _ H).
  - simpl in H. apply IH1 in H as (p1 & s1 & n1 & E1 & M1 & H). subst s.
    exists p1, s1, ((i, p1) :: n1). repeat split; [constructor; exact M1|].
    replace (take (length (p1 ++ s1) - length s1) (p1 ++ s1)) with p1 in H; [exact H|].
    rewrite length_app, Nat.add_sub. symmetry. apply take_app_length.
Qed.
End Soundness.

Lemma match_here_matches (r : regex) (s rest : text) (caps : captures) :
  match_here r s = Some (rest, caps) ->
  exists p, s = p ++ rest /\ matches r p caps.
Proof.
  unfold match_here. intros H.
  apply rmatch_matches in H as (p & s' & n & E & M & H).
  injection H as E1 E2. subst. exists p. rewrite app_nil_r. split; [reflexivity|exact M].
Qed.

(** Every match found by a global scan is a match at some position. *)
Lemma exec_all_matches (r : regex) (t : text) :
  forall (skip : nat) (caps : captures),
    In caps (exec_all r skip t) ->
    exists before p rest, t = before ++ p ++ rest /\ matches r p caps.
Proof.
  induction t as [|c t IH]; intros skip caps H; simpl in H; [contradiction|].
  destruct skip as [|skip].
  - destruct (match_here r (c :: t)) as [[rest m]|] eqn:E.
    + destruct H as [H|H].
      * subst m. apply match_here_matches in E as (p & E & M).
        exists [], p, rest. split; [exact E|exact M].
      * apply IH in H as (before & p & rest' & E1 & M). subst t.
        exists (c :: before), p, rest'. split; [reflexivity|exact M].
    + apply IH in H as (before & p & rest' & E1 & M). subst t.
      exists (c :: before), p, rest'. split; [reflexivity|exact M].
  - apply IH in H as (before & p & rest' & E1 & M). subst t.
    exists (c :: before), p, rest'. split; [reflexivity|exact M].
Qed.

Lemma search_matches (r : regex) (t : text) (m : captures) :
  search r t = Some m ->
  exists before p rest, t = before ++ p ++ rest /\ matches r p m.
Proof.
  intros H. apply search_position in H as (before & here & rest & E & H).
  apply match_here_matches in H as (p & E1 & M). subst.
  exists before, p, rest. split; [reflexivity|exact M].
Qed.

(** A pattern without capture groups. *)
Fixpoint groupless (r : regex) : bool :=
  match r with
  | Eps | Chr _ => true
  | Seq r1 r2 | Alt r1 r2 => groupless r1 && groupless r2
  | Star _ r1 => groupless r1
  | Group _ _ => false
  end.

Lemma matches_groupless (r : regex) (p : text) (n : captures) :
  matches r p n -> groupless r = true -> n = [].
Proof.
  induction 1 as [|P c HP|r1 r2 p1 p2 n1 n2 M1 IH1 M2 IH2|r1 r2 p n M IH|r1 r2 p n M IH
                 |g r|g r p1 p2 n1 n2 M1 IH1 M2 IH2|i r p n M IH];
    simpl; intros G; try reflexivity.
  - apply andb_true_iff in G as [G1 G2]. rewrite (IH1 G1), (IH2 G2). reflexivity.
  - apply andb_true_iff in G as [G1 G2]. exact (IH G1).
  - apply andb_true_iff in G as [G1 G2]. exact (IH G2).
  - rewrite (IH1 G), (IH2 G). reflexivity.
  - discriminate.
Qed.

Lemma groupless_seqs (rs : list regex) :
  forallb groupless rs = true -> groupless (seqs rs) = true.
Proof.
  induction rs as [|r rs IH]; simpl; [reflexivity|].
  intros H. apply andb_true_iff in H as [H1 H2]. rewrite H1. exact (IH H2).
Qed.

Lemma groupless_lit_ci (w : string) : groupless (lit_ci w) = true.
Proof.
  unfold lit_ci. apply groupless_seqs.
  induction (list_ascii_of_string w) as [|a l IH]; [reflexivity|exact IH].
Qed.

(** A sequence whose head has no group: the groups are those of the tail. *)
Lemma matches_Seq_inv (r1 r2 : regex) (p : text) (n : captures) :
  matches (Seq r1 r2) p n ->
  exists p1 p2 n1 n2,
    p = p1 ++ p2 /\ n = n2 ++ n1 /\ matches r1 p1 n1 /\ matches r2 p2 n2.
Proof. inversion 1; subst. eauto 10. Qed.

Lemma matches_Seq_groupless (r1 r2 : regex) (p : text) (n : captures) :
  groupless r1 = true ->
  matches (Seq r1 r2) p n ->
  exists p1 p2, p = p1 ++ p2 /\ matches r1 p1 [] /\ matches r2 p2 n.
Proof.
  intros G M. apply matches_Seq_inv in M as (p1 & p2 & n1 & n2 & E1 & E2 & M1 & M2).
  pose proof (matches_groupless _ _ _ M1 G) as E. subst n1.
  rewrite app_nil_r in E2. subst. eauto.
Qed.

Lemma matches_Eps_inv (p : text) (n : captures) : matches Eps p n -> p = [] /\ n = [].
Proof. inversion 1; subst. split; reflexivity. Qed.

Lemma matches_Chr_inv (P : char -> bool) (p : text) (n : captures) :
  matches (Chr P) p n -> exists c, p = [c] /\ n = [] /\ P c = true.
Proof. inversion 1; subst. eauto. Qed.

Lemma matches_class_star (g : bool) (P : char -> bool) (p : text) (n : captures) :
  matches (Star g (Chr P)) p n -> n = [] /\ forallb P p = true.
Proof.
  remember (Star g (Chr P)) as r eqn:Er. intros M. revert Er.
  induction M as [|Q c HQ|r1 r2 p1 p2 n1 n2 M1 IH1 M2 IH2|r1 r2 p n M IH|r1 r2 p n M IH
                 |g' r|g' r p1 p2 n1 n2 M1 IH1 M2 IH2|i r p n M IH];
    intros Er; try discriminate.
  - split; reflexivity.
  - injection Er as Eg Ec. subst g' r.
    apply matches_Chr_inv in M1 as (c & E1 & E2 & HP). subst p1 n1.
    destruct (IH2 eq_refl) as [E3 HP2]. subst n2.
    split; [reflexivity|]. simpl. rewrite HP. exact HP2.
Qed.

Lemma matches_class_plus (P : char -> bool) (p : text) (n : captures) :
  matches (plus (Chr P)) p n -> n = [] /\ p <> [] /\ forallb P p = true.
Proof.
  unfold plus. intros M.
  apply matches_Seq_inv in M as (p1 & p2 & n1 & n2 & E1 & E2 & M1 & M2).
  apply matches_Chr_inv in M1 as (c & E3 & E4 & HP).
  apply matches_class_star in M2 as [E5 HP2]. subst.
  repeat split; [discriminate|]. simpl. rewrite HP. exact HP2.
Qed.

(** What the amount group [([\d,]+(?:\.\d{2})?)] captures: digits and
    commas, then possibly a point and two digits. *)
Lemma matches_amount (i : nat) (p : text) (n : captures) :
  matches (amount i) p n ->
  n = [(i, p)]
  /\ exists whole frac,
       p = whole ++ fraction_text frac /\ whole <> []
       /\ forallb is_amount_char whole = true /\ fraction_ok frac = true.
Proof.
  unfold amount. inversion 1 as [| | | | | | |i' r' p' n' M]; subst.
  apply matches_Seq_inv in M as (p1 & p2 & n1 & n2 & E1 & E2 & M1 & M2).
  apply matches_class_plus in M1 as (En1 & Hne & Hall). subst.
  unfold opt in M2. inversion M2 as [| | |r1 r2 p' n' M|r1 r2 p' n' M| | |]; subst.
  - unfold seqs in M. simpl in M.
    apply matches_Seq_inv in M as (q1 & q2 & m1 & m2 & E1 & E2 & M1 & M).
    apply matches_Chr_inv in M1 as (c1 & -> & -> & H1).
    apply matches_Seq_inv in M as (q3 & q4 & m3 & m4 & E3 & E4 & M3 & M).
    apply matches_Chr_inv in M3 as (c2 & -> & -> & H2).
    apply matches_Seq_inv in M as (q5 & q6 & m5 & m6 & E5 & E6 & M5 & M).
    apply matches_Chr_inv in M5 as (c3 & -> & -> & H3).
    apply matches_Eps_inv in M as [-> ->]. subst.
    apply N.eqb_eq in H1. subst c1. split; [reflexivity|].
    exists p1, (Some (c2, c3)). repeat split; try assumption.
    simpl. rewrite H2, H3. reflexivity.
  - apply matches_Eps_inv in M as [-> ->]. split; [rewrite app_nil_r; reflexivity|].
    exists p1, None. repeat split; assumption.
Qed.

(** The three price patterns: some text without a group, then the amount
    as group 1. *)
Lemma matches_dollar_pattern (p : text) (n : captures) :
  matches dollar_pattern p n ->
  exists pre amt, p = N_of_ascii "$" :: pre ++ amt /\ matches (amount 1) amt n.
Proof.
  unfold dollar_pattern, seqs. simpl. intros M.
  apply matches_Seq_groupless in M as (p1 & p2 & -> & M1 & M); [|reflexivity].
  apply matches_Chr_inv in M1 as (c & -> & _ & Hc). apply N.eqb_eq in Hc. subst c.
  apply matches_Seq_groupless in M as (p3 & p4 & -> & M3 & M); [|reflexivity].
  apply matches_Seq_inv in M as (p5 & p6 & n5 & n6 & -> & -> & M5 & M6).
  apply matches_Eps_inv in M6 as [-> ->]. rewrite app_nil_r. simpl.
  exists p3, p5. split; [reflexivity|exact M5].
Qed.

Lemma matches_usd_pattern (p : text) (n : captures) :
  matches usd_pattern p n ->
  exists pre amt, p = pre ++ amt /\ matches (amount 1) amt n.
Proof.
  unfold usd_pattern. change (seqs [lit_ci "USD"; opt (Chr is_space); amount 1])
    with (Seq (lit_ci "USD") (Seq (opt (Chr is_space)) (Seq (amount 1) Eps))).
  intros M.
  apply matches_Seq_groupless in M as (p1 & p2 & -> & M1 & M); [|apply groupless_lit_ci].
  apply matches_Seq_groupless in M as (p3 & p4 & -> & M3 & M); [|reflexivity].
  apply matches_Seq_inv in M as (p5 & p6 & n5 & n6 & -> & -> & M5 & M6).
  apply matches_Eps_inv in M6 as [-> ->]. rewrite app_nil_r. simpl.
  exists (p1 ++ p3), p5. split; [rewrite app_assoc; reflexivity|exact M5].
Qed.

Lemma matches_price_pattern (p : text) (n : captures) :
  matches price_pattern p n ->
  exists pre amt, p = pre ++ amt /\ matches (amount 1) amt n.
Proof.
  unfold price_pattern.
  change (seqs [lit_ci "price"; plus (Chr (fun c => chr_is ":" c || is_space c));
                opt (Chr (chr_is "$")); amount 1])
    with (Seq (lit_ci "price")
            (Seq (plus (Chr (fun c => chr_is ":" c || is_space c)))
               (Seq (opt (Chr (chr_is "$"))) (Seq (amount 1) Eps)))).
  intros M.
  apply matches_Seq_groupless in M as (p1 & p2 & -> & M1 & M); [|apply groupless_lit_ci].
  apply matches_Seq_groupless in M as (p3 & p4 & -> & M3 & M); [|reflexivity].
  apply matches_Seq_groupless in M as (p5 & p6 & -> & M5 & M); [|reflexivity].
  apply matches_Seq_inv in M as (p7 & p8 & n7 & n8 & -> & -> & M7 & M8).
  apply matches_Eps_inv in M8 as [-> ->]. rewrite app_nil_r. simpl.
  exists (p1 ++ p3 ++ p5), p7. split; [rewrite <- !app_assoc; reflexivity|exact M7].
Qed.

(** [parseFloat] on an amount: NaN, or the number its digits spell. *)
Lemma parseFloat_amount_cases (whole : text) (frac : option (char * char)) :
  forallb is_amount_char whole = true ->
  fraction_ok frac = true ->
  parseFloat (strip_commas (whole ++ fraction_text frac)) = None
  \/ exists num,
       parseFloat (strip_commas (whole ++ fraction_text frac)) = Some num
       /\ (num * 100 == inject_Z (money_cents whole frac))%Q.
Proof.
  intros Hwhole Hfrac.
  rewrite strip_commas_app.
  rewrite (strip_commas_amount whole Hwhole), (strip_commas_fraction frac Hfrac).
  set (ds := List.filter is_digit whole) in *.
  assert (Hds : forallb is_digit ds = true) by apply forallb_filter_digit.
  unfold parseFloat, money_cents in *. fold ds.
  destruct frac as [[a b]|]; cbv beta iota delta [fraction_text].
  - right. simpl in Hfrac. apply andb_true_iff in Hfrac as [Ha Hb].
    rewrite (span_digits_app ds [N_of_ascii "."; a; b] Hds) by reflexivity.
    change (chr_is "." (N_of_ascii ".")) with true. cbv iota.
    simpl span_digits. rewrite Ha, Hb.
    exists (inject_Z (digits_val ds)
            + inject_Z (digits_val [a; b]) / inject_Z (10 ^ Z.of_nat (length [a; b])))%Q.
    split; [destruct ds; reflexivity|].
    change (10 ^ Z.of_nat (length [a; b])) with 100.
    unfold digits_val at 2. simpl fold_left.
    unfold Qeq, Qmult, Qplus, Qdiv, Qinv, inject_Z. simpl. lia.
  - rewrite (span_digits_app ds [] Hds I).
    destruct ds as [|d ds'] eqn:Eds; [left; reflexivity|right].
    exists (inject_Z (digits_val (d :: ds'))).
    split; [reflexivity|].
    unfold Qeq, Qmult, inject_Z. simpl. lia.
Qed.

Lemma cents_in_range (num : Q) (cents : Z) :
  (num * 100 == inject_Z cents)%Q ->
  Qltb 0 num && Qltb num 1000000 = true ->
  0 < cents < 100000000.
Proof.
  intros H Hr. apply andb_true_iff in Hr as [H0 H1].
  unfold Qltb in *. apply negb_true_iff in H0, H1.
  assert (L0 : (0 < num)%Q).
  { apply Qnot_le_lt. intros C. apply Qle_bool_iff in C. congruence. }
  assert (L1 : (num < 1000000)%Q).
  { apply Qnot_le_lt. intros C. apply Qle_bool_iff in C. congruence. }
  split.
  - assert (0 * 100 < num * 100)%Q by (apply Qmult_lt_compat_r; [reflexivity|exact L0]).
    rewrite H in H2. change (0 * 100)%Q with (inject_Z 0) in H2.
    rewrite <- Zlt_Qlt in H2. exact H2.
  - assert (num * 100 < 1000000 * 100)%Q by (apply Qmult_lt_compat_r; [reflexivity|exact L1]).
    rewrite H in H2. change (1000000 * 100)%Q with (inject_Z 100000000) in H2.
    rewrite <- Zlt_Qlt in H2. exact H2.
Qed.

(** The cents pushed for a match of the amount group. *)
Lemma cents_of_match_shape (amt : text) (n : captures) (c : Z) :
  matches (amount 1) amt n ->
  cents_of_match n = Some c ->
  0 < c < 100000000
  /\ exists whole frac,
       amt = whole ++ fraction_text frac /\ whole <> []
       /\ forallb is_amount_char whole = true /\ fraction_ok frac = true
       /\ c = money_cents whole frac.
Proof.
  intros M H. apply matches_amount in M as (-> & whole & frac & -> & Hne & Hw & Hf).
  unfold cents_of_match in H. cbn [cap Nat.eqb] in H.
  destruct (parseFloat_amount_cases whole frac Hw Hf) as [E|(num & E & Hnum)];
    rewrite E in H; [discriminate|].
  destruct (Qltb 0 num && Qltb num 1000000) eqn:Hr; [|discriminate].
  injection H as <-. rewrite (Math_round_cents num _ Hnum).
  split; [exact (cents_in_range num _ Hnum Hr)|].
  exists whole, frac. repeat split; assumption.
Qed.

Definition price_patterns : list regex := [dollar_pattern; usd_pattern; price_pattern].

Lemma price_pattern_amount (pattern : regex) (p : text) (n : captures) :
  In pattern price_patterns -> matches pattern p n ->
  exists pre amt, p = pre ++ amt /\ matches (amount 1) amt n.
Proof.
  intros Hin M. destruct Hin as [<-|[<-|[<-|[]]]].
  - apply matches_dollar_pattern in M as (pre & amt & -> & M).
    exists (N_of_ascii "$" :: pre), amt. split; [reflexivity|exact M].
  - apply matches_usd_pattern in M. exact M.
  - apply matches_price_pattern in M. exact M.
Qed.

Lemma In_omap_inv {B C : Type} (f : B -> option C) (l : list B) (y : C) :
  In y (omap f l) -> exists x, In x l /\ f x = Some y.
Proof.
  induction l as [|x l IH]; simpl; [contradiction|].
  destruct (f x) as [z|] eqn:E.
  - intros [H|H]; [subst; eauto|]. apply IH in H as (x' & ? & ?). eauto.
  - intros H. apply IH in H as (x' & ? & ?). eauto.
Qed.

(** Where a price of [prices_of] comes from. *)
Lemma prices_of_shape (pattern : regex) (t : text) (c : Z) :
  In pattern price_patterns ->
  In c (prices_of pattern t) ->
  0 < c < 100000000
  /\ exists before pre whole frac rest,
       t = before ++ (pre ++ whole ++ fraction_text frac) ++ rest
       /\ whole <> [] /\ forallb is_amount_char whole = true /\ fraction_ok frac = true
       /\ c = money_cents whole frac.
Proof.
  intros Hp H. unfold prices_of in H.
  apply In_omap_inv in H as (caps & Hin & Hc).
  apply exec_all_matches in Hin as (before & p & rest & -> & M).
  apply (price_pattern_amount _ _ _ Hp) in M as (pre & amt & -> & M).
  destruct (cents_of_match_shape amt caps c M Hc)
    as (Hr & whole & frac & -> & Hne & Hw & Hf & ->).
  split; [exact Hr|].
  exists before, pre, whole, frac, rest. repeat split; assumption.
Qed.

Lemma matches_opt_class (P : char -> bool) (p : text) (n : captures) :
  matches (opt (Chr P)) p n ->
  n = [] /\ (length p <= 1)%nat /\ forallb P p = true.
Proof.
  unfold opt. inversion 1 as [| | |r1 r2 p' n' M|r1 r2 p' n' M| | |]; subst.
  - apply matches_Chr_inv in M as (c & -> & -> & HP).
    repeat split; [simpl; lia|simpl; rewrite HP; reflexivity].
  - apply matches_Eps_inv in M as [-> ->]. repeat split. simpl. lia.
Qed.

Lemma matches_dollar_gap (p : text) (n : captures) :
  matches dollar_pattern p n ->
  exists gap amt,
    p = N_of_ascii "$" :: gap ++ amt /\ (length gap <= 1)%nat
    /\ forallb is_space gap = true /\ matches (amount 1) amt n.
Proof.
  unfold dollar_pattern, seqs. simpl. intros M.
  apply matches_Seq_groupless in M as (p1 & p2 & -> & M1 & M); [|reflexivity].
  apply matches_Chr_inv in M1 as (c & -> & _ & Hc). apply N.eqb_eq in Hc. subst c.
  apply matches_Seq_groupless in M as (p3 & p4 & -> & M3 & M); [|reflexivity].
  apply matches_opt_class in M3 as (_ & Hlen & Hsp).
  apply matches_Seq_inv in M as (p5 & p6 & n5 & n6 & -> & -> & M5 & M6).
  apply matches_Eps_inv in M6 as [-> ->]. rewrite app_nil_r. simpl.
  exists p3, p5. repeat split; assumption.
Qed.

(** The shape of a text in which [extractAllPrices] finds the price [c]. *)
Definition dollar_amount_in (t : text) (c : Z) : Prop :=
  exists before gap whole frac rest,
    t = before ++ [N_of_ascii "$"] ++ gap ++ whole ++ fraction_text frac ++ rest
    /\ (length gap <= 1)%nat /\ forallb is_space gap = true
    /\ whole <> [] /\ forallb is_amount_char whole = true /\ fraction_ok frac = true
    /\ c = money_cents whole frac.

Lemma extractAllPrices_amount (t : text) (c : Z) :
  In c (extractAllPrices t) -> 1 <= c <= 99999999 /\ dollar_amount_in t c.
Proof.
  unfold extractAllPrices, prices_of. intros H.
  apply In_omap_inv in H as (caps & Hin & Hc).
  apply exec_all_matches in Hin as (before & p & rest & -> & M).
  apply matches_dollar_gap in M as (gap & amt & -> & Hlen & Hsp & M).
  destruct (cents_of_match_shape amt caps c M Hc)
    as (Hr & whole & frac & -> & Hne & Hw & Hf & ->).
  split; [lia|].
  exists before, gap, whole, frac, rest. repeat split; try assumption.
  simpl. rewrite <- !app_assoc. reflexivity.
Qed.



Lemma In_flat_map_inv {B C : Type} (f : B -> list C) (l : list B) (y : C) :
  In y (flat_map f l) -> exists x, In x l /\ In y (f x).
Proof. intros H. apply in_flat_map in H. exact H. Qed.

Lemma head_In {B : Type} (l : list B) (x : B) : head l = Some x -> In x l.
Proof. destruct l; simpl; [discriminate|]. intros H. injection H as ->. left. reflexivity. Qed.

(** The shape of a text in which [extractPrice] finds the price [c]. *)
Definition amount_in (t : text) (c : Z) : Prop :=
  exists before whole frac rest,
    t = before ++ whole ++ fraction_text frac ++ rest
    /\ whole <> [] /\ forallb is_amount_char whole = true /\ fraction_ok frac = true
    /\ c = money_cents whole frac.

Lemma extractPrice_amount (t : text) (c : Z) :
  extractPrice t = Some c -> 1 <= c <= 99999999 /\ amount_in t c.
Proof.
  unfold extractPrice. intros H. apply head_In in H.
  apply in_flat_map in H as (pattern & Hp & H).
  destruct (prices_of_shape pattern t c Hp H)
    as (Hr & before & pre & whole & frac & rest & -> & Hne & Hw & Hf & ->).
  split; [lia|].
  exists (before ++ pre), whole, frac, rest. repeat split; try assumption.
  rewrite <- !app_assoc. reflexivity.
Qed.




(** ** The sort, in general *)

Section SortOrder.
Context {A : Type} (cmp : A -> A -> Z).

Lemma insert_sorted_Permutation (x : A) (l : list A) :
  Permutation (insert_sorted cmp x l) (x :: l).
Proof.
  induction l as [|y l IH]; simpl; [reflexivity|].
  destruct (cmp x y <=? 0); [reflexivity|].
  rewrite IH. apply perm_swap.
Qed.

Lemma Array_sort_Permutation (l : list A) : Permutation (Array_sort cmp l) l.
Proof.
  induction l as [|x l IH]; simpl; [reflexivity|].
  rewrite insert_sorted_Permutation, IH. reflexivity.
Qed.

(** The comparator orders: it is total and transitive. *)
Hypothesis cmp_total : forall x y, 0 < cmp x y -> cmp y x <= 0.
Hypothesis cmp_trans : forall x y z, cmp x y <= 0 -> cmp y z <= 0 -> cmp x z <= 0.

Lemma insert_sorted_sorted (x : A) (l : list A) :
  StronglySorted (fun a b => cmp a b <= 0) l ->
  StronglySorted (fun a b => cmp a b <= 0) (insert_sorted cmp x l).
Proof.
  induction 1 as [|y l Hs IH Hy]; simpl.
  - constructor; constructor.
  - destruct (cmp x y <=? 0) eqn:E.
    + apply Z.leb_le in E. constructor.
      * constructor; assumption.
      * constructor; [exact E|].
        eapply List.Forall_impl; [|exact Hy]. intros z Hz. exact (cmp_trans _ _ _ E Hz).
    + apply Z.leb_gt in E. constructor; [exact IH|].
      apply List.Forall_forall. intros z Hz.
      apply (Permutation_in _ (insert_sorted_Permutation x l)) in Hz.
      destruct Hz as [<-|Hz]; [exact (cmp_total _ _ E)|].
      exact (proj1 (List.Forall_forall _ _) Hy z Hz).
Qed.

Lemma Array_sort_sorted (l : list A) :
  StronglySorted (fun a b => cmp a b <= 0) (Array_sort cmp l).
Proof.
  induction l as [|x l IH]; simpl; [constructor|].
  apply insert_sorted_sorted. exact IH.
Qed.

(** The sort is stable: elements that compare equal keep their order. *)
Lemma insert_sorted_filter (P : A -> bool) (x : A) (l : list A) :
  (forall y, In y l -> 0 < cmp x y -> P x = true -> P y = false) ->
  List.filter P (insert_sorted cmp x l) = List.filter P (x :: l).
Proof.
  induction l as [|y l IH]; intros H; [reflexivity|].
  cbn [insert_sorted]. destruct (cmp x y <=? 0) eqn:E; [reflexivity|].
  apply Z.leb_gt in E. cbn [List.filter].
  rewrite IH by (intros z Hz; apply H; right; exact Hz).
  cbn [List.filter]. destruct (P x) eqn:Px; [|reflexivity].
  rewrite (H y (or_introl eq_refl) E eq_refl). reflexivity.
Qed.
End SortOrder.


Lemma StronglySorted_weaken {A : Type} (R R' : A -> A -> Prop) (l : list A) :
  (forall a b, R a b -> R' a b) -> StronglySorted R l -> StronglySorted R' l.
Proof.
  intros HR. induction 1 as [|x l Hs IH Hx]; constructor; [exact IH|].
  eapply List.Forall_impl; [|exact Hx]. intros b. apply HR.
Qed.

(** A sort by a descending integer key [(a, b) => key(b) - key(a)]. *)
Section SortByKey.
Context {A : Type} (key : A -> Z).

Lemma sort_desc_sorted (l : list A) :
  StronglySorted (fun a b => key b <= key a) (Array_sort (fun a b => key b - key a) l).
Proof.
  apply (StronglySorted_weaken (fun a b => key b - key a <= 0)); [intros; lia|].
  apply Array_sort_sorted; intros; lia.
Qed.

Lemma sort_desc_stable (k : Z) (l : list A) :
  List.filter (fun x => key x =? k) (Array_sort (fun a b => key b - key a) l)
  = List.filter (fun x => key x =? k) l.
Proof.
  induction l as [|x l IH]; [reflexivity|].
  cbn [Array_sort foldr]. fold (Array_sort (fun a b => key b - key a) l).
  rewrite insert_sorted_filter.
  - cbn [List.filter]. rewrite IH. reflexivity.
  - intros y _ Hlt Hx. apply Z.eqb_eq in Hx. apply Z.eqb_neq. lia.
Qed.
End SortByKey.

(** ** The deal-feed filter: where a lead comes from *)

Definition has_dollar (t : text) : Prop := In (N_of_ascii "$") t.

Lemma matches_seqs_char (P : char -> bool) (rs : list regex) :
  In (Chr P) rs ->
  forall (p : text) (n : captures),
    matches (seqs rs) p n -> exists c, In c p /\ P c = true.
Proof.
  induction rs as [|r rs IH]; intros Hin p n M; [contradiction|].
  change (seqs (r :: rs)) with (Seq r (seqs rs)) in M.
  apply matches_Seq_inv in M as (p1 & p2 & n1 & n2 & -> & -> & M1 & M2).
  destruct Hin as [->|Hin].
  - apply matches_Chr_inv in M1 as (c & -> & _ & Hc).
    exists c. split; [left; reflexivity|exact Hc].
  - destruct (IH Hin _ _ M2) as (c & Hc & HP).
    exists c. split; [apply in_or_app; right; exact Hc|exact HP].
Qed.

Lemma matches_seqs_dollar (rs : list regex) (p : text) (n : captures) :
  In (Chr (chr_is "$")) rs -> matches (seqs rs) p n -> has_dollar p.
Proof.
  intros Hin M. destruct (matches_seqs_char _ _ Hin _ _ M) as (c & Hc & E).
  apply N.eqb_eq in E. subst c. exact Hc.
Qed.

Lemma search_dollar (rs : list regex) (t : text) (m : captures) :
  In (Chr (chr_is "$")) rs -> search (seqs rs) t = Some m -> has_dollar t.
Proof.
  intros Hin H. apply search_matches in H as (before & p & rest & -> & M).
  apply (matches_seqs_dollar _ _ _ Hin) in M.
  apply in_or_app. right. apply in_or_app. left. exact M.
Qed.

Ltac find_dollar := simpl; repeat (first [left; reflexivity | right]).

Lemma tryPattern_dollar (rs : list regex) (i j : nat) (t : text) (p : Filter.PricePair) :
  In (Chr (chr_is "$")) rs ->
  Filter.tryPattern (seqs rs) i j t = Some p -> has_dollar t.
Proof.
  intros Hin. unfold Filter.tryPattern.
  destruct (search (seqs rs) t) as [m|] eqn:E; [|discriminate].
  intros _. exact (search_dollar _ _ _ Hin E).
Qed.

Lemma extractDealPricePair_dollar (t : text) (p : Filter.PricePair) :
  Filter.extractDealPricePair t = Some p -> has_dollar t.
Proof.
  unfold Filter.extractDealPricePair.
  destruct (Filter.tryPattern Filter.pctOffPattern 1 2 t) eqn:E1.
  { intros _. eapply (tryPattern_dollar _ _ _ _ _ _ E1). }
  destruct (Filter.tryPattern Filter.wasPattern 1 2 t) eqn:E2.
  { intros _. eapply (tryPattern_dollar _ _ _ _ _ _ E2). }
  destruct (Filter.tryPattern Filter.wasNowPattern 2 1 t) eqn:E3.
  { intros _. eapply (tryPattern_dollar _ _ _ _ _ _ E3). }
  intros E4. eapply (tryPattern_dollar _ _ _ _ _ _ E4).
  Unshelve. all: find_dollar.
Qed.

Lemma extractAllPrices_dollar (t : text) (c : Z) :
  In c (extractAllPrices t) -> has_dollar t.
Proof.
  intros H. apply extractAllPrices_amount in H
    as (_ & before & gap & whole & frac & rest & -> & _).
  apply in_or_app. right. left. reflexivity.
Qed.

Section DealOrigin.
Import Filter.
Variables cleanTitleForSearch encodeURIComponent : text -> text.

(** A lead built from a feed item: the item's own title, link and source,
    a positive deal price read next to a dollar sign. *)
Definition from_item (item : DealFeedItem) (L : QualifiedLead) : Prop :=
  raw L = RawDeal item
  /\ title L = item_title item /\ description L = item_description item
  /\ buyUrl L = item_url item /\ buySource L = item_source item
  /\ 0 < buyPrice L
  /\ (has_dollar (item_title item) \/ has_dollar (item_description item)).

Lemma has_dollar_fullText (item : DealFeedItem) :
  has_dollar (fullText item) ->
  has_dollar (item_title item) \/ has_dollar (item_description item).
Proof.
  unfold has_dollar, fullText. intros H.
  apply in_app_or in H as [H|H]; [left; exact H|].
  apply in_app_or in H as [H|H]; [|right; exact H].
  simpl in H. destruct H as [H|[]]. discriminate.
Qed.

Lemma dealLead_from_item (item : DealFeedItem) (deal regular : Z) (pct : Q)
    (conf : Confidence) (spt : option SellPriceType) :
  0 < deal ->
  has_dollar (item_title item) \/ has_dollar (item_description item) ->
  from_item item
    (dealLead cleanTitleForSearch encodeURIComponent item deal regular pct conf spt).
Proof. intros Hd H. repeat split; try reflexivity; assumption. Qed.

Lemma titlePricePair_dollar (item : DealFeedItem) (p : PricePair) :
  titlePricePair item = Some p ->
  has_dollar (item_title item) \/ has_dollar (item_description item).
Proof.
  unfold titlePricePair.
  destruct (extractDealPricePair (item_title item)) eqn:E.
  - intros _. left. exact (extractDealPricePair_dollar _ _ E).
  - intros H. apply has_dollar_fullText. exact (extractDealPricePair_dollar _ _ H).
Qed.

Lemma dealFromPair_from_item (item : DealFeedItem) (m : Q)
    (spt : option SellPriceType) (p : PricePair) (L : QualifiedLead) :
  titlePricePair item = Some p ->
  dealFromPair cleanTitleForSearch encodeURIComponent item m spt p = Some L ->
  from_item item L.
Proof.
  intros Hp. unfold dealFromPair.
  destruct (Qgeb _ m); [|discriminate].
  intros H. injection H as <-. apply dealLead_from_item.
  - exact (proj1 (titlePricePair_ordered item p Hp)).
  - exact (titlePricePair_dollar item p Hp).
Qed.

Lemma title_price_dollar (item : DealFeedItem) :
  extractAllPrices (item_title item) <> [] -> has_dollar (item_title item).
Proof.
  destruct (extractAllPrices (item_title item)) as [|c l] eqn:E; [congruence|].
  intros _. apply (extractAllPrices_dollar _ c). rewrite E. left. reflexivity.
Qed.

Lemma dealFallback1_from_item (item : DealFeedItem) (m : Q)
    (spt : option SellPriceType) (next : option QualifiedLead) (L : QualifiedLead) :
  dealFallback1 cleanTitleForSearch encodeURIComponent item m spt next = Some L ->
  from_item item L \/ next = Some L.
Proof.
  unfold dealFallback1.
  destruct (length (extractAllPrices (item_title item)) =? 2)%nat eqn:El; [|auto].
  set (sorted := Array_sort (fun a b => a - b) (extractAllPrices (item_title item))).
  destruct ((nth 0 sorted 0 <? nth 1 sorted 0) && (0 <? nth 0 sorted 0)) eqn:E; [|auto].
  destruct (Qgeb _ m); [|auto].
  intros H. injection H as <-. left.
  apply andb_true_iff in E as [_ E]. apply Z.ltb_lt in E.
  apply dealLead_from_item; [exact E|]. left. apply title_price_dollar.
  intros C. rewrite C in El. discriminate.
Qed.

Lemma dealFallback3_from_item (item : DealFeedItem) (m : Q) (L : QualifiedLead) :
  dealFallback3 cleanTitleForSearch encodeURIComponent item m = Some L ->
  from_item item L.
Proof.
  unfold dealFallback3.
  destruct (extractAllPrices (item_title item)) as [|deal rest] eqn:Et; [discriminate|].
  destruct (2 <=? length (extractAllPrices (fullText item)))%nat; [|discriminate].
  destruct (List.filter _ (extractAllPrices (fullText item))) as [|o others'];
    [discriminate|].
  match goal with
  | |- context [if ?c then _ else _] => destruct c eqn:E
  end; [|discriminate].
  intros H. injection H as <-.
  apply andb_true_iff in E as [_ E]. apply Z.ltb_lt in E.
  apply dealLead_from_item; [exact E|]. left. apply title_price_dollar.
  rewrite Et. discriminate.
Qed.

Lemma dealFallback2_from_item (item : DealFeedItem) (m : Q) (L : QualifiedLead) :
  dealFallback2 cleanTitleForSearch encodeURIComponent item m = Some L ->
  from_item item L.
Proof.
  unfold dealFallback2.
  destruct (search pctPattern (fullText item)) as [caps|];
    [|apply dealFallback3_from_item].
  destruct (extractAllPrices (item_title item)) as [|deal [|second rest]] eqn:Et;
    try apply dealFallback3_from_item.
  destruct (Qgeb _ m && _) eqn:E; [|apply dealFallback3_from_item].
  match goal with
  | |- context [if ?c then _ else _] => destruct c eqn:Ec
  end; [|apply dealFallback3_from_item].
  intros H. injection H as <-.
  apply andb_true_iff in Ec as [_ Ec]. apply Z.ltb_lt in Ec.
  apply dealLead_from_item; [exact Ec|]. left. apply title_price_dollar.
  rewrite Et. discriminate.
Qed.

Lemma dealFeedLead_from_item (m : Q) (item : DealFeedItem) (L : QualifiedLead) :
  dealFeedLead cleanTitleForSearch encodeURIComponent m item = Some L ->
  from_item item L.
Proof.
  unfold dealFeedLead. destruct (titlePricePair item) as [p|] eqn:E.
  - apply dealFromPair_from_item. exact E.
  - intros H. destruct (dealFallback1_from_item _ _ _ _ _ H) as [H'|H']; [exact H'|].
    exact (dealFallback2_from_item _ _ _ H').
Qed.

Lemma dealFeedLead_rev0_from_item (m : Q) (item : DealFeedItem) (L : QualifiedLead) :
  Rev0.dealFeedLead cleanTitleForSearch encodeURIComponent m item = Some L ->
  from_item item L.
Proof.
  unfold Rev0.dealFeedLead. destruct (titlePricePair item) as [p|] eqn:E.
  - apply dealFromPair_from_item. exact E.
  - intros H. destruct (dealFallback1_from_item _ _ _ _ _ H) as [H'|H'];
      [exact H'|discriminate].
Qed.

Lemma omap_length_le {B C : Type} (f : B -> option C) (l : list B) :
  (length (omap f l) <= length l)%nat.
Proof.
  induction l as [|x l IH]; [reflexivity|].
  cbn [omap list_omap length]. fold (omap f l). destruct (f x); cbn [length]; lia.
Qed.
End DealOrigin.

(** X3. Every lead of the deal-feed filter is built from one of the items
    given: it carries that item's title, description, link and source, its
    buy price is positive, and the item shows a dollar sign in its title or
    its description.  (Both revisions.) *)
Theorem deal_leads_come_from_priced_items
    (cleanTitleForSearch encodeURIComponent : text -> text)
    (items : list DealFeedItem) (minDiscountPercent : Q) (L : Filter.QualifiedLead) :
  In L (Filter.filterDealFeedItems cleanTitleForSearch encodeURIComponent
          items minDiscountPercent)
  \/ In L (Filter.Rev0.filterDealFeedItems cleanTitleForSearch encodeURIComponent
             items minDiscountPercent) ->
  exists item, In item items /\ from_item item L.
Proof.
  intros [H|H].
  - unfold Filter.filterDealFeedItems in H. apply Array_sort_In in H.
    apply In_omap in H as (item & Hin & Hitem).
    exists item. split; [exact Hin|].
    exact (dealFeedLead_from_item _ _ _ _ _ Hitem).
  - unfold Filter.Rev0.filterDealFeedItems in H. apply Array_sort_In in H.
    apply In_omap in H as (item & Hin & Hitem).
    exists item. split; [exact Hin|].
    exact (dealFeedLead_rev0_from_item _ _ _ _ _ Hitem).
Qed.

Lemma deal_leads_come_from_priced_items_witness :
  exists item, In item [penny_deal] /\
    from_item item
      (Filter.dealLead (fun t => t) (fun t => t) penny_deal 100 200
         (Filter.percent 100 200) Filter.medium (Some Filter.estimated)).
Proof.
  apply (deal_leads_come_from_priced_items (fun t => t) (fun t => t) [penny_deal] 25%Q).
  left. vm_compute. left. reflexivity.
Defined.

(** X4. The leads of the deal-feed filter are the leads of the single items,
    ordered by estimated spread, largest first; leads of equal spread keep
    the order of the feed; there is at most one lead per item. *)
Theorem deal_leads_sorted_by_spread
    (cleanTitleForSearch encodeURIComponent : text -> text)
    (items : list DealFeedItem) (minDiscountPercent : Q) :
  let result := Filter.filterDealFeedItems cleanTitleForSearch encodeURIComponent
                  items minDiscountPercent in
  let perItem := omap (Filter.dealFeedLead cleanTitleForSearch encodeURIComponent
                         minDiscountPercent) items in
  StronglySorted (fun a b => Filter.estimatedSpread b <= Filter.estimatedSpread a) result
  /\ Permutation result perItem
  /\ (forall spread,
        List.filter (fun L => Filter.estimatedSpread L =? spread) result
        = List.filter (fun L => Filter.estimatedSpread L =? spread) perItem)
  /\ (length result <= length items)%nat.
Proof.
  intros result perItem. unfold result, Filter.filterDealFeedItems, Filter.bySpreadDesc.
  fold perItem. repeat split.
  - apply (sort_desc_sorted Filter.estimatedSpread).
  - apply Array_sort_Permutation.
  - intros spread. apply (sort_desc_stable Filter.estimatedSpread).
  - rewrite Array_sort_length. apply omap_length_le.
Qed.

(** ** The resale filter: shape and origin of its result *)

(** A lead built from a scouted lead and the resale entry found for it. *)
Definition from_lead (data : gmap text Filter.ResalePriceInfo) (lead : ScoutLead)
    (L : Filter.QualifiedLead) : Prop :=
  Filter.raw L = Filter.RawScout lead
  /\ Filter.title L = lead_title lead /\ Filter.description L = lead_snippet lead
  /\ Filter.buyUrl L = lead_url lead /\ Filter.buySource L = lead_source lead
  /\ Filter.category L = lead_category lead
  /\ priceFound lead = Some (Filter.buyPrice L) /\ 0 < Filter.buyPrice L
  /\ exists resale,
       Filter.lookupResale data lead = Some resale
       /\ (Filter.sellPriceType L <> Some Filter.research_needed ->
           Filter.sellPriceEstimate L = Filter.estimatedPrice resale
           /\ Filter.sellSource L = Filter.platform resale
           /\ Filter.sellPriceType L = Filter.priceType resale).

(** A lead that still needs research carries no sell price at all. *)
Definition unpriced (L : Filter.QualifiedLead) : Prop :=
  Filter.sellPriceType L = Some Filter.research_needed
  /\ Filter.sellPriceEstimate L = 0 /\ Filter.estimatedSpread L = 0
  /\ Filter.spreadPercent L = 0%Q /\ Filter.confidence L = Filter.low
  /\ Filter.sellSource L = str "Unknown".

Section ResaleShape.
Import Filter.
Variables cleanTitleForSearch encodeURIComponent : text -> text.
Variable data : gmap text ResalePriceInfo.
Variables (mp : Z) (ms : Q).

Local Abbreviation stepf :=
  (filterLeadStep cleanTitleForSearch encodeURIComponent data mp ms).

Lemma filterLeadStep_cases (acc : list QualifiedLead * list QualifiedLead)
    (lead : ScoutLead) :
  stepf acc lead = acc
  \/ (exists L, stepf acc lead = (acc.1 ++ [L], acc.2)
                /\ from_lead data lead L
                /\ sellPriceType L <> Some research_needed)
  \/ (exists L, stepf acc lead = (acc.1, acc.2 ++ [L])
                /\ from_lead data lead L /\ unpriced L).
Proof.
  destruct acc as [q u]. unfold filterLeadStep.
  destruct (priceFound lead) as [price|] eqn:Ep; [|left; reflexivity].
  destruct (price <=? 0) eqn:E0; [left; reflexivity|]. apply Z.leb_gt in E0.
  destruct (lookupResale data lead) as [resale|] eqn:Er; [|left; reflexivity].
  destruct ((estimatedPrice resale =? 0) || is_research_needed (priceType resale)) eqn:En.
  - right. right. eexists. split; [reflexivity|]. split.
    + repeat split; try reflexivity; try assumption.
      exists resale. split; [exact Er|]. intros C. exfalso. apply C. reflexivity.
    + repeat split; reflexivity.
  - destruct (estimatedPrice resale - price <? mp); [left; reflexivity|].
    destruct (Qltb _ ms); [left; reflexivity|].
    right. left. eexists. split; [reflexivity|].
    apply orb_false_iff in En as [_ En]. split.
    + repeat split; try reflexivity; try assumption.
      exists resale. split; [exact Er|]. intros _. repeat split; reflexivity.
    + simpl. intros C. rewrite C in En. discriminate.
Qed.

Lemma filterLeads_fold_origin (all leads : list ScoutLead)
    (acc : list QualifiedLead * list QualifiedLead) :
  (forall x, In x leads -> In x all) ->
  Forall (fun L => (exists lead, In lead all /\ from_lead data lead L)
                   /\ sellPriceType L <> Some research_needed) acc.1 ->
  Forall (fun L => (exists lead, In lead all /\ from_lead data lead L)
                   /\ unpriced L) acc.2 ->
  let acc' := fold_left stepf leads acc in
  Forall (fun L => (exists lead, In lead all /\ from_lead data lead L)
                   /\ sellPriceType L <> Some research_needed) acc'.1
  /\ Forall (fun L => (exists lead, In lead all /\ from_lead data lead L)
                      /\ unpriced L) acc'.2
  /\ (length acc'.1 + length acc'.2 <= length acc.1 + length acc.2 + length leads)%nat.
Proof.
  revert acc. induction leads as [|lead leads IH]; intros acc Hall H1 H2.
  - simpl. repeat split; [assumption..|lia].
  - cbn [fold_left].
    assert (Hin : In lead all) by (apply Hall; left; reflexivity).
    assert (Hall' : forall x, In x leads -> In x all)
      by (intros x Hx; apply Hall; right; exact Hx).
    destruct (filterLeadStep_cases acc lead)
      as [E|[(L & E & HL & Hn)|(L & E & HL & Hu)]]; rewrite E.
    + destruct (IH acc Hall' H1 H2) as (I1 & I2 & I3).
      repeat split; [assumption..|]. simpl. lia.
    + destruct (IH (acc.1 ++ [L], acc.2) Hall') as (I1 & I2 & I3).
      * simpl. apply List.Forall_app. split; [exact H1|].
        constructor; [|constructor]. split; [exists lead; split; assumption|exact Hn].
      * exact H2.
      * repeat split; [assumption..|].
        simpl in I3. rewrite length_app in I3. simpl in I3 |- *. lia.
    + destruct (IH (acc.1, acc.2 ++ [L]) Hall') as (I1 & I2 & I3).
      * exact H1.
      * simpl. apply List.Forall_app. split; [exact H2|].
        constructor; [|constructor]. split; [exists lead; split; assumption|exact Hu].
      * repeat split; [assumption..|].
        simpl in I3. rewrite length_app in I3. simpl in I3 |- *. lia.
Qed.

Lemma filterLeadsWithPriceData_shape (leads : list ScoutLead) :
  exists priced research,
    filterLeadsWithPriceData cleanTitleForSearch encodeURIComponent leads data mp ms
    = priced ++ research
    /\ StronglySorted (fun a b => estimatedSpread b <= estimatedSpread a) priced
    /\ Forall (fun L => (exists lead, In lead leads /\ from_lead data lead L)
                        /\ sellPriceType L <> Some research_needed) priced
    /\ Forall (fun L => (exists lead, In lead leads /\ from_lead data lead L)
                        /\ unpriced L) research
    /\ (length research <= 5)%nat
    /\ (length priced + length research <= length leads)%nat.
Proof.
  unfold filterLeadsWithPriceData.
  pose proof (filterLeads_fold_origin leads leads ([], []) (fun x H => H)
                (List.Forall_nil _) (List.Forall_nil _)) as H.
  destruct (fold_left stepf leads ([], [])) as [qualified unresearched].
  simpl in H. destruct H as (H1 & H2 & H3).
  exists (Array_sort bySpreadDesc qualified), (take 5 unresearched).
  repeat split.
  - apply (sort_desc_sorted estimatedSpread).
  - apply List.Forall_forall. intros L HL. apply Array_sort_In in HL.
    exact (proj1 (List.Forall_forall _ _) H1 L HL).
  - apply List.Forall_forall. intros L HL. apply In_take in HL.
    exact (proj1 (List.Forall_forall _ _) H2 L HL).
  - rewrite length_take. lia.
  - rewrite Array_sort_length, length_take. lia.
Qed.
End ResaleShape.

(** X5. The result of the resale filter is a block of priced leads in
    descending order of estimated spread, followed by at most five leads
    that still need research; these carry a sell price of zero, a spread of
    zero and low confidence.  The result is never longer than the input. *)
Theorem resale_filter_result_shape
    (cleanTitleForSearch encodeURIComponent : text -> text)
    (leads : list ScoutLead) (data : gmap text Filter.ResalePriceInfo)
    (minProfitCents : Z) (minSpreadPercent : Q) :
  exists priced research,
    Filter.filterLeadsWithPriceData cleanTitleForSearch encodeURIComponent
      leads data minProfitCents minSpreadPercent
    = priced ++ research
    /\ StronglySorted
         (fun a b => Filter.estimatedSpread b <= Filter.estimatedSpread a) priced
    /\ Forall (fun L => Filter.sellPriceType L <> Some Filter.research_needed) priced
    /\ Forall unpriced research
    /\ (length research <= 5)%nat
    /\ (length priced + length research <= length leads)%nat.
Proof.
  destruct (filterLeadsWithPriceData_shape cleanTitleForSearch encodeURIComponent
              data minProfitCents minSpreadPercent leads)
    as (priced & research & E & Hs & Hp & Hr & H5 & Hlen).
  exists priced, research. repeat split; try assumption.
  - eapply List.Forall_impl; [|exact Hp]. intros L [_ H]. exact H.
  - eapply List.Forall_impl; [|exact Hr]. intros L [_ H]. exact H.
Qed.

(** X6. Every lead of the resale filter is built from one of the scouted
    leads given: it has that lead's title, snippet, link, source and
    category, its buy price is the lead's price and is positive, and a
    resale entry is stored under the lead's link or title; unless the lead
    needs research, sell price, platform and price type are that entry's. *)
Theorem resale_leads_come_from_priced_leads
    (cleanTitleForSearch encodeURIComponent : text -> text)
    (leads : list ScoutLead) (data : gmap text Filter.ResalePriceInfo)
    (minProfitCents : Z) (minSpreadPercent : Q) (L : Filter.QualifiedLead) :
  In L (Filter.filterLeadsWithPriceData cleanTitleForSearch encodeURIComponent
          leads data minProfitCents minSpreadPercent) ->
  exists lead, In lead leads /\ from_lead data lead L.
Proof.
  destruct (filterLeadsWithPriceData_shape cleanTitleForSearch encodeURIComponent
              data minProfitCents minSpreadPercent leads)
    as (priced & research & E & Hs & Hp & Hr & H5 & Hlen).
  rewrite E. intros H. apply in_app_or in H as [H|H].
  - exact (proj1 (proj1 (List.Forall_forall _ _) Hp L H)).
  - exact (proj1 (proj1 (List.Forall_forall _ _) Hr L H)).
Qed.

Lemma resale_leads_come_from_priced_leads_witness :
  exists lead, In lead [sample_lead] /\
    from_lead {[ lead_url sample_lead := sample_resale ]} lead
      (Filter.resaleLead (fun t => t) (fun t => t) sample_lead 10000 sample_resale
         8900 (Filter.percent 8900 10000) (Some Filter.verified)).
Proof.
  apply (resale_leads_come_from_priced_leads (fun t => t) (fun t => t)
           [sample_lead] {[ lead_url sample_lead := sample_resale ]} 1000 15%Q).
  vm_compute. left. reflexivity.
Defined.

(** ** Crypto spread detection *)

Section SpreadFacts.
Import Filter Runner Spreads.

Definition samePair (k : text) (prices : list CryptoPrice) : list CryptoPrice :=
  List.filter (fun p => bool_decide (cp_pair p = k)) prices.

(** The groups after the quotes [prices] have been added: one group per
    pair that occurs, holding the quotes of that pair in their order. *)
Definition grouped (prices : list CryptoPrice) (m : list (text * list CryptoPrice))
    : Prop :=
  List.NoDup (map fst m)
  /\ forall k g, In (k, g) m <-> g = samePair k prices /\ g <> [].

Lemma samePair_snoc (k : text) (prices : list CryptoPrice) (p : CryptoPrice) :
  samePair k (prices ++ [p])
  = samePair k prices ++ (if bool_decide (cp_pair p = k) then [p] else []).
Proof. unfold samePair. rewrite List.filter_app. reflexivity. Qed.

Lemma addQuote_keys (p : CryptoPrice) (m : list (text * list CryptoPrice)) (k : text) :
  In k (map fst (addQuote p m)) <-> k = cp_pair p \/ In k (map fst m).
Proof.
  induction m as [|[k0 g0] m IH]; simpl.
  - split; [intros [H|[]]; left; congruence|intros [H|[]]; left; congruence].
  - destruct (bool_decide (k0 = cp_pair p)) eqn:E; simpl.
    + apply bool_decide_eq_true in E. subst k0. intuition congruence.
    + rewrite IH. intuition congruence.
Qed.

Lemma addQuote_NoDup (p : CryptoPrice) (m : list (text * list CryptoPrice)) :
  List.NoDup (map fst m) -> List.NoDup (map fst (addQuote p m)).
Proof.
  induction m as [|[k0 g0] m IH]; simpl; intros H.
  - constructor; [intros []|constructor].
  - apply List.NoDup_cons_iff in H as [Hn H].
    destruct (bool_decide (k0 = cp_pair p)) eqn:E; simpl.
    + constructor; assumption.
    + apply bool_decide_eq_false in E. constructor; [|exact (IH H)].
      rewrite addQuote_keys. intros [C|C]; [congruence|contradiction].
Qed.

Lemma addQuote_In (p : CryptoPrice) (m : list (text * list CryptoPrice))
    (k : text) (g : list CryptoPrice) :
  List.NoDup (map fst m) ->
  In (k, g) (addQuote p m)
  <-> (k <> cp_pair p /\ In (k, g) m)
      \/ (k = cp_pair p
          /\ ((exists g0, In (k, g0) m /\ g = g0 ++ [p])
              \/ (~ In k (map fst m) /\ g = [p]))).
Proof.
  induction m as [|[k0 g0] m IH]; simpl; intros Hnd.
  - split.
    + intros [H|[]]. injection H as <- <-. right. split; [reflexivity|].
      right. split; [intros []|reflexivity].
    + intros [[_ []]|[-> [(g1 & [] & _)|[_ ->]]]]. left. reflexivity.
  - apply List.NoDup_cons_iff in Hnd as [Hn Hnd].
    destruct (bool_decide (k0 = cp_pair p)) eqn:E; simpl.
    + apply bool_decide_eq_true in E. subst k0. split.
      * intros [H|H].
        -- injection H as <- <-. right. split; [reflexivity|].
           left. exists g0. split; [left; reflexivity|reflexivity].
        -- left. split; [|right; exact H].
           intros ->. apply Hn. apply (in_map fst) in H. exact H.
      * intros [[Hk [H|H]]|[-> [(g1 & [H|H] & ->)|[Hk _]]]].
        -- injection H as E1 _. congruence.
        -- right. exact H.
        -- injection H as <-. left. reflexivity.
        -- exfalso. apply Hn. apply (in_map fst) in H. exact H.
        -- exfalso. apply Hk. left. reflexivity.
    + apply bool_decide_eq_false in E. rewrite (IH Hnd). split.
      * intros [H|[H|[Hk [(g1 & H & ->)|[H ->]]]]].
        -- injection H as <- <-. left. split; [exact E|left; reflexivity].
        -- left. split; [tauto|right; tauto].
        -- right. split; [exact Hk|]. left. exists g1. split; [right; exact H|reflexivity].
        -- right. split; [exact Hk|]. right. split; [|reflexivity].
           intros [C|C]; [congruence|contradiction].
      * intros [[Hk [H|H]]|[Hk [(g1 & [H|H] & ->)|[H ->]]]].
        -- left. exact H.
        -- right. left. split; assumption.
        -- injection H as E1 _. congruence.
        -- right. right. split; [exact Hk|]. left. exists g1. split; [exact H|reflexivity].
        -- right. right. split; [exact Hk|]. right. split; [tauto|reflexivity].
Qed.

Lemma grouped_snoc (prices : list CryptoPrice) (p : CryptoPrice)
    (m : list (text * list CryptoPrice)) :
  grouped prices m -> grouped (prices ++ [p]) (addQuote p m).
Proof.
  intros [Hnd Hm]. split; [apply addQuote_NoDup; exact Hnd|].
  intros k g. rewrite (addQuote_In p m k g Hnd), samePair_snoc. split.
  - intros [[Hk H]|[-> [(g0 & H & ->)|[Hk ->]]]].
    + apply Hm in H as [-> Hne].
      rewrite bool_decide_eq_false_2 by congruence.
      rewrite app_nil_r. split; [reflexivity|exact Hne].
    + apply Hm in H as [-> Hne]. rewrite bool_decide_eq_true_2 by reflexivity.
      split; [reflexivity|]. intros C. apply app_eq_nil in C as [_ C]. discriminate.
    + rewrite bool_decide_eq_true_2 by reflexivity.
      assert (E : samePair (cp_pair p) prices = []).
      { destruct (samePair (cp_pair p) prices) as [|x l] eqn:E; [reflexivity|].
        exfalso. apply Hk. apply (in_map fst m (cp_pair p, x :: l)).
        apply Hm. split; [symmetry; exact E|discriminate]. }
      rewrite E. split; [reflexivity|discriminate].
  - intros [-> Hne]. destruct (bool_decide (cp_pair p = k)) eqn:E.
    + apply bool_decide_eq_true in E. subst k. right. split; [reflexivity|].
      destruct (samePair (cp_pair p) prices) as [|x l] eqn:Es.
      * right. split; [|reflexivity]. intros C.
        apply in_map_iff in C as ([k' g'] & Ek & C). simpl in Ek. subst k'.
        apply Hm in C as [-> C]. apply C. exact Es.
      * left. exists (x :: l). split; [|reflexivity].
        apply Hm. split; [symmetry; exact Es|discriminate].
    + apply bool_decide_eq_false in E. left. split; [congruence|].
      rewrite app_nil_r in Hne |- *. apply Hm. split; [reflexivity|exact Hne].
Qed.

Lemma groupByPair_grouped (prices : list CryptoPrice) :
  grouped prices (groupByPair prices).
Proof.
  induction prices as [|p prices IH] using rev_ind.
  - split; [constructor|]. intros k g. simpl. split; [intros []|intros [-> C]; congruence].
  - unfold groupByPair. rewrite fold_left_app. simpl. apply grouped_snoc. exact IH.
Qed.

(** The nested loops visit every two quotes of the group, the earlier one
    as [a]. *)
Lemma pairSpreads_In (pair : text) (m : Q) (g : list CryptoPrice) (s : CryptoSpread) :
  In s (pairSpreads pair m g)
  <-> exists a b, [a; b] `sublist_of` g /\ spreadOf pair m a b = Some s.
Proof.
  induction g as [|x g IH]; simpl.
  - split; [intros []|]. intros (a & b & H & _). apply sublist_nil_r in H. discriminate.
  - rewrite in_app_iff, IH. split.
    + intros [H|(a & b & H & Hs)].
      * apply In_omap in H as (b & Hb & Hs). exists x, b. split; [|exact Hs].
        apply sublist_skip. apply singleton_sublist_l. apply list_elem_of_In. exact Hb.
      * exists a, b. split; [apply sublist_cons; exact H|exact Hs].
    + intros (a & b & H & Hs). apply sublist_cons_r in H as [H|(l' & E & H)].
      * right. exists a, b. split; assumption.
      * injection E as E1 E2. subst x l'. left.
        apply singleton_sublist_l in H. apply list_elem_of_In in H.
        clear IH. induction g as [|y g IHg]; [contradiction|].
        cbn [omap list_omap]. fold (omap (spreadOf pair m a) g).
        destruct H as [->|H].
        -- rewrite Hs. left. reflexivity.
        -- destruct (spreadOf pair m a y); [right|]; exact (IHg H).
Qed.

Lemma sublist_filter_mono {B : Type} (P : B -> bool) (l1 l2 : list B) :
  l1 `sublist_of` l2 -> List.filter P l1 `sublist_of` List.filter P l2.
Proof.
  induction 1 as [|x l1 l2 H IH|x l1 l2 H IH]; simpl.
  - constructor.
  - destruct (P x); [apply sublist_skip|]; exact IH.
  - destruct (P x); [apply sublist_cons|]; exact IH.
Qed.

Lemma filter_sublist {B : Type} (P : B -> bool) (l : list B) :
  List.filter P l `sublist_of` l.
Proof.
  induction l as [|x l IH]; simpl; [constructor|].
  destruct (P x); [apply sublist_skip|apply sublist_cons]; exact IH.
Qed.

Lemma samePair_In (k : text) (prices : list CryptoPrice) (p : CryptoPrice) :
  In p (samePair k prices) -> cp_pair p = k.
Proof.
  unfold samePair. intros H. apply filter_In in H as [_ H].
  apply bool_decide_eq_true in H. exact H.
Qed.

(** Which spreads are found: one for every two quotes of the same pair,
    the earlier quote taken as [a], whose relative spread reaches the
    threshold. *)
Lemma findCryptoSpreads_In (prices : list CryptoPrice) (m : Q) (s : CryptoSpread) :
  In s (findCryptoSpreads prices m)
  <-> exists a b,
        [a; b] `sublist_of` prices /\ cp_pair a = cp_pair b
        /\ spreadOf (cp_pair a) m a b = Some s.
Proof.
  unfold findCryptoSpreads. rewrite Array_sort_In, in_flat_map.
  destruct (groupByPair_grouped prices) as [_ Hm]. split.
  - intros ([k g] & Hg & Hs). apply Hm in Hg as [-> _].
    destruct (length (samePair k prices) <? 2)%nat; [contradiction|].
    apply pairSpreads_In in Hs as (a & b & Hsub & Hs).
    assert (Ha : cp_pair a = k).
    { apply (samePair_In k prices).
      apply list_elem_of_In. eapply elem_of_sublist; [|exact Hsub]. left. }
    assert (Hb : cp_pair b = k).
    { apply (samePair_In k prices).
      apply list_elem_of_In. eapply elem_of_sublist; [|exact Hsub]. right. left. }
    exists a, b. repeat split.
    + etransitivity; [exact Hsub|apply filter_sublist].
    + congruence.
    + rewrite Ha. exact Hs.
  - intros (a & b & Hsub & Hab & Hs).
    assert (Hsub' : [a; b] `sublist_of` samePair (cp_pair a) prices).
    { apply (sublist_filter_mono (fun p => bool_decide (cp_pair p = cp_pair a))) in Hsub.
      simpl in Hsub. rewrite bool_decide_eq_true_2 in Hsub by reflexivity.
      rewrite bool_decide_eq_true_2 in Hsub by (symmetry; exact Hab). exact Hsub. }
    exists (cp_pair a, samePair (cp_pair a) prices). split.
    + apply Hm. split; [reflexivity|]. intros C. rewrite C in Hsub'.
      apply sublist_nil_r in Hsub'. discriminate.
    + pose proof (sublist_length _ _ Hsub') as Hl. simpl in Hl.
      destruct (length (samePair (cp_pair a) prices) <? 2)%nat eqn:E.
      * apply Nat.ltb_lt in E. lia.
      * apply pairSpreads_In. exists a, b. split; assumption.
Qed.
End SpreadFacts.

Section SpreadOrder.
Import Filter Runner Spreads.

Lemma sgn_Qnum_le (q : Q) : Z.sgn (Qnum q) <= 0 <-> (q <= 0)%Q.
Proof. unfold Qle. simpl. destruct (Qnum q); simpl; lia. Qed.

Lemma byPercentDesc_le (a b : CryptoSpread) :
  byPercentDesc a b <= 0 <-> (spreadPercent b <= spreadPercent a)%Q.
Proof.
  unfold byPercentDesc. rewrite sgn_Qnum_le.
  unfold Qle, Qminus, Qplus, Qopp. simpl. lia.
Qed.

Lemma findCryptoSpreads_sorted (prices : list CryptoPrice) (m : Q) :
  StronglySorted (fun a b => (spreadPercent b <= spreadPercent a)%Q)
    (findCryptoSpreads prices m).
Proof.
  unfold findCryptoSpreads.
  apply (StronglySorted_weaken (fun a b => byPercentDesc a b <= 0)).
  - intros a b. apply byPercentDesc_le.
  - apply Array_sort_sorted.
    + intros x y H. apply byPercentDesc_le.
      destruct (Qlt_le_dec (spreadPercent y) (spreadPercent x)) as [L|L]; [|exact L].
      exfalso. assert (byPercentDesc x y <= 0); [|lia].
      apply byPercentDesc_le. apply Qlt_le_weak. exact L.
    + intros x y z H1 H2. apply byPercentDesc_le.
      apply byPercentDesc_le in H1, H2. eapply Qle_trans; eassumption.
Qed.

Lemma spreadOf_fields (k : text) (m : Q) (a b : CryptoPrice) (s : CryptoSpread) :
  spreadOf k m a b = Some s ->
  exists low high,
    ((low = a /\ high = b) \/ (low = b /\ high = a))
    /\ (cp_price low <= cp_price high)%Q
    /\ pair s = k
    /\ buyExchange s = cp_exchange low /\ spread_buyPrice s = cp_price low
    /\ spread_buyUrl s = cp_url low
    /\ sellExchange s = cp_exchange high /\ spread_sellPrice s = cp_price high
    /\ spread_sellUrl s = cp_url high
    /\ spreadAmount s = (cp_price high - cp_price low)%Q
    /\ spreadPercent s = ((cp_price high - cp_price low) / cp_price low * 100)%Q
    /\ (m <= spreadPercent s)%Q.
Proof.
  unfold spreadOf. destruct (Qltb (cp_price a) (cp_price b)) eqn:E.
  - destruct (Qgeb _ m) eqn:G; [|discriminate]. intros H. injection H as <-.
    exists a, b. simpl. repeat split; try reflexivity; [left; tauto| |apply Qgeb_true; exact G].
    unfold Qltb in E. apply negb_true_iff in E.
    apply Qlt_le_weak. apply Qnot_le_lt. intros C. apply Qle_bool_iff in C. congruence.
  - destruct (Qgeb _ m) eqn:G; [|discriminate]. intros H. injection H as <-.
    exists b, a. simpl. repeat split; try reflexivity; [right; tauto| |apply Qgeb_true; exact G].
    apply Qltb_false. exact E.
Qed.
End SpreadOrder.



Definition quote (exchange pair : string) (price : Q) : Filter.CryptoPrice :=
  {| Filter.cp_exchange := str exchange; Filter.cp_pair := str pair;
     Filter.cp_price := price; Filter.cp_url := [] |}.

Definition sample_quotes : list Filter.CryptoPrice :=
  [quote "Binance" "BTC/USD" 100; quote "Binance" "ETH/USD" 10;
   quote "Coinbase" "BTC/USD" 101; quote "Kraken" "BTC/USD" (1002 # 10)].

Example findCryptoSpreads_sample :
  map (fun s => (Runner.buyExchange s, Runner.sellExchange s, Runner.spreadAmount s))
    (Spreads.findCryptoSpreads sample_quotes (3 # 10))
  = [(str "Binance", str "Coinbase", 1%Q); (str "Kraken", str "Coinbase", 8 # 10)].
Proof. vm_compute. reflexivity. Qed.

Definition sample_spread : Runner.CryptoSpread :=
  Eval vm_compute in
    hd spread_100_101 (Spreads.findCryptoSpreads sample_quotes (3 # 10)).

Lemma sample_quotes_positive (p : Filter.CryptoPrice) :
  In p sample_quotes -> (0 < Filter.cp_price p)%Q.
Proof. intros [<-|[<-|[<-|[<-|[]]]]]; reflexivity. Qed.


(** X9. The spreads come out in descending order of their percentage, and
    a pair quoted only once yields no spread. *)
Theorem crypto_spreads_sorted_by_percentage
    (prices : list Filter.CryptoPrice) (minSpreadPercent : Q) :
  StronglySorted (fun a b => (Runner.spreadPercent b <= Runner.spreadPercent a)%Q)
    (Spreads.findCryptoSpreads prices minSpreadPercent)
  /\ (List.NoDup (map Filter.cp_pair prices) ->
      Spreads.findCryptoSpreads prices minSpreadPercent = []).
Proof.
  split; [apply findCryptoSpreads_sorted|].
  intros Hnd.
  destruct (Spreads.findCryptoSpreads prices minSpreadPercent) as [|s l] eqn:E;
    [reflexivity|exfalso].
  assert (H : In s (Spreads.findCryptoSpreads prices minSpreadPercent))
    by (rewrite E; left; reflexivity).
  apply findCryptoSpreads_In in H as (a & b & Hsub & Hab & _).
  apply (fmap_sublist Filter.cp_pair) in Hsub.
  apply NoDup_ListNoDup in Hnd.
  pose proof (sublist_NoDup _ _ Hnd Hsub) as C.
  simpl in C. rewrite Hab in C. apply NoDup_cons in C as [C _].
  apply C. left.
Qed.

Lemma crypto_spreads_sorted_by_percentage_witness :
  Spreads.findCryptoSpreads
    [quote "Binance" "BTC/USD" 100; quote "Kraken" "ETH/USD" 10] (3 # 10) = [].
Proof.
  apply (proj2 (crypto_spreads_sorted_by_percentage
                  [quote "Binance" "BTC/USD" 100; quote "Kraken" "ETH/USD" 10] (3 # 10))).
  repeat constructor; simpl; intuition discriminate.
Defined.

Section OpportunityFacts.
Import Runner.

Lemma Math_round_mono (x y : Q) : (x <= y)%Q -> Math_round x <= Math_round y.
Proof.
  intros H. unfold Math_round. apply Qfloor_resp_le.
  apply Qplus_le_l. exact H.
Qed.

Lemma Math_round_nonneg (x : Q) : (0 <= x)%Q -> 0 <= Math_round x.
Proof.
  intros H. change 0 with (Math_round 0). apply Math_round_mono. exact H.
Qed.

Lemma Qmult_100_le (x y : Q) : (x <= y)%Q -> (x * 100 <= y * 100)%Q.
Proof. intros H. apply Qmult_le_compat_r; [exact H|discriminate]. Qed.

Lemma cryptoOpportunity_fees (toFixed : nat -> Q -> text) (s : CryptoSpread) :
  (0 <= spread_buyPrice s)%Q -> (spread_buyPrice s <= spread_sellPrice s)%Q ->
  let o := cryptoOpportunity toFixed s in
  0 <= buyPrice o <= sellPrice o
  /\ (exists buyFee sellFee,
        0 <= buyFee <= sellFee
        /\ platformFee (fees o) = Some (buyFee + sellFee)
        /\ shippingCost (fees o) = None
        /\ other (fees o) = Some 500
        /\ total (fees o) = buyFee + sellFee + 500)
  /\ 0 <= estimatedProfit o <= Z.max 0 (sellPrice o - buyPrice o - 500).
Proof.
  intros H0 Hle. simpl.
  set (b := Math_round (spread_buyPrice s * 100)).
  set (e := Math_round (spread_sellPrice s * 100)).
  assert (Hb : 0 <= b).
  { apply Math_round_nonneg. change 0%Q with (0 * 100)%Q. apply Qmult_100_le. exact H0. }
  assert (Hbe : b <= e) by (apply Math_round_mono, Qmult_100_le; exact Hle).
  set (bf := Math_round (inject_Z b * (1 # 1000))).
  set (ef := Math_round (inject_Z e * (1 # 1000))).
  assert (Hbf : 0 <= bf).
  { apply Math_round_nonneg. apply Qmult_le_0_compat; [|discriminate].
    change 0%Q with (inject_Z 0). rewrite <- Zle_Qle. exact Hb. }
  assert (Hef : bf <= ef).
  { apply Math_round_mono. apply Qmult_le_compat_r; [|discriminate].
    rewrite <- Zle_Qle. exact Hbe. }
  split; [lia|]. split.
  - exists bf, ef. repeat split; try reflexivity; lia.
  - unfold Math_max. lia.
Qed.
End OpportunityFacts.

(** X10. The opportunities built from the detected spreads of positive
    quotes: the buy price in cents is not above the sell price, the fees
    are the two trading fees plus the flat 500 of the withdrawal, and the
    profit reported is never negative nor above the price difference less
    that flat fee. *)
Theorem crypto_opportunities_are_consistent (toFixed : nat -> Q -> text)
    (prices : list Filter.CryptoPrice) (minSpreadPercent : Q)
    (o : Runner.ParsedOpportunity) :
  (forall p, In p prices -> (0 < Filter.cp_price p)%Q) ->
  In o (Runner.buildCryptoOpportunities toFixed
          (Spreads.findCryptoSpreads prices minSpreadPercent)) ->
  0 <= Runner.buyPrice o <= Runner.sellPrice o
  /\ (exists buyFee sellFee,
        0 <= buyFee <= sellFee
        /\ Runner.platformFee (Runner.fees o) = Some (buyFee + sellFee)
        /\ Runner.shippingCost (Runner.fees o) = None
        /\ Runner.other (Runner.fees o) = Some 500
        /\ Runner.total (Runner.fees o) = buyFee + sellFee + 500)
  /\ 0 <= Runner.estimatedProfit o
       <= Z.max 0 (Runner.sellPrice o - Runner.buyPrice o - 500).
Proof.
  intros Hpos H. unfold Runner.buildCryptoOpportunities in H.
  apply in_map_iff in H as (s & <- & Hs).
  apply findCryptoSpreads_In in Hs as (a & b & Hsub & Hab & Hs).
  assert (Ha : In a prices).
  { apply list_elem_of_In. eapply elem_of_sublist; [|exact Hsub]. left. }
  assert (Hb : In b prices).
  { apply list_elem_of_In. eapply elem_of_sublist; [|exact Hsub]. right. left. }
  apply spreadOf_fields in Hs
    as (low & high & Hlh & Hle & Hk & E1 & E2 & E3 & E4 & E5 & E6 & E7 & E8 & Hm).
  apply cryptoOpportunity_fees.
  - rewrite E2. apply Qlt_le_weak. apply Hpos.
    destruct Hlh as [[-> _]|[-> _]]; assumption.
  - rewrite E2, E5. exact Hle.
Qed.

Lemma crypto_opportunities_are_consistent_witness :
  let o := Runner.cryptoOpportunity (fun _ _ => []) sample_spread in
  0 <= Runner.buyPrice o <= Runner.sellPrice o
  /\ (exists buyFee sellFee,
        0 <= buyFee <= sellFee
        /\ Runner.platformFee (Runner.fees o) = Some (buyFee + sellFee)
        /\ Runner.shippingCost (Runner.fees o) = None
        /\ Runner.other (Runner.fees o) = Some 500
        /\ Runner.total (Runner.fees o) = buyFee + sellFee + 500)
  /\ 0 <= Runner.estimatedProfit o
       <= Z.max 0 (Runner.sellPrice o - Runner.buyPrice o - 500).
Proof.
  apply (crypto_opportunities_are_consistent (fun _ _ => []) sample_quotes (3 # 10)).
  - exact sample_quotes_positive.
  - vm_compute. left. reflexivity.
Defined.

(** ** The weighted median in general *)

(** The weight of the entries whose value is at most [u]. *)
Definition weightUpTo (u : Z) (l : list Filter.Entry) : Z :=
  weightSum (List.filter (fun e => Filter.value e <=? u) l).

Section MedianFacts.
Import Filter.

Lemma weightSum_app (l1 l2 : list Entry) :
  weightSum (l1 ++ l2) = weightSum l1 + weightSum l2.
Proof.
  induction l1 as [|x l1 IH]; [reflexivity|].
  simpl app. rewrite !weightSum_cons, IH. lia.
Qed.

Lemma weightSum_Permutation (l1 l2 : list Entry) :
  Permutation l1 l2 -> weightSum l1 = weightSum l2.
Proof.
  induction 1 as [|x l1 l2 H IH|x y l|l1 l2 l3 H1 IH1 H2 IH2].
  - reflexivity.
  - rewrite !weightSum_cons, IH. reflexivity.
  - rewrite !weightSum_cons. lia.
  - congruence.
Qed.

Lemma weightSum_nonneg (l : list Entry) :
  (forall e, In e l -> 0 <= weight e) -> 0 <= weightSum l.
Proof.
  induction l as [|x l IH]; intros H; [reflexivity|].
  rewrite weightSum_cons.
  assert (0 <= weight x) by (apply H; left; reflexivity).
  assert (0 <= weightSum l) by (apply IH; intros e He; apply H; right; exact He).
  lia.
Qed.

Lemma weightSum_filter_le (P : Entry -> bool) (l : list Entry) :
  (forall e, In e l -> 0 <= weight e) -> weightSum (List.filter P l) <= weightSum l.
Proof.
  induction l as [|x l IH]; intros H; [reflexivity|].
  assert (0 <= weight x) by (apply H; left; reflexivity).
  assert (weightSum (List.filter P l) <= weightSum l)
    by (apply IH; intros e He; apply H; right; exact He).
  simpl. destruct (P x); rewrite !weightSum_cons; lia.
Qed.

Lemma weightUpTo_Permutation (u : Z) (l1 l2 : list Entry) :
  Permutation l1 l2 -> weightUpTo u l1 = weightUpTo u l2.
Proof.
  intros H. unfold weightUpTo. apply weightSum_Permutation.
  induction H as [|x l1 l2 H IH|x y l|l1 l2 l3 H1 IH1 H2 IH2]; simpl.
  - reflexivity.
  - destruct (value x <=? u); [constructor|]; exact IH.
  - destruct (value x <=? u), (value y <=? u); try reflexivity. apply perm_swap.
  - etransitivity; eassumption.
Qed.

(** Where the scan stops. *)
Lemma medianScan_Some (h : Q) (l : list Entry) :
  forall (c : Z) (v : Z),
    medianScan h c l = Some v ->
    exists pre e post,
      l = pre ++ e :: post /\ v = value e
      /\ (h <= inject_Z (c + weightSum (pre ++ [e])))%Q
      /\ (pre <> [] -> (inject_Z (c + weightSum pre) < h)%Q).
Proof.
  induction l as [|x l IH]; intros c v H; simpl in H; [discriminate|].
  destruct (Qle_bool h (inject_Z (c + weight x))) eqn:E.
  - injection H as <-. exists [], x, l. repeat split.
    + simpl. rewrite weightSum_cons. unfold weightSum. simpl.
      rewrite Z.add_0_r. apply Qle_bool_iff. exact E.
    + congruence.
  - apply IH in H as (pre & e & post & -> & -> & Hge & Hlt).
    exists (x :: pre), e, post. repeat split.
    + simpl. rewrite weightSum_cons. rewrite Z.add_assoc. exact Hge.
    + intros _. destruct pre as [|y pre].
      * rewrite weightSum_cons. unfold weightSum. simpl. rewrite Z.add_0_r.
        apply Qnot_le_lt. intros C. apply Qle_bool_iff in C. congruence.
      * rewrite weightSum_cons, Z.add_assoc. apply Hlt. discriminate.
Qed.

(** With weights that are not negative the scan always stops. *)
Lemma medianScan_stops (l : list Entry) (c : Z) (h : Q) :
  l <> [] -> (forall e, In e l -> 0 <= weight e) ->
  (h <= inject_Z (c + weightSum l))%Q ->
  exists v, medianScan h c l = Some v.
Proof.
  revert c. induction l as [|x l IH]; intros c Hne Hw Hh; [congruence|].
  simpl. destruct (Qle_bool h (inject_Z (c + weight x))) eqn:E; [eauto|].
  destruct l as [|y l].
  - exfalso. rewrite weightSum_cons in Hh. unfold weightSum in Hh. simpl in Hh.
    rewrite Z.add_0_r in Hh. apply Qle_bool_iff in Hh. congruence.
  - apply IH; [discriminate| |].
    + intros e He. apply Hw. right. exact He.
    + rewrite weightSum_cons, Z.add_assoc in Hh. exact Hh.
Qed.

Lemma half_le (t c : Z) : (inject_Z t / 2 <= inject_Z c)%Q <-> t <= 2 * c.
Proof.
  unfold Qle, Qdiv, Qmult, Qinv, inject_Z. simpl. lia.
Qed.

Lemma half_lt (t c : Z) : (inject_Z c < inject_Z t / 2)%Q <-> 2 * c < t.
Proof.
  unfold Qlt, Qdiv, Qmult, Qinv, inject_Z. simpl. lia.
Qed.

Lemma filter_all {B : Type} (P : B -> bool) (l : list B) :
  (forall x, In x l -> P x = true) -> List.filter P l = l.
Proof.
  induction l as [|x l IH]; intros H; [reflexivity|].
  simpl. rewrite (H x (or_introl eq_refl)).
  rewrite IH; [reflexivity|]. intros y Hy. apply H. right. exact Hy.
Qed.

(** The three facts that single out the weighted median. *)
Definition is_weighted_median (entries : list Entry) (v : Z) : Prop :=
  (exists e, In e entries /\ value e = v)
  /\ weightSum entries <= 2 * weightUpTo v entries
  /\ (forall e, In e entries -> value e < v ->
        2 * weightUpTo (value e) entries < weightSum entries).

Lemma weightedMedian_spec (entries : list Entry) :
  entries <> [] -> (forall e, In e entries -> 0 <= weight e) ->
  is_weighted_median entries (weightedMedian entries).
Proof.
  intros Hne Hw.
  destruct entries as [|e0 [|e1 rest]] eqn:Ee; [congruence| |].
  - (* one entry *)
    simpl. assert (0 <= weight e0) by (apply Hw; left; reflexivity).
    repeat split.
    + exists e0. split; [left|]; reflexivity.
    + unfold weightUpTo. simpl. rewrite Z.leb_refl. rewrite weightSum_cons.
      unfold weightSum. simpl. lia.
    + intros e [<-|[]] C. lia.
  - rewrite <- Ee in *. clear Hne.
    assert (Hwm : weightedMedian entries
                  = let sorted := Array_sort (fun a b => value a - value b) entries in
                    match medianScan (inject_Z (weightSum sorted) / 2) 0 sorted with
                    | Some v => v
                    | None => value (List.last sorted {| value := 0; weight := 0 |})
                    end) by (rewrite Ee; reflexivity).
    rewrite Hwm. clear Hwm. cbv zeta.
    set (sorted := Array_sort (fun a b => value a - value b) entries).
    assert (Hperm : Permutation sorted entries) by apply Array_sort_Permutation.
    assert (Hsorted : StronglySorted (fun a b => value a <= value b) sorted).
    { apply (StronglySorted_weaken (fun a b => value a - value b <= 0)); [intros; lia|].
      apply Array_sort_sorted; intros; lia. }
    assert (Hws : forall e, In e sorted -> 0 <= weight e).
    { intros e He. apply Hw. eapply Permutation_in; eassumption. }
    assert (Hsne : sorted <> []).
    { intros C. rewrite C in Hperm. apply Permutation_nil in Hperm.
      rewrite Ee in Hperm. discriminate. }
    destruct (medianScan_stops sorted 0 (inject_Z (weightSum sorted) / 2) Hsne Hws)
      as (v & Hv).
    { apply half_le. pose proof (weightSum_nonneg sorted Hws). lia. }
    rewrite Hv.
    apply medianScan_Some in Hv as (pre & e & post & Es & -> & Hge & Hlt).
    rewrite Es in Hsorted.
    apply half_le in Hge. simpl in Hge.
    assert (Hpre : forall x, In x pre -> value x <= value e).
    { intros x Hx. clear -Hsorted Hx. induction pre as [|y pre IH]; [contradiction|].
      simpl in Hsorted. apply StronglySorted_inv in Hsorted as [Hs Hy].
      destruct Hx as [->|Hx]; [|exact (IH Hs Hx)].
      apply (proj1 (List.Forall_forall _ _) Hy). apply in_or_app. right. left. reflexivity. }
    assert (Hpost : forall x, In x (e :: post) -> value e <= value x).
    { intros x Hx. clear -Hsorted Hx. induction pre as [|y pre IH].
      - simpl in Hsorted. apply StronglySorted_inv in Hsorted as [Hs Hy].
        destruct Hx as [->|Hx]; [lia|].
        exact (proj1 (List.Forall_forall _ _) Hy x Hx).
      - simpl in Hsorted. apply StronglySorted_inv in Hsorted as [Hs _].
        exact (IH Hs). }
    unfold is_weighted_median.
    rewrite <- (weightSum_Permutation _ _ Hperm).
    repeat split.
    + exists e. split; [|reflexivity]. eapply Permutation_in; [exact Hperm|].
      rewrite Es. apply in_or_app. right. left. reflexivity.
    + rewrite <- (weightUpTo_Permutation _ _ _ Hperm). rewrite Es at 2.
      unfold weightUpTo. rewrite List.filter_app. simpl. rewrite Z.leb_refl.
      rewrite (filter_all _ pre) by (intros x Hx; apply Z.leb_le, Hpre; exact Hx).
      rewrite weightSum_app, weightSum_cons. rewrite weightSum_app in Hge.
      rewrite weightSum_cons in Hge. change (weightSum []) with 0 in Hge.
      assert (0 <= weightSum (List.filter (fun e1 => value e1 <=? value e) post)).
      { apply weightSum_nonneg. intros x Hx. apply filter_In in Hx as [Hx _].
        apply Hws. rewrite Es. apply in_or_app. right. right. exact Hx. }
      lia.
    + intros x Hx Hlt'.
      rewrite <- (weightUpTo_Permutation _ _ _ Hperm).
      assert (Hxs : In x sorted) by (eapply Permutation_in; [symmetry; exact Hperm|exact Hx]).
      rewrite Es in Hxs. apply in_app_or in Hxs as [Hxp|Hxp];
        [|apply Hpost in Hxp; lia].
      assert (Hpne : pre <> []) by (intros C; rewrite C in Hxp; contradiction).
      specialize (Hlt Hpne). apply half_lt in Hlt. simpl in Hlt.
      rewrite Es at 1. unfold weightUpTo. rewrite List.filter_app.
      rewrite (filter_none _ (e :: post)).
      * rewrite app_nil_r.
        assert (weightSum (List.filter (fun e1 => value e1 <=? value x) pre)
                <= weightSum pre).
        { apply weightSum_filter_le. intros y Hy. apply Hws. rewrite Es.
          apply in_or_app. left. exact Hy. }
        lia.
      * intros y Hy. apply Z.leb_gt. apply Hpost in Hy. lia.
Qed.

Lemma is_weighted_median_unique (l1 l2 : list Entry) (v1 v2 : Z) :
  Permutation l1 l2 ->
  is_weighted_median l1 v1 -> is_weighted_median l2 v2 -> v1 = v2.
Proof.
  intros Hperm ((e1 & He1 & E1) & Hge1 & Hlt1) ((e2 & He2 & E2) & Hge2 & Hlt2).
  destruct (Z.lt_trichotomy v1 v2) as [L|[E|L]]; [exfalso| exact E |exfalso].
  - assert (H : In e1 l2) by (eapply Permutation_in; eassumption).
    specialize (Hlt2 e1 H). rewrite E1 in Hlt2. specialize (Hlt2 L).
    rewrite <- (weightUpTo_Permutation _ _ _ Hperm) in Hlt2.
    rewrite <- (weightSum_Permutation _ _ Hperm) in Hlt2. lia.
  - assert (H : In e2 l1) by (eapply Permutation_in; [symmetry|]; eassumption).
    specialize (Hlt1 e2 H). rewrite E2 in Hlt1. specialize (Hlt1 L).
    rewrite (weightUpTo_Permutation _ _ _ Hperm) in Hlt1.
    rewrite (weightSum_Permutation _ _ Hperm) in Hlt1. lia.
Qed.
End MedianFacts.

(** X11. For weights that are not negative, the weighted median of a
    non-empty list is the smallest value among the entries up to which at
    least half of the total weight lies: it is the value of an entry, the
    entries of at most that value weigh at least half the total, and no
    smaller value of an entry has that property. *)
Theorem weightedMedian_is_least_half_weight_value (entries : list Filter.Entry) :
  entries <> [] -> (forall e, In e entries -> 0 <= Filter.weight e) ->
  let v := Filter.weightedMedian entries in
  (exists e, In e entries /\ Filter.value e = v)
  /\ weightSum entries <= 2 * weightUpTo v entries
  /\ (forall e, In e entries -> Filter.value e < v ->
        2 * weightUpTo (Filter.value e) entries < weightSum entries).
Proof. intros Hne Hw. exact (weightedMedian_spec entries Hne Hw). Qed.

Lemma sample_entries_weights (e : Filter.Entry) :
  In e sample_entries -> 0 <= Filter.weight e.
Proof. intros [<-|[<-|[<-|[]]]]; simpl; lia. Qed.

Lemma weightedMedian_is_least_half_weight_value_witness :
  let v := Filter.weightedMedian sample_entries in
  (exists e, In e sample_entries /\ Filter.value e = v)
  /\ weightSum sample_entries <= 2 * weightUpTo v sample_entries
  /\ (forall e, In e sample_entries -> Filter.value e < v ->
        2 * weightUpTo (Filter.value e) sample_entries < weightSum sample_entries).
Proof.
  apply (weightedMedian_is_least_half_weight_value sample_entries).
  - discriminate.
  - exact sample_entries_weights.
Defined.

(** X12. The weighted median does not depend on the order in which the
    entries are given (weights not negative). *)
Theorem weightedMedian_ignores_order (entries entries' : list Filter.Entry) :
  Permutation entries entries' ->
  (forall e, In e entries -> 0 <= Filter.weight e) ->
  Filter.weightedMedian entries = Filter.weightedMedian entries'.
Proof.
  intros Hperm Hw.
  destruct entries as [|e l] eqn:E.
  - apply Permutation_nil in Hperm. subst. reflexivity.
  - rewrite <- E in *.
    assert (Hne : entries <> []) by (rewrite E; discriminate).
    assert (Hne' : entries' <> []).
    { intros C. rewrite C in Hperm. apply Permutation_sym, Permutation_nil in Hperm.
      contradiction. }
    assert (Hw' : forall e, In e entries' -> 0 <= Filter.weight e).
    { intros x Hx. apply Hw. eapply Permutation_in; [symmetry|]; eassumption. }
    exact (is_weighted_median_unique entries entries' _ _ Hperm
             (weightedMedian_spec entries Hne Hw)
             (weightedMedian_spec entries' Hne' Hw')).
Qed.

Lemma weightedMedian_ignores_order_witness :
  Filter.weightedMedian sample_entries = Filter.weightedMedian (rev sample_entries).
Proof.
  apply (weightedMedian_ignores_order sample_entries (rev sample_entries)).
  - apply Permutation_rev.
  - exact sample_entries_weights.
Defined.

(** ** The ledger *)

Section LedgerFacts.
Import Budget BudgetStore.

Lemma readUsage_date (today : text) (fs : Files) : date (readUsage today fs) = today.
Proof.
  unfold readUsage. destruct (usageFile fs) as [u|]; [|reflexivity].
  destruct (bool_decide (date u <> today)) eqn:E; [reflexivity|].
  apply bool_decide_eq_false in E. destruct (decide (date u = today)); tauto.
Qed.

Lemma readUsage_written (today : text) (u : TokenUsageEntry) (fs : Files) :
  date u = today -> readUsage today (writeUsage u fs) = u.
Proof.
  intros H. unfold readUsage, writeUsage. simpl.
  rewrite bool_decide_eq_false_2; [reflexivity|]. intros C. exact (C H).
Qed.






End LedgerFacts.



(** X13. Reading the ledger back after recordUsage gives today's entry with
    the call added: the totals grow by the tokens of the call and the run is
    appended; what was stored for another day, or not stored, counts as an
    empty entry. *)
Theorem recordUsage_then_getDailyUsage (today now agent : text)
    (input output calls : Z) (fs : Budget.Files) :
  let before := BudgetStore.getDailyUsage today fs in
  BudgetStore.getDailyUsage today
    (Budget.recordUsage today now agent input output calls fs)
  = {| Budget.date := today;
       Budget.totalTokens := Budget.totalTokens before + (input + output);
       Budget.totalInputTokens := Budget.totalInputTokens before + input;
       Budget.totalOutputTokens := Budget.totalOutputTokens before + output;
       Budget.runs :=
         Budget.runs before
           ++ [{| Budget.run_agentType := agent; Budget.startedAt := now;
                  Budget.inputTokens := input; Budget.outputTokens := output;
                  Budget.run_totalTokens := input + output;
                  Budget.toolCalls := calls |}] |}
  /\ ((forall u, Budget.usageFile fs = Some u -> Budget.date u <> today) ->
      before = Budget.freshUsage today).
Proof.
  intros before. unfold before, BudgetStore.getDailyUsage. split.
  - unfold Budget.recordUsage. rewrite readUsage_written by apply readUsage_date.
    rewrite readUsage_date. reflexivity.
  - intros H. unfold Budget.readUsage.
    destruct (Budget.usageFile fs) as [u|]; [|reflexivity].
    rewrite bool_decide_eq_true_2; [reflexivity|]. apply H. reflexivity.
Qed.





(** ** The snipe phase: what a run calls, searches and records *)

Section RunAccount.
Import Runner.
Variable JSON_parse : text -> option Json.
Variable callClaude : ClaudeRequest -> Outcome ClaudeResponse.
Variable searchSoldPrices : text -> Outcome text.
Variable snipeMessage : list Filter.QualifiedLead -> nat -> text.
Variables (today now : text).
Variable config : ScoutSnipeConfig.
Variable agentConfig : AgentScoutConfig.

Local Abbreviation loop :=
  (snipeLoop callClaude searchSoldPrices today now config agentConfig).
Local Abbreviation phase :=
  (snipePhase callClaude searchSoldPrices snipeMessage today now config agentConfig).
Local Abbreviation run :=
  (runScoutThenSnipe JSON_parse callClaude searchSoldPrices snipeMessage
     today now config agentConfig).

(** A request of the snipe phase. *)
Definition snipe_request (snipeTools : option (list ClaudeTool)) (request : ClaudeRequest)
    : Prop :=
  model request = str "claude-haiku-4-5-20251001"
  /\ max_tokens request = 4096
  /\ system request = snipeSystemPrompt agentConfig
  /\ (tools request = None \/ tools request = snipeTools).

Lemma recordedToday_recordUsage (agent : text) (input output calls : Z)
    (fs : Budget.Files) :
  recordedToday today (Budget.recordUsage today now agent input output calls fs)
  = recordedToday today fs + (input + output).
Proof.
  rewrite <- (recordUsage_then_check today now agent input output calls
                Budget.DEFAULT_BUDGET fs).
  unfold Budget.checkBudget. simpl. symmetry. apply readUsage_total.
Qed.

(** What the loop has done when it is left. *)
Record accounted (snipeTools : option (list ClaudeTool)) (iterations : nat)
    (st st' : LoopState) : Prop := {
  acc_calls :
    exists new,
      claudeCalls (loop_world st') = claudeCalls (loop_world st) ++ new
      /\ (length new <= iterations)%nat
      /\ Forall (snipe_request snipeTools) new;
  acc_searches :
    exists searched,
      searches (loop_world st') = searches (loop_world st) ++ searched
      /\ (toolCallsUsed st' = toolCallsUsed st + length searched)%nat;
  acc_ledger :
    recordedToday today (files (loop_world st'))
    = recordedToday today (files (loop_world st))
      + (loop_inputTokens st' - loop_inputTokens st)
      + (loop_outputTokens st' - loop_outputTokens st);
  acc_config :
    Budget.configFile (files (loop_world st')) = Budget.configFile (files (loop_world st))
}.

Lemma snipeLoop_accounted (snipeTools : option (list ClaudeTool)) (iterations : nat)
    (st : LoopState) :
  accounted snipeTools iterations st (exitState (loop snipeTools iterations st)).
Proof.
  revert st. induction iterations as [|n IH]; intros st.
  - simpl. split.
    + exists []. rewrite app_nil_r. repeat split; [simpl; lia|constructor].
    + exists []. rewrite app_nil_r. split; [reflexivity|simpl; lia].
    + lia.
    + reflexivity.
  - cbn [snipeLoop].
    match goal with
    | |- context [callClaude ?r] => set (request := r)
    end.
    assert (Hreq : snipe_request snipeTools request).
    { repeat split. simpl. destruct snipeTools as [ts|]; [|left; reflexivity].
      destruct (toolCallsUsed st <? maxToolCalls)%nat; [right|left]; reflexivity. }
    destruct (callClaude request) as [response|e].
    2:{ simpl. split.
        - exists [request]. repeat split; [simpl; lia|constructor; [exact Hreq|constructor]].
        - exists []. rewrite app_nil_r. split; [reflexivity|simpl; lia].
        - simpl. lia.
        - reflexivity. }
    destruct ((length (List.filter isToolUse (response_content response)) =? 0)%nat
              || (maxToolCalls <=? toolCallsUsed st)%nat).
    { simpl. split.
      - exists [request]. repeat split; [simpl; lia|constructor; [exact Hreq|constructor]].
      - exists []. rewrite app_nil_r. split; [reflexivity|simpl; lia].
      - simpl. rewrite recordedToday_recordUsage. lia.
      - reflexivity. }
    match goal with
    | |- context [fold_left (executeTool searchSoldPrices) ?bs ?acc] =>
        pose proof (executeTool_fold searchSoldPrices bs acc) as [Hused Hsearched];
        destruct (fold_left (executeTool searchSoldPrices) bs acc)
          as [[used results] searched]
    end.
    simpl in Hused, Hsearched.
    match goal with
    | |- accounted _ _ _ (exitState (loop _ _ ?s)) => specialize (IH s); set (st1 := s) in *
    end.
    destruct IH as [(new & E1 & L1 & F1) (sd & E2 & L2) E3 E4].
    simpl in E1, E2, E3, E4, L2. split.
    + exists (request :: new). rewrite E1, <- app_assoc. repeat split.
      * simpl. lia.
      * constructor; assumption.
    + eexists. rewrite E2, Hsearched, <- app_assoc. split; [reflexivity|].
      rewrite L2, Hused, length_app, length_map. lia.
    + rewrite E3, recordedToday_recordUsage. lia.
    + rewrite E4. reflexivity.
Qed.
End RunAccount.

Section RunOutcome.
Import Runner.
Variable JSON_parse : text -> option Json.
Variable callClaude : ClaudeRequest -> Outcome ClaudeResponse.
Variable searchSoldPrices : text -> Outcome text.
Variable snipeMessage : list Filter.QualifiedLead -> nat -> text.
Variables (today now : text).
Variable config : ScoutSnipeConfig.
Variable agentConfig : AgentScoutConfig.

Local Abbreviation loop :=
  (snipeLoop callClaude searchSoldPrices today now config agentConfig).
Local Abbreviation phase :=
  (snipePhase callClaude searchSoldPrices snipeMessage today now config agentConfig).
Local Abbreviation run :=
  (runScoutThenSnipe JSON_parse callClaude searchSoldPrices snipeMessage
     today now config agentConfig).

(** How the loop is left: with an answer of the model that asks for no
    tool or arrives when the cap is reached, or with the exception of a
    call. *)
Lemma snipeLoop_exit (snipeTools : option (list ClaudeTool)) (iterations : nat)
    (st : LoopState) :
  match loop snipeTools iterations st with
  | Final (Some r) st' =>
      exists request, callClaude request = Returned r
        /\ (List.filter isToolUse (response_content r) = []
            \/ (maxToolCalls <= toolCallsUsed st')%nat)
  | Final None _ => True
  | Failed e _ => exists request, callClaude request = Thrown e
  end.
Proof.
  revert st. induction iterations as [|n IH]; intros st; [exact I|].
  cbn [snipeLoop].
  match goal with
  | |- context [callClaude ?r] => set (request := r)
  end.
  destruct (callClaude request) as [response|e] eqn:Ecall; [|exists request; exact Ecall].
  destruct ((length (List.filter isToolUse (response_content response)) =? 0)%nat
            || (maxToolCalls <=? toolCallsUsed st)%nat) eqn:E.
  - exists request. split; [exact Ecall|].
    apply orb_true_iff in E as [E|E].
    + left. apply Nat.eqb_eq in E. apply length_zero_iff_nil. exact E.
    + right. apply Nat.leb_le in E. exact E.
  - match goal with
    | |- context [fold_left (executeTool searchSoldPrices) ?bs ?acc] =>
        destruct (fold_left (executeTool searchSoldPrices) bs acc)
          as [[used results] searched]
    end.
    apply IH.
Qed.

(** The four ways a run ends. *)
Inductive run_case (scout : ScoutPhase) (w : World) : Prop :=
| no_leads :
    allQualified scout = [] -> (run scout w).2 = w ->
    success (run scout w).1 = true ->
    totalInputTokens (run scout w).1 = 0 -> totalOutputTokens (run scout w).1 = 0 ->
    totalToolCalls (run scout w).1 = 0%nat ->
    estimatedCost (run scout w).1 = 0%Q ->
    error (run scout w).1 = None -> abortReason (run scout w).1 = None ->
    run_case scout w
| refused :
    allQualified scout <> [] ->
    Budget.allowed (Budget.checkBudget today (Budget.loadBudgetConfig (files w))
                      (files w)) = false ->
    (run scout w).2 = w ->
    success (run scout w).1 = false ->
    opportunities (run scout w).1 = [] ->
    totalInputTokens (run scout w).1 = 0 -> totalOutputTokens (run scout w).1 = 0 ->
    totalToolCalls (run scout w).1 = 0%nat ->
    estimatedCost (run scout w).1 = 0%Q ->
    error (run scout w).1 = None ->
    abortReason (run scout w).1 = Some (str "Daily token limit reached.") ->
    run_case scout w
| answered (r : ClaudeResponse) (st : LoopState) :
    allQualified scout <> [] ->
    Budget.allowed (Budget.checkBudget today (Budget.loadBudgetConfig (files w))
                      (files w)) = true ->
    phase (allQualified scout) w = Final (Some r) st ->
    (run scout w).2 = loop_world st ->
    success (run scout w).1 = true ->
    opportunities (run scout w).1 = parseOpportunities JSON_parse r ->
    result_reasoning (run scout w).1 = extractReasoning r ->
    totalInputTokens (run scout w).1 = loop_inputTokens st ->
    totalOutputTokens (run scout w).1 = loop_outputTokens st ->
    totalToolCalls (run scout w).1 = (1 + toolCallsUsed st)%nat ->
    estimatedCost (run scout w).1
    = Budget.estimateCost (loop_inputTokens st) (loop_outputTokens st) ->
    error (run scout w).1 = None -> abortReason (run scout w).1 = None ->
    run_case scout w
| failed (e : text) (st : LoopState) :
    allQualified scout <> [] ->
    Budget.allowed (Budget.checkBudget today (Budget.loadBudgetConfig (files w))
                      (files w)) = true ->
    phase (allQualified scout) w = Failed e st ->
    (run scout w).2 = loop_world st ->
    success (run scout w).1 = false ->
    opportunities (run scout w).1 = [] ->
    totalInputTokens (run scout w).1 = loop_inputTokens st ->
    totalOutputTokens (run scout w).1 = loop_outputTokens st ->
    totalToolCalls (run scout w).1 = 0%nat ->
    estimatedCost (run scout w).1
    = Budget.estimateCost (loop_inputTokens st) (loop_outputTokens st) ->
    error (run scout w).1 = Some e -> abortReason (run scout w).1 = None ->
    run_case scout w.

Lemma run_cases (scout : ScoutPhase) (w : World) : run_case scout w.
Proof.
  destruct (allQualified scout) as [|q qs] eqn:Eq.
  - apply no_leads; try exact Eq; unfold runScoutThenSnipe; rewrite Eq; reflexivity.
  - assert (Hne : allQualified scout <> []) by (rewrite Eq; discriminate).
    destruct (Budget.allowed (Budget.checkBudget today (Budget.loadBudgetConfig (files w))
                                (files w))) eqn:Ea.
    + pose proof (snipeLoop_breaks callClaude searchSoldPrices today now config agentConfig
                    (snipeToolsFor (allQualified scout)) (maxToolCalls + 1)
                    (snipeStart snipeMessage (allQualified scout) w)) as Hb.
      destruct Hb as [(r & st & Hp)|(e & st & Hp)];
        [unfold maxToolCalls; lia|simpl; unfold maxToolCalls; lia| |].
      * apply (answered scout w r st); try assumption;
          unfold runScoutThenSnipe, snipePhase; rewrite Eq, Ea; simpl negb; cbv iota;
          rewrite <- Eq, Hp; reflexivity.
      * apply (failed scout w e st); try assumption;
          unfold runScoutThenSnipe, snipePhase; rewrite Eq, Ea; simpl negb; cbv iota;
          rewrite <- Eq, Hp; reflexivity.
    + apply refused; try assumption;
        unfold runScoutThenSnipe; rewrite Eq, Ea; reflexivity.
Qed.

Lemma phase_accounted (scout : ScoutPhase) (w : World) :
  accounted today agentConfig
    (snipeToolsFor (allQualified scout)) (maxToolCalls + 1)
    (snipeStart snipeMessage (allQualified scout) w)
    (exitState (phase (allQualified scout) w)).
Proof. apply snipeLoop_accounted. Qed.
End RunOutcome.

(** X16. A run calls the model at most six times, each time with the model
    name, token limit and system prompt of the snipe phase; it calls it not
    at all when no lead qualified; and it offers the sold-price tool only
    when some lead needs research. *)
Theorem run_calls_the_model_at_most_six_times
    (JSON_parse : text -> option Runner.Json)
    (callClaude : Runner.ClaudeRequest -> Runner.Outcome Runner.ClaudeResponse)
    (searchSoldPrices : text -> Runner.Outcome text)
    (snipeMessage : list Filter.QualifiedLead -> nat -> text)
    (today now : text)
    (config : Runner.ScoutSnipeConfig) (agentConfig : Runner.AgentScoutConfig)
    (scout : Runner.ScoutPhase) (w : Runner.World) :
  let result := Runner.runScoutThenSnipe JSON_parse callClaude searchSoldPrices
                  snipeMessage today now config agentConfig scout w in
  exists new,
    Runner.claudeCalls result.2 = Runner.claudeCalls w ++ new
    /\ (length new <= 6)%nat
    /\ Forall (fun request =>
                 Runner.model request = str "claude-haiku-4-5-20251001"
                 /\ Runner.max_tokens request = 4096
                 /\ Runner.system request = Runner.snipeSystemPrompt agentConfig
                 /\ (Runner.tools request = None
                     \/ Runner.tools request = Some [Runner.search_sold_prices_tool]))
              new
    /\ (Runner.allQualified scout = [] -> new = [])
    /\ (Runner.needsResearch (Runner.allQualified scout) = 0%nat ->
        Forall (fun request => Runner.tools request = None) new).
Proof.
  intros result. unfold result.
  pose proof (phase_accounted callClaude searchSoldPrices snipeMessage today now
                config agentConfig scout w) as [(new & E & L & F) _ _ _].
  assert (Hshape :
    Forall (fun request =>
              Runner.model request = str "claude-haiku-4-5-20251001"
              /\ Runner.max_tokens request = 4096
              /\ Runner.system request = Runner.snipeSystemPrompt agentConfig
              /\ (Runner.tools request = None
                  \/ Runner.tools request = Some [Runner.search_sold_prices_tool])) new
    /\ (Runner.needsResearch (Runner.allQualified scout) = 0%nat ->
        Forall (fun request => Runner.tools request = None) new)).
  { split.
    - eapply List.Forall_impl; [|exact F]. intros r (H1 & H2 & H3 & H4).
      repeat split; try assumption. destruct H4 as [H4|H4]; [left; exact H4|].
      unfold Runner.snipeToolsFor in H4.
      destruct (0 <? Runner.needsResearch (Runner.allQualified scout))%nat;
        [right|left]; exact H4.
    - intros H0. eapply List.Forall_impl; [|exact F]. intros r (_ & _ & _ & H4).
      unfold Runner.snipeToolsFor in H4. rewrite H0 in H4. simpl in H4. tauto. }
  destruct Hshape as [Hs1 Hs2].
  destruct (run_cases JSON_parse callClaude searchSoldPrices snipeMessage today now
              config agentConfig scout w)
    as [Hq Hw|Hq Ha Hw|r st Hq Ha Hp Hw|e st Hq Ha Hp Hw].
  - exists []. rewrite Hw, app_nil_r.
    split; [reflexivity|]. split; [simpl; lia|]. split; [apply List.Forall_nil|].
    split; [reflexivity|intros _; apply List.Forall_nil].
  - exists []. rewrite Hw, app_nil_r.
    split; [reflexivity|]. split; [simpl; lia|]. split; [apply List.Forall_nil|].
    split; [reflexivity|intros _; apply List.Forall_nil].
  - rewrite Hp in E. simpl in E. exists new. rewrite Hw.
    split; [exact E|]. split; [exact L|]. split; [exact Hs1|].
    split; [congruence|exact Hs2].
  - rewrite Hp in E. simpl in E. exists new. rewrite Hw.
    split; [exact E|]. split; [exact L|]. split; [exact Hs1|].
    split; [congruence|exact Hs2].
Qed.

(** X17. Every token a run reports is in the ledger: today's recorded total
    grows by exactly the input and output tokens of the result, the stored
    budget configuration is left alone, and the cost reported is the cost of
    those tokens. *)
Theorem run_records_the_tokens_it_reports
    (JSON_parse : text -> option Runner.Json)
    (callClaude : Runner.ClaudeRequest -> Runner.Outcome Runner.ClaudeResponse)
    (searchSoldPrices : text -> Runner.Outcome text)
    (snipeMessage : list Filter.QualifiedLead -> nat -> text)
    (today now : text)
    (config : Runner.ScoutSnipeConfig) (agentConfig : Runner.AgentScoutConfig)
    (scout : Runner.ScoutPhase) (w : Runner.World) :
  let result := Runner.runScoutThenSnipe JSON_parse callClaude searchSoldPrices
                  snipeMessage today now config agentConfig scout w in
  recordedToday today (Runner.files result.2)
  = recordedToday today (Runner.files w)
    + Runner.totalInputTokens result.1 + Runner.totalOutputTokens result.1
  /\ Budget.loadBudgetConfig (Runner.files result.2)
     = Budget.loadBudgetConfig (Runner.files w)
  /\ (Runner.estimatedCost result.1
      == Budget.estimateCost (Runner.totalInputTokens result.1)
           (Runner.totalOutputTokens result.1))%Q.
Proof.
  intros result. unfold result.
  pose proof (phase_accounted callClaude searchSoldPrices snipeMessage today now
                config agentConfig scout w) as [_ _ El Ec].
  destruct (run_cases JSON_parse callClaude searchSoldPrices snipeMessage today now
              config agentConfig scout w)
    as [Hq Hw Hs Hi Ho Ht Hc|Hq Ha Hw Hs Hop Hi Ho Ht Hc
       |r st Hq Ha Hp Hw Hs Hop Hr Hi Ho Ht Hc|e st Hq Ha Hp Hw Hs Hop Hi Ho Ht Hc].
  - rewrite Hw, Hi, Ho, Hc. split; [lia|]. split; [reflexivity|vm_compute; reflexivity].
  - rewrite Hw, Hi, Ho, Hc. split; [lia|]. split; [reflexivity|vm_compute; reflexivity].
  - rewrite Hp in El, Ec. simpl in El, Ec. rewrite Hw, Hi, Ho, Hc.
    split; [rewrite El; lia|]. split; [|reflexivity].
    unfold Budget.loadBudgetConfig. rewrite Ec. reflexivity.
  - rewrite Hp in El, Ec. simpl in El, Ec. rewrite Hw, Hi, Ho, Hc.
    split; [rewrite El; lia|]. split; [|reflexivity].
    unfold Budget.loadBudgetConfig. rewrite Ec. reflexivity.
Qed.

Lemma phase_tool_calls (k : nat)
    (callClaude : Runner.ClaudeRequest -> Runner.Outcome Runner.ClaudeResponse)
    (searchSoldPrices : text -> Runner.Outcome text)
    (snipeMessage : list Filter.QualifiedLead -> nat -> text)
    (today now : text)
    (config : Runner.ScoutSnipeConfig) (agentConfig : Runner.AgentScoutConfig)
    (qualified : list Filter.QualifiedLead) (w : Runner.World) :
  (forall request response,
     callClaude request = Runner.Returned response ->
     (length (List.filter Runner.isToolUse (Runner.response_content response)) <= k)%nat) ->
  (Runner.toolCallsUsed
     (exitState (Runner.snipePhase callClaude searchSoldPrices snipeMessage today now
                   config agentConfig qualified w)) <= 4 + k)%nat.
Proof.
  intros Hk. unfold Runner.snipePhase. apply snipeLoop_tool_calls; [exact Hk|].
  apply Nat.le_0_l.
Qed.

(** X18. When no answer of the model asks for more than [k] tools, a run
    makes at most [4 + k] sold-price searches: five when the model asks for
    one tool at a time.  A successful snipe reports one more tool call than
    it made searches. *)
Theorem run_searches_are_bounded_by_the_answers (k : nat)
    (JSON_parse : text -> option Runner.Json)
    (callClaude : Runner.ClaudeRequest -> Runner.Outcome Runner.ClaudeResponse)
    (searchSoldPrices : text -> Runner.Outcome text)
    (snipeMessage : list Filter.QualifiedLead -> nat -> text)
    (today now : text)
    (config : Runner.ScoutSnipeConfig) (agentConfig : Runner.AgentScoutConfig)
    (scout : Runner.ScoutPhase) (w : Runner.World) :
  (forall request response,
     callClaude request = Runner.Returned response ->
     (length (List.filter Runner.isToolUse (Runner.response_content response)) <= k)%nat) ->
  let result := Runner.runScoutThenSnipe JSON_parse callClaude searchSoldPrices
                  snipeMessage today now config agentConfig scout w in
  exists searched,
    Runner.searches result.2 = Runner.searches w ++ searched
    /\ (length searched <= 4 + k)%nat
    /\ (Runner.success result.1 = true -> Runner.allQualified scout <> [] ->
        Runner.totalToolCalls result.1 = (1 + length searched)%nat).
Proof.
  intros Hk result. unfold result.
  pose proof (phase_accounted callClaude searchSoldPrices snipeMessage today now
                config agentConfig scout w) as [_ (sd & E & L) _ _].
  pose proof (phase_tool_calls k callClaude searchSoldPrices snipeMessage today now
                config agentConfig (Runner.allQualified scout) w Hk) as Hb.
  destruct (run_cases JSON_parse callClaude searchSoldPrices snipeMessage today now
              config agentConfig scout w)
    as [Hq Hw Hs Hi Ho Ht Hc|Hq Ha Hw Hs Hop Hi Ho Ht Hc
       |r st Hq Ha Hp Hw Hs Hop Hr Hi Ho Ht Hc|e st Hq Ha Hp Hw Hs Hop Hi Ho Ht Hc].
  - exists []. rewrite Hw, app_nil_r. repeat split; [simpl; lia|congruence].
  - exists []. rewrite Hw, app_nil_r. repeat split; [simpl; lia|congruence].
  - rewrite Hp in E, L, Hb. simpl in E, L, Hb.
    exists sd. rewrite Hw, Ht. repeat split; [exact E|lia|]. intros _ _. lia.
  - rewrite Hp in E, L, Hb. simpl in E, L, Hb.
    exists sd. rewrite Hw, Hs. repeat split; [exact E|lia|discriminate].
Qed.

Lemma text_answers_use_no_tool (request : Runner.ClaudeRequest)
    (response : Runner.ClaudeResponse) :
  prose_only request = Runner.Returned response ->
  (length (List.filter Runner.isToolUse (Runner.response_content response)) <= 1)%nat.
Proof. intros H. injection H as <-. simpl. lia. Qed.

Lemma run_searches_are_bounded_by_the_answers_witness :
  let result := Runner.runScoutThenSnipe (fun _ => None) prose_only search_finds_nothing
                  (fun _ _ => []) (str "2026-03-01") (str "2026-03-01T10:00:00.000Z")
                  retail_run retail_config scout_one_estimated empty_world in
  exists searched,
    Runner.searches result.2 = Runner.searches empty_world ++ searched
    /\ (length searched <= 4 + 1)%nat
    /\ (Runner.success result.1 = true -> Runner.allQualified scout_one_estimated <> [] ->
        Runner.totalToolCalls result.1 = (1 + length searched)%nat).
Proof.
  apply (run_searches_are_bounded_by_the_answers 1 (fun _ => None) prose_only
           search_finds_nothing (fun _ _ => []) (str "2026-03-01")
           (str "2026-03-01T10:00:00.000Z") retail_run retail_config
           scout_one_estimated empty_world).
  exact text_answers_use_no_tool.
Defined.

(** X19. With qualified leads and today's recorded tokens at or above the
    stored daily limit, a run is refused: it fails with the abort reason
    "Daily token limit reached.", reports no tokens, and calls neither the
    model nor the search nor the ledger. *)
Theorem run_is_refused_over_budget
    (JSON_parse : text -> option Runner.Json)
    (callClaude : Runner.ClaudeRequest -> Runner.Outcome Runner.ClaudeResponse)
    (searchSoldPrices : text -> Runner.Outcome text)
    (snipeMessage : list Filter.QualifiedLead -> nat -> text)
    (today now : text)
    (config : Runner.ScoutSnipeConfig) (agentConfig : Runner.AgentScoutConfig)
    (scout : Runner.ScoutPhase) (w : Runner.World) :
  Runner.allQualified scout <> [] ->
  Budget.dailyTokenLimit (Budget.loadBudgetConfig (Runner.files w))
    <= recordedToday today (Runner.files w) ->
  let result := Runner.runScoutThenSnipe JSON_parse callClaude searchSoldPrices
                  snipeMessage today now config agentConfig scout w in
  Runner.success result.1 = false
  /\ Runner.abortReason result.1 = Some (str "Daily token limit reached.")
  /\ Runner.error result.1 = None
  /\ Runner.opportunities result.1 = []
  /\ Runner.totalInputTokens result.1 = 0 /\ Runner.totalOutputTokens result.1 = 0
  /\ result.2 = w.
Proof.
  intros Hq Hlimit result. unfold result.
  assert (Ha : Budget.allowed
                 (Budget.checkBudget today (Budget.loadBudgetConfig (Runner.files w))
                    (Runner.files w)) = false).
  { unfold Budget.checkBudget. simpl. rewrite readUsage_total. apply Z.ltb_ge. exact Hlimit. }
  destruct (run_cases JSON_parse callClaude searchSoldPrices snipeMessage today now
              config agentConfig scout w)
    as [Hq' Hw Hs Hi Ho Ht Hc|Hq' Ha' Hw Hs Hop Hi Ho Ht Hc He Hab
       |r st Hq' Ha' Hp Hw Hs Hop Hr Hi Ho Ht Hc|e st Hq' Ha' Hp Hw Hs Hop Hi Ho Ht Hc];
    try congruence.
  repeat split; assumption.
Qed.

Definition spent_world : Runner.World :=
  {| Runner.files :=
       {| Budget.usageFile :=
            Some {| Budget.date := str "2026-03-01"; Budget.totalTokens := 500000;
                    Budget.totalInputTokens := 400000;
                    Budget.totalOutputTokens := 100000; Budget.runs := [] |};
          Budget.configFile := None |};
     Runner.claudeCalls := [];
     Runner.searches := [] |}.

Lemma run_is_refused_over_budget_witness :
  let result := Runner.runScoutThenSnipe (fun _ => None) prose_only search_finds_nothing
                  (fun _ _ => []) (str "2026-03-01") (str "2026-03-01T10:00:00.000Z")
                  retail_run retail_config scout_one_estimated spent_world in
  Runner.success result.1 = false
  /\ Runner.abortReason result.1 = Some (str "Daily token limit reached.")
  /\ Runner.error result.1 = None
  /\ Runner.opportunities result.1 = []
  /\ Runner.totalInputTokens result.1 = 0 /\ Runner.totalOutputTokens result.1 = 0
  /\ result.2 = spent_world.
Proof.
  apply (run_is_refused_over_budget (fun _ => None) prose_only search_finds_nothing
           (fun _ _ => []) (str "2026-03-01") (str "2026-03-01T10:00:00.000Z")
           retail_run retail_config scout_one_estimated spent_world).
  - vm_compute. discriminate.
  - vm_compute. discriminate.
Defined.

Lemma phase_exit
    (callClaude : Runner.ClaudeRequest -> Runner.Outcome Runner.ClaudeResponse)
    (searchSoldPrices : text -> Runner.Outcome text)
    (snipeMessage : list Filter.QualifiedLead -> nat -> text)
    (today now : text)
    (config : Runner.ScoutSnipeConfig) (agentConfig : Runner.AgentScoutConfig)
    (qualified : list Filter.QualifiedLead) (w : Runner.World) :
  match Runner.snipePhase callClaude searchSoldPrices snipeMessage today now
          config agentConfig qualified w with
  | Runner.Final (Some r) st' =>
      exists request, callClaude request = Runner.Returned r
        /\ (List.filter Runner.isToolUse (Runner.response_content r) = []
            \/ (Runner.maxToolCalls <= Runner.toolCallsUsed st')%nat)
  | Runner.Final None _ => True
  | Runner.Failed e _ => exists request, callClaude request = Runner.Thrown e
  end.
Proof. unfold Runner.snipePhase. apply snipeLoop_exit. Qed.

(** X20. A run with qualified leads and budget left ends in one of two ways:
    with an answer the model returned, which asks for no tool or came after
    the fifth tool call, and whose text gives the opportunities and the
    reasoning of a successful result; or with the exception of a call to
    the model, whose message is the error of a failed result.  The loop is
    never left without an answer. *)
Theorem run_ends_with_an_answer_or_the_models_error
    (JSON_parse : text -> option Runner.Json)
    (callClaude : Runner.ClaudeRequest -> Runner.Outcome Runner.ClaudeResponse)
    (searchSoldPrices : text -> Runner.Outcome text)
    (snipeMessage : list Filter.QualifiedLead -> nat -> text)
    (today now : text)
    (config : Runner.ScoutSnipeConfig) (agentConfig : Runner.AgentScoutConfig)
    (scout : Runner.ScoutPhase) (w : Runner.World) :
  Runner.allQualified scout <> [] ->
  recordedToday today (Runner.files w)
    < Budget.dailyTokenLimit (Budget.loadBudgetConfig (Runner.files w)) ->
  let result := Runner.runScoutThenSnipe JSON_parse callClaude searchSoldPrices
                  snipeMessage today now config agentConfig scout w in
  (exists request r,
     callClaude request = Runner.Returned r
     /\ (List.filter Runner.isToolUse (Runner.response_content r) = []
         \/ (5 < Runner.totalToolCalls result.1)%nat)
     /\ Runner.success result.1 = true
     /\ Runner.opportunities result.1 = Runner.parseOpportunities JSON_parse r
     /\ Runner.result_reasoning result.1 = Runner.extractReasoning r
     /\ Runner.error result.1 = None /\ Runner.abortReason result.1 = None)
  \/ (exists request e,
        callClaude request = Runner.Thrown e
        /\ Runner.success result.1 = false
        /\ Runner.error result.1 = Some e
        /\ Runner.opportunities result.1 = []
        /\ Runner.abortReason result.1 = None).
Proof.
  intros Hq Hbudget result. unfold result.
  assert (Ha : Budget.allowed
                 (Budget.checkBudget today (Budget.loadBudgetConfig (Runner.files w))
                    (Runner.files w)) = true).
  { unfold Budget.checkBudget. simpl. rewrite readUsage_total. apply Z.ltb_lt. exact Hbudget. }
  destruct (run_cases JSON_parse callClaude searchSoldPrices snipeMessage today now
              config agentConfig scout w)
    as [Hq' Hw Hs Hi Ho Ht Hc|Hq' Ha' Hw Hs Hop Hi Ho Ht Hc He Hab
       |r st Hq' Ha' Hp Hw Hs Hop Hr Hi Ho Ht Hc He Hab
       |e st Hq' Ha' Hp Hw Hs Hop Hi Ho Ht Hc He Hab];
    try congruence.
  - left.
    pose proof (phase_exit callClaude searchSoldPrices snipeMessage today now config
                  agentConfig (Runner.allQualified scout) w) as Hx.
    rewrite Hp in Hx.
    destruct Hx as (request & Hcall & Hx).
    exists request, r. repeat split; try assumption.
    destruct Hx as [Hx|Hx]; [left; exact Hx|right].
    rewrite Ht. unfold Runner.maxToolCalls in Hx. lia.
  - right.
    pose proof (phase_exit callClaude searchSoldPrices snipeMessage today now config
                  agentConfig (Runner.allQualified scout) w) as Hx.
    rewrite Hp in Hx.
    destruct Hx as (request & Hcall).
    exists request, e. repeat split; assumption.
Qed.

Lemma run_ends_with_an_answer_or_the_models_error_witness :
  let result := Runner.runScoutThenSnipe (fun _ => None) prose_only search_finds_nothing
                  (fun _ _ => []) (str "2026-03-01") (str "2026-03-01T10:00:00.000Z")
                  retail_run retail_config scout_one_estimated empty_world in
  (exists request r,
     prose_only request = Runner.Returned r
     /\ (List.filter Runner.isToolUse (Runner.response_content r) = []
         \/ (5 < Runner.totalToolCalls result.1)%nat)
     /\ Runner.success result.1 = true
     /\ Runner.opportunities result.1 = Runner.parseOpportunities (fun _ => None) r
     /\ Runner.result_reasoning result.1 = Runner.extractReasoning r
     /\ Runner.error result.1 = None /\ Runner.abortReason result.1 = None)
  \/ (exists request e,
        prose_only request = Runner.Thrown e
        /\ Runner.success result.1 = false
        /\ Runner.error result.1 = Some e
        /\ Runner.opportunities result.1 = []
        /\ Runner.abortReason result.1 = None).
Proof.
  apply (run_ends_with_an_answer_or_the_models_error (fun _ => None) prose_only
           search_finds_nothing (fun _ _ => []) (str "2026-03-01")
           (str "2026-03-01T10:00:00.000Z") retail_run retail_config
           scout_one_estimated empty_world).
  - vm_compute. discriminate.
  - vm_compute. reflexivity.
Defined.

(** ** The queue: run ids, status, order of service *)

Section QueueOrder.
Import AgentQueue QueueStatus.

(** Run ids in use were issued by the counter. *)
Definition ids_issued (s : State) : Prop :=
  forall id t, activeRuns s !! id = Some t -> (id <= runIdCounter s)%nat.

Lemma processLoop_ids (q : list QueuedRun) (active : gmap nat AgentType)
    (counter : nat) (eff : list Effect) :
  (forall id t, active !! id = Some t -> (id <= counter)%nat) ->
  ids_issued (processLoop q active counter eff).
Proof.
  revert active counter eff. induction q as [|next q IH]; intros active counter eff H.
  - exact H.
  - simpl. destruct (size active <? MAX_CONCURRENT)%nat; [|exact H].
    apply IH. intros id t Hid. destruct (decide (S counter = id)) as [<-|Hne]; [lia|].
    rewrite lookup_insert_ne in Hid by exact Hne. apply H in Hid. lia.
Qed.

Lemma step_ids (s : State) (e : Event) : ids_issued s -> ids_issued (step s e).
Proof.
  intros H. destruct e as [t tk|runId]; simpl.
  - unfold enqueueAgentRun. destruct (isAgentRunning t s); [exact H|].
    destruct (removeQueued t (queue s)) as [[removed q']|];
      destruct (size (activeRuns s) <? MAX_CONCURRENT)%nat; simpl; try exact H;
      intros id u Hid; simpl in *;
      (destruct (decide (S (runIdCounter s) = id)) as [<-|Hne]; [lia|];
       rewrite lookup_insert_ne in Hid by exact Hne; apply H in Hid; lia).
  - unfold finishRun, processQueue. simpl. apply processLoop_ids.
    intros id t Hid. apply lookup_delete_Some in Hid as [_ Hid]. exact (H id t Hid).
Qed.

Lemma run_ids (events : list Event) : ids_issued (run events).
Proof.
  unfold run.
  assert (H : forall s, ids_issued s -> ids_issued (fold_left step events s)).
  { induction events as [|e events IH]; intros s Hs; simpl; [exact Hs|].
    apply IH. apply step_ids. exact Hs. }
  apply H. intros id t Hid. simpl in Hid. rewrite lookup_empty in Hid. discriminate.
Qed.

Lemma activeValues_Permutation (s : State) :
  Permutation (activeValues s) (map snd (map_to_list (activeRuns s))).
Proof. unfold activeValues. apply Permutation_map. apply Array_sort_Permutation. Qed.

Lemma activeValues_In (s : State) (t : AgentType) :
  In t (activeValues s) <-> exists id, activeRuns s !! id = Some t.
Proof.
  split.
  - intros H. apply (Permutation_in _ (activeValues_Permutation s)) in H.
    apply in_map_iff in H as ([id u] & <- & H). exists id.
    apply elem_of_map_to_list. apply list_elem_of_In. exact H.
  - intros (id & H). apply (Permutation_in _ (Permutation_sym (activeValues_Permutation s))).
    apply in_map_iff. exists (id, t). split; [reflexivity|].
    apply list_elem_of_In. apply elem_of_map_to_list. exact H.
Qed.

Lemma NoDup_map_snd (l : list (nat * AgentType)) :
  List.NoDup l ->
  (forall i j t, In (i, t) l -> In (j, t) l -> i = j) ->
  List.NoDup (map snd l).
Proof.
  induction l as [|[i t] l IH]; intros Hnd Hinj; simpl; [constructor|].
  apply List.NoDup_cons_iff in Hnd as [Hn Hnd]. constructor.
  - intros C. apply in_map_iff in C as ([j u] & E & C). simpl in E. subst u.
    assert (i = j) by (apply (Hinj i j t); [left; reflexivity|right; exact C]).
    subst j. contradiction.
  - apply IH; [exact Hnd|]. intros a b u Ha Hb. apply (Hinj a b u); right; assumption.
Qed.

Lemma activeValues_NoDup (s : State) : QueueInv s -> List.NoDup (activeValues s).
Proof.
  intros Hinv.
  apply (Permutation_NoDup (Permutation_sym (activeValues_Permutation s))).
  apply NoDup_map_snd.
  - apply NoDup_ListNoDup. apply NoDup_map_to_list.
  - intros i j t Hi Hj. apply (inv_active_once s Hinv i j t);
      apply elem_of_map_to_list; apply list_elem_of_In; assumption.
Qed.

Lemma activeValues_length (s : State) : length (activeValues s) = size (activeRuns s).
Proof.
  unfold activeValues. rewrite length_map, Array_sort_length.
  apply length_map_to_list.
Qed.

Lemma status_of_invariant (s : State) :
  QueueInv s ->
  let st := getQueueStatus s in
  List.NoDup (active st ++ queued st)
  /\ activeCount st = length (active st)
  /\ queuedCount st = length (queued st)
  /\ (activeCount st <= 2)%nat
  /\ (queued st <> [] -> activeCount st = 2%nat)
  /\ (forall t, isAgentRunning t s = true <-> In t (active st)).
Proof.
  intros Hinv. simpl. repeat split.
  - apply NoDup_ListNoDup. apply NoDup_app. repeat split.
    + apply NoDup_ListNoDup. apply activeValues_NoDup. exact Hinv.
    + intros t Ht Hq. apply list_elem_of_In in Ht, Hq.
      apply activeValues_In in Ht as (id & Hid).
      apply in_map_iff in Hq as (q & <- & Hq).
      exact (inv_queued_idle s Hinv q id Hq Hid).
    + apply NoDup_ListNoDup. exact (inv_queued_once s Hinv).
  - symmetry. apply activeValues_length.
  - rewrite length_map. reflexivity.
  - exact (inv_cap s Hinv).
  - intros Hq. pose proof (inv_cap s Hinv) as Hc.
    assert (queue s <> []) by (intros C; rewrite C in Hq; apply Hq; reflexivity).
    pose proof (inv_full s Hinv H). unfold MAX_CONCURRENT in *. lia.
  - intros H. apply activeValues_In. apply isAgentRunning_spec. exact H.
  - intros H. apply isAgentRunning_spec. apply activeValues_In. exact H.
Qed.

(** The end of an active run starts the entry at the head of the queue. *)
Lemma finishRun_head (runId : nat) (next : QueuedRun) (rest : list QueuedRun) (s : State) :
  QueueInv s -> ids_issued s ->
  is_Some (activeRuns s !! runId) -> queue s = next :: rest ->
  finishRun runId s
  = {| activeRuns := <[S (runIdCounter s) := agentType next]> (delete runId (activeRuns s));
       queue := rest;
       runIdCounter := S (runIdCounter s);
       effects := effects s ++ [Resolved (ticket next);
                                Executed (ticket next) (S (runIdCounter s))] |}.
Proof.
  intros Hinv Hids [t Hrun] Hq.
  assert (Hsize : size (activeRuns s) = 2%nat).
  { pose proof (inv_cap s Hinv). pose proof (inv_full s Hinv) as Hf.
    rewrite Hq in Hf. specialize (Hf ltac:(discriminate)).
    unfold MAX_CONCURRENT in *. lia. }
  assert (Hdel : size (delete runId (activeRuns s)) = 1%nat).
  { rewrite map_size_delete_Some by (exists t; exact Hrun). lia. }
  assert (Hfresh : delete runId (activeRuns s) !! S (runIdCounter s) = None).
  { destruct (delete runId (activeRuns s) !! S (runIdCounter s)) as [u|] eqn:E;
      [|reflexivity].
    apply lookup_delete_Some in E as [_ E]. apply Hids in E. lia. }
  unfold finishRun, processQueue. simpl. rewrite Hq. simpl.
  rewrite Hdel. simpl.
  assert (Hins : size (<[S (runIdCounter s) := agentType next]>
                         (delete runId (activeRuns s))) = 2%nat).
  { rewrite map_size_insert_None by exact Hfresh. lia. }
  destruct rest as [|r rest]; simpl; [reflexivity|].
  rewrite Hins. reflexivity.
Qed.

(** The end of a run that is not active changes nothing. *)
Lemma finishRun_unknown (runId : nat) (s : State) :
  QueueInv s -> activeRuns s !! runId = None -> finishRun runId s = s.
Proof.
  intros Hinv Hnone. unfold finishRun, processQueue. simpl.
  rewrite delete_id by exact Hnone.
  destruct s as [act q c eff]. simpl in *.
  destruct q as [|next q]; [reflexivity|]. simpl.
  pose proof (inv_full _ Hinv) as Hf. simpl in Hf. specialize (Hf ltac:(discriminate)).
  replace (size act <? MAX_CONCURRENT)%nat with false
    by (symmetry; apply Nat.ltb_ge; exact Hf).
  reflexivity.
Qed.
End QueueOrder.

(** X21. What getQueueStatus reports after any sequence of enqueue calls and
    run completions: no agent type occurs twice among the active and the
    queued entries, the two counts are the lengths of the two lists, at most
    two runs are active, runs wait only while two are active, and
    isAgentRunning holds exactly of the active types. *)
Theorem queue_status_is_consistent (events : list AgentQueue.Event) :
  let s := AgentQueue.run events in
  let st := QueueStatus.getQueueStatus s in
  List.NoDup (QueueStatus.active st ++ QueueStatus.queued st)
  /\ QueueStatus.activeCount st = length (QueueStatus.active st)
  /\ QueueStatus.queuedCount st = length (QueueStatus.queued st)
  /\ (QueueStatus.activeCount st <= 2)%nat
  /\ (QueueStatus.queued st <> [] -> QueueStatus.activeCount st = 2%nat)
  /\ (forall t, AgentQueue.isAgentRunning t s = true <-> In t (QueueStatus.active st)).
Proof. intros s st. apply status_of_invariant. apply run_inv. Qed.

(** X22. The queue is served in order: when an active run ends while others
    wait, the entry at the head of the queue is started under a fresh run
    id, its promise resolved before its callback is executed, and the
    others keep their places.  The end of a run that is not active changes
    nothing. *)
Theorem finished_run_starts_the_head_of_the_queue
    (events : list AgentQueue.Event) (runId : nat) :
  let s := AgentQueue.run events in
  (forall next rest,
     is_Some (AgentQueue.activeRuns s !! runId) ->
     AgentQueue.queue s = next :: rest ->
     AgentQueue.finishRun runId s
     = {| AgentQueue.activeRuns :=
            <[S (AgentQueue.runIdCounter s) := AgentQueue.agentType next]>
              (delete runId (AgentQueue.activeRuns s));
          AgentQueue.queue := rest;
          AgentQueue.runIdCounter := S (AgentQueue.runIdCounter s);
          AgentQueue.effects :=
            AgentQueue.effects s
              ++ [AgentQueue.Resolved (AgentQueue.ticket next);
                  AgentQueue.Executed (AgentQueue.ticket next)
                    (S (AgentQueue.runIdCounter s))] |}
     /\ AgentQueue.activeRuns s !! S (AgentQueue.runIdCounter s) = None)
  /\ (AgentQueue.activeRuns s !! runId = None -> AgentQueue.finishRun runId s = s).
Proof.
  intros s. split.
  - intros next rest Hrun Hq. split.
    + apply finishRun_head; [apply run_inv|apply run_ids|exact Hrun|exact Hq].
    + destruct (AgentQueue.activeRuns s !! S (AgentQueue.runIdCounter s)) as [u|] eqn:E;
        [|reflexivity].
      subst s. apply (run_ids events) in E. lia.
  - apply finishRun_unknown. apply run_inv.
Qed.

Lemma finished_run_starts_the_head_of_the_queue_witness :
  AgentQueue.queue (AgentQueue.finishRun 1 (AgentQueue.run sample_events)) = []
  /\ AgentQueue.effects (AgentQueue.finishRun 1 (AgentQueue.run sample_events))
     = AgentQueue.effects (AgentQueue.run sample_events)
         ++ [AgentQueue.Resolved 3; AgentQueue.Executed 3 3].
Proof.
  pose proof (proj1 (finished_run_starts_the_head_of_the_queue sample_events 1)
                {| AgentQueue.agentType := AgentQueue.crypto; AgentQueue.ticket := 3 |} [])
    as H.
  destruct H as [H _].
  - vm_compute. eexists. reflexivity.
  - reflexivity.
  - rewrite H. split; reflexivity.
Defined.

(** ** The queue: what becomes of a callback *)

(** The callbacks executed, the queued callbacks rejected, and those still
    waiting, by ticket. *)
Definition executedTickets (s : AgentQueue.State) : list nat :=
  flat_map (fun e => match e with AgentQueue.Executed tk _ => [tk] | _ => [] end)
    (AgentQueue.effects s).

Definition rejectedTickets (s : AgentQueue.State) : list nat :=
  flat_map (fun e => match e with AgentQueue.Rejected tk => [tk] | _ => [] end)
    (AgentQueue.effects s).

Definition queuedTickets (s : AgentQueue.State) : list nat :=
  map AgentQueue.ticket (AgentQueue.queue s).

Definition enqueuedTickets (events : list AgentQueue.Event) : list nat :=
  flat_map (fun e => match e with AgentQueue.Enqueue _ tk => [tk] | _ => [] end) events.

Section TicketFacts.
Import AgentQueue.

Definition occ (tk : nat) (l : list nat) : nat := count_occ Nat.eq_dec l tk.

Definition tracked (tk : nat) (s : State) : nat :=
  (occ tk (executedTickets s) + occ tk (rejectedTickets s) + occ tk (queuedTickets s))%nat.

Lemma occ_app (tk : nat) (l1 l2 : list nat) :
  occ tk (l1 ++ l2) = (occ tk l1 + occ tk l2)%nat.
Proof. apply count_occ_app. Qed.

Lemma processLoop_tracked (tk : nat) (q : list QueuedRun) (active : gmap nat AgentType)
    (counter : nat) (eff : list Effect) :
  tracked tk (processLoop q active counter eff)
  = tracked tk {| activeRuns := active; queue := q; runIdCounter := counter;
                  effects := eff |}.
Proof.
  revert active counter eff. induction q as [|next q IH]; intros active counter eff.
  - reflexivity.
  - simpl. destruct (size active <? MAX_CONCURRENT)%nat; [|reflexivity].
    rewrite IH. unfold tracked, executedTickets, rejectedTickets, queuedTickets. simpl.
    rewrite !flat_map_app, !occ_app. simpl. unfold occ. simpl.
    destruct (Nat.eq_dec (ticket next) tk); lia.
Qed.

Lemma removeQueued_tickets (tk : nat) (t : AgentType) (q : list QueuedRun)
    (removed : QueuedRun) (q' : list QueuedRun) :
  removeQueued t q = Some (removed, q') ->
  occ tk (map ticket q) = (occ tk [ticket removed] + occ tk (map ticket q'))%nat.
Proof.
  intros H. apply removeQueued_Some in H as (_ & pre & post & -> & -> & _).
  rewrite !map_app, !occ_app. simpl. unfold occ. simpl.
  destruct (Nat.eq_dec (ticket removed) tk); lia.
Qed.

Lemma step_tracked (tk : nat) (s : State) (e : Event) :
  (tracked tk (step s e) <= tracked tk s + occ tk (enqueuedTickets [e]))%nat.
Proof.
  destruct e as [t tk'|runId]; simpl.
  - unfold enqueueAgentRun. destruct (isAgentRunning t s); [simpl; lia|].
    destruct (removeQueued t (queue s)) as [[removed q']|] eqn:Er.
    + pose proof (removeQueued_tickets tk _ _ _ _ Er) as Hq.
      destruct (size (activeRuns s) <? MAX_CONCURRENT)%nat;
        unfold tracked, executedTickets, rejectedTickets, queuedTickets in *; simpl;
        rewrite ?flat_map_app, ?map_app, ?occ_app; simpl; rewrite Hq;
        unfold occ; simpl; destruct (Nat.eq_dec tk' tk); lia.
    + destruct (size (activeRuns s) <? MAX_CONCURRENT)%nat;
        unfold tracked, executedTickets, rejectedTickets, queuedTickets in *; simpl;
        rewrite ?flat_map_app, ?map_app, ?occ_app; simpl;
        unfold occ; simpl; destruct (Nat.eq_dec tk' tk); lia.
  - unfold finishRun, processQueue. simpl. rewrite processLoop_tracked.
    unfold tracked, queuedTickets, executedTickets, rejectedTickets. simpl. lia.
Qed.

Lemma enqueuedTickets_cons (e : Event) (events : list Event) :
  enqueuedTickets (e :: events) = enqueuedTickets [e] ++ enqueuedTickets events.
Proof. unfold enqueuedTickets. simpl. rewrite app_nil_r. reflexivity. Qed.

Lemma run_tracked (tk : nat) (events : list Event) :
  (tracked tk (run events) <= occ tk (enqueuedTickets events))%nat.
Proof.
  unfold run.
  assert (H : forall s,
            (tracked tk (fold_left step events s)
             <= tracked tk s + occ tk (enqueuedTickets events))%nat).
  { induction events as [|e events IH]; intros s; [simpl; lia|].
    cbn [fold_left]. etransitivity; [apply IH|].
    pose proof (step_tracked tk s e) as Hs.
    rewrite enqueuedTickets_cons, occ_app. lia. }
  specialize (H initial). unfold tracked at 2 in H. simpl in H. exact H.
Qed.
End TicketFacts.

(** X23. No callback is used twice: when the tickets of the enqueue calls
    are pairwise distinct, every ticket occurs at most once among the
    callbacks executed, the queued callbacks rejected and those still
    waiting; and each of these was enqueued. *)
Theorem every_callback_has_one_fate (events : list AgentQueue.Event) :
  List.NoDup (enqueuedTickets events) ->
  let s := AgentQueue.run events in
  List.NoDup (executedTickets s ++ rejectedTickets s ++ queuedTickets s)
  /\ (forall tk, In tk (executedTickets s ++ rejectedTickets s ++ queuedTickets s) ->
        In tk (enqueuedTickets events)).
Proof.
  intros Hnd s.
  assert (Hc : forall tk,
            (count_occ Nat.eq_dec
               (executedTickets s ++ rejectedTickets s ++ queuedTickets s) tk
             <= count_occ Nat.eq_dec (enqueuedTickets events) tk)%nat).
  { intros tk. pose proof (run_tracked tk events) as H.
    unfold tracked, occ in H. rewrite !count_occ_app. fold s in H. lia. }
  split.
  - apply (NoDup_count_occ Nat.eq_dec). intros tk.
    etransitivity; [apply Hc|]. apply (NoDup_count_occ Nat.eq_dec). exact Hnd.
  - intros tk H. apply (count_occ_In Nat.eq_dec) in H.
    apply (count_occ_In Nat.eq_dec). specialize (Hc tk). lia.
Qed.

Definition busy_events : list AgentQueue.Event :=
  [AgentQueue.Enqueue AgentQueue.retail 1; AgentQueue.Enqueue AgentQueue.books 2;
   AgentQueue.Enqueue AgentQueue.crypto 3; AgentQueue.Enqueue AgentQueue.crypto 4;
   AgentQueue.Finish 1; AgentQueue.Enqueue AgentQueue.books 5].

Lemma every_callback_has_one_fate_witness :
  let s := AgentQueue.run busy_events in
  List.NoDup (executedTickets s ++ rejectedTickets s ++ queuedTickets s)
  /\ (forall tk, In tk (executedTickets s ++ rejectedTickets s ++ queuedTickets s) ->
        In tk (enqueuedTickets busy_events)).
Proof.
  apply (every_callback_has_one_fate busy_events).
  vm_compute. repeat constructor; simpl; intuition discriminate.
Defined.

Example busy_events_fates :
  let s := AgentQueue.run busy_events in
  executedTickets s = [1; 2; 4]%nat /\ rejectedTickets s = [3]%nat
  /\ queuedTickets s = []%nat.
Proof. vm_compute. repeat split. Qed.

(** ** The two parsers of the model's answer *)

(** X24. The parser of the snipe phase returns what the base agent's parser
    returns, each element with its sellPriceType filled in; the base
    parser's elements are elements of the parsed array that pass the test,
    returned as they are; filling in sellPriceType changes no other field;
    and a missing response gives no opportunity and no reasoning. *)
Theorem snipe_parser_extends_base_parser
    (JSON_parse : text -> option Runner.Json) (response : Runner.ClaudeResponse) :
  Runner.parseOpportunities JSON_parse response
  = map Runner.withSellPriceType (BaseAgent.parseOpportunities JSON_parse (Some response))
  /\ (forall o,
        In o (BaseAgent.parseOpportunities JSON_parse (Some response)) ->
        passes o = true
        /\ (exists c parsed,
              blockContent (Runner.responseText response) = Some c
              /\ JSON_parse c = Some (Runner.JArr parsed) /\ In o parsed)
        /\ forall key, key <> str "sellPriceType" ->
             Runner.prop (Runner.withSellPriceType o) key = Runner.prop o key)
  /\ BaseAgent.parseOpportunities JSON_parse None = []
  /\ BaseAgent.extractFullReasoning (Some response) = Runner.extractReasoning response
  /\ BaseAgent.extractFullReasoning None = [].
Proof.
  split; [|split; [|repeat split]].
  - unfold Runner.parseOpportunities, BaseAgent.parseOpportunities.
    destruct (search Runner.opportunitiesPattern (Runner.responseText response));
      [|reflexivity].
    destruct (JSON_parse _) as [[]|]; try reflexivity.
    destruct (Runner.filterOpportunities elements); reflexivity.
  - intros o H. unfold BaseAgent.parseOpportunities in H. unfold blockContent.
    destruct (search Runner.opportunitiesPattern (Runner.responseText response)) as [m|];
      [|contradiction].
    destruct (JSON_parse (default [] (cap 1 m))) as [[]|] eqn:Ep; try contradiction.
    destruct (Runner.filterOpportunities elements) as [kept|e] eqn:Ef; [|contradiction].
    apply filterOpportunities_kept in Ef. subst kept.
    apply filter_In in H as [Hin Hpass].
    split; [exact Hpass|]. split.
    + exists (default [] (cap 1 m)), elements. repeat split; assumption.
    + intros key Hkey. apply passes_object in Hpass as (fields & -> & _).
      unfold Runner.withSellPriceType, Runner.prop. simpl.
      apply assoc_setProp_other. exact Hkey.
Qed.

Definition two_opportunities : Runner.Json :=
  Runner.JArr [complete_opportunity; untyped_opportunity].

Lemma snipe_parser_extends_base_parser_witness :
  passes untyped_opportunity = true
  /\ (exists c parsed,
        blockContent (Runner.responseText answer_with_block) = Some c
        /\ parses_as two_opportunities c = Some (Runner.JArr parsed)
        /\ In untyped_opportunity parsed)
  /\ forall key, key <> str "sellPriceType" ->
       Runner.prop (Runner.withSellPriceType untyped_opportunity) key
       = Runner.prop untyped_opportunity key.
Proof.
  apply (proj1 (proj2 (snipe_parser_extends_base_parser (parses_as two_opportunities)
                         answer_with_block))).
  vm_compute. right. left. reflexivity.
Defined.

(** ** Helpers of the feed parsers *)

Section FeedFacts.
Import Feeds.

Lemma match_here_lit (w : string) (s rest : text) (caps : captures) :
  match_here (lit w) s = Some (rest, caps) -> s = str w ++ rest.
Proof.
  unfold match_here. intros H. apply rmatch_lit in H as (s' & -> & H).
  injection H as <- _. reflexivity.
Qed.

(** A literal whose first code unit does not occur is not replaced. *)
Lemma replace_all_lit_absent (w : string) (rep : text) (c0 : char) (s : text) :
  head (str w) = Some c0 -> ~ In c0 s -> replace_all (lit w) rep 0 s = s.
Proof.
  intros Hw. induction s as [|c s IH]; intros Hs; [reflexivity|].
  cbn [replace_all].
  destruct (match_here (lit w) (c :: s)) as [[rest caps]|] eqn:E.
  - exfalso. apply match_here_lit in E. apply Hs. rewrite E.
    destruct (str w) as [|x l]; [discriminate|]. injection Hw as ->. left. reflexivity.
  - rewrite IH; [reflexivity|]. intros C. apply Hs. right. exact C.
Qed.

(** Replacing a literal by a text that is not longer does not lengthen. *)
Lemma replace_all_lit_length (w : string) (rep : text) :
  (length rep <= length (str w))%nat ->
  forall (s : text) (skip : nat),
    (length (replace_all (lit w) rep skip s) + Nat.min skip (length s) <= length s)%nat.
Proof.
  intros Hrep. induction s as [|c s IH]; intros skip; [simpl; lia|].
  cbn [replace_all]. destruct skip as [|n].
  - destruct (match_here (lit w) (c :: s)) as [[rest caps]|] eqn:E.
    + apply match_here_lit in E.
      pose proof (f_equal length E) as El. rewrite length_app in El.
      rewrite length_app.
      specialize (IH (length (c :: s) - length rest - 1)%nat).
      simpl length in *. lia.
    + specialize (IH 0%nat). simpl. simpl in IH. lia.
  - specialize (IH n). simpl. lia.
Qed.

Lemma decodeHTMLEntities_length (t : text) :
  (length (decodeHTMLEntities t) <= length t)%nat.
Proof.
  unfold decodeHTMLEntities, entities. cbn [fold_left].
  repeat match goal with
  | |- (length (replace_all (lit ?w) ?rep 0 ?s) <= _)%nat =>
      etransitivity;
        [pose proof (replace_all_lit_length w rep ltac:(simpl; lia) s 0%nat) as H;
         simpl Nat.min in H; rewrite Nat.add_0_r in H; exact H|]
  end.
  reflexivity.
Qed.

Lemma decodeHTMLEntities_plain (t : text) :
  ~ In (N_of_ascii "&") t -> decodeHTMLEntities t = t.
Proof.
  intros H. unfold decodeHTMLEntities, entities. cbn [fold_left].
  repeat rewrite (replace_all_lit_absent _ _ (N_of_ascii "&") t) by (reflexivity || exact H).
  reflexivity.
Qed.

Lemma truthyPrice_extractPrice (t : text) :
  truthyPrice (extractPrice t) = match extractPrice t with Some _ => true | None => false end.
Proof.
  destruct (extractPrice t) as [c|] eqn:E; [|reflexivity].
  apply extractPrice_amount in E as [E _].
  simpl. apply negb_true_iff. apply Z.eqb_neq. lia.
Qed.
End FeedFacts.

(** X25. Decoding the HTML entities never lengthens a text, and leaves a text
    without an ampersand as it is. *)
Theorem decodeHTMLEntities_shortens_or_keeps (t : text) :
  (length (Feeds.decodeHTMLEntities t) <= length t)%nat
  /\ (~ In (N_of_ascii "&") t -> Feeds.decodeHTMLEntities t = t).
Proof. split; [apply decodeHTMLEntities_length|apply decodeHTMLEntities_plain]. Qed.

Example decodeHTMLEntities_decodes_twice :
  Feeds.decodeHTMLEntities (str "1 &amp;lt; 2 &amp; 3&nbsp;&gt; 2") = str "1 < 2 & 3 > 2".
Proof. vm_compute. reflexivity. Qed.

(** X26. The price of a Craigslist item is the first price found in the
    title, the description and the dc:format tag, in that order; the
    truthiness tests of the code never discard a price, because no
    extracted price is zero; the result lies between 1 and 99999999 cents. *)
Theorem extractCraigslistPrice_takes_the_first_price (title description rawXml : text) :
  Feeds.extractCraigslistPrice title description rawXml
  = match extractPrice title with
    | Some p => Some p
    | None =>
        match extractPrice description with
        | Some p => Some p
        | None =>
            match search Feeds.dcFormatPattern rawXml with
            | Some dcMatch => extractPrice (default [] (cap 1 dcMatch))
            | None => None
            end
        end
    end
  /\ (forall p, Feeds.extractCraigslistPrice title description rawXml = Some p ->
        1 <= p <= 99999999).
Proof.
  assert (E : Feeds.extractCraigslistPrice title description rawXml
              = match extractPrice title with
                | Some p => Some p
                | None =>
                    match extractPrice description with
                    | Some p => Some p
                    | None =>
                        match search Feeds.dcFormatPattern rawXml with
                        | Some dcMatch => extractPrice (default [] (cap 1 dcMatch))
                        | None => None
                        end
                    end
                end).
  { unfold Feeds.extractCraigslistPrice. rewrite !truthyPrice_extractPrice.
    destruct (extractPrice title); [reflexivity|].
    destruct (extractPrice description); [reflexivity|].
    destruct (search Feeds.dcFormatPattern rawXml) as [m|]; [|reflexivity].
    rewrite truthyPrice_extractPrice.
    destruct (extractPrice (default [] (cap 1 m))); reflexivity. }
  split; [exact E|].
  intros p. rewrite E.
  destruct (extractPrice title) as [p1|] eqn:E1.
  { intros H. injection H as <-. exact (proj1 (extractPrice_amount _ _ E1)). }
  destruct (extractPrice description) as [p2|] eqn:E2.
  { intros H. injection H as <-. exact (proj1 (extractPrice_amount _ _ E2)). }
  destruct (search Feeds.dcFormatPattern rawXml) as [m|]; [|discriminate].
  intros H. exact (proj1 (extractPrice_amount _ _ H)).
Qed.

Example extractCraigslistPrice_sample :
  Feeds.extractCraigslistPrice (str "MacBook Pro 2021") (str "barely used")
    (str "<title>MacBook Pro 2021</title><dc:format xmlns='x'>USD 800</dc:format>")
  = Some 80000.
Proof. vm_compute. reflexivity. Qed.

Section DealPairFacts.
Import Filter.

Lemma parseDollar_range (s : text) : 0 <= parseDollar s <= 100000000.
Proof.
  unfold parseDollar. destruct (parseFloat (strip_commas s)) as [num|]; [|lia].
  destruct (Qltb 0 num && Qltb num 1000000) eqn:E; [|lia].
  apply andb_true_iff in E as [E0 E1]. unfold Qltb in *.
  apply negb_true_iff in E0, E1.
  assert (L0 : (0 <= num)%Q).
  { apply Qlt_le_weak, Qnot_le_lt. intros C. apply Qle_bool_iff in C. congruence. }
  assert (L1 : (num <= 1000000)%Q).
  { apply Qlt_le_weak, Qnot_le_lt. intros C. apply Qle_bool_iff in C. congruence. }
  split.
  - apply Math_round_nonneg. apply Qmult_le_0_compat; [exact L0|discriminate].
  - replace 100000000 with (Math_round (1000000 * 100)) by (vm_compute; reflexivity).
    apply Math_round_mono. apply Qmult_le_compat_r; [exact L1|discriminate].
Qed.

Lemma tryPattern_range (pattern : regex) (i j : nat) (t : text) (p : PricePair) :
  tryPattern pattern i j t = Some p -> regularPrice p <= 100000000.
Proof.
  unfold tryPattern. destruct (search pattern t) as [m|]; [|discriminate].
  destruct (_ && _); [|discriminate]. intros H. injection H as <-. simpl.
  apply parseDollar_range.
Qed.

Lemma extractDealPricePair_range (t : text) (p : PricePair) :
  extractDealPricePair t = Some p -> regularPrice p <= 100000000.
Proof.
  unfold extractDealPricePair.
  destruct (tryPattern pctOffPattern 1 2 t) eqn:E1;
    [intros H; injection H as <-; exact (tryPattern_range _ _ _ _ _ E1)|].
  destruct (tryPattern wasPattern 1 2 t) eqn:E2;
    [intros H; injection H as <-; exact (tryPattern_range _ _ _ _ _ E2)|].
  destruct (tryPattern wasNowPattern 2 1 t) eqn:E3;
    [intros H; injection H as <-; exact (tryPattern_range _ _ _ _ _ E3)|].
  apply tryPattern_range.
Qed.
End DealPairFacts.

(** X27. A price pair of extractDealPricePair is ordered and in range: the
    deal price is positive and below the regular price, which is at most
    100000000 cents; the text shows a dollar sign.  A text without a dollar
    sign has no price pair and no price. *)
Theorem deal_price_pair_is_ordered (t : text) :
  (forall p, Filter.extractDealPricePair t = Some p ->
     0 < Filter.dealPrice p < Filter.regularPrice p
     /\ Filter.regularPrice p <= 100000000
     /\ has_dollar t)
  /\ (~ has_dollar t ->
      Filter.extractDealPricePair t = None /\ extractAllPrices t = []).
Proof.
  split.
  - intros p H. split; [exact (extractDealPricePair_ordered t p H)|].
    split; [exact (extractDealPricePair_range t p H)|].
    exact (extractDealPricePair_dollar t p H).
  - intros Hno. split.
    + destruct (Filter.extractDealPricePair t) as [p|] eqn:E; [|reflexivity].
      exfalso. apply Hno. exact (extractDealPricePair_dollar t p E).
    + destruct (extractAllPrices t) as [|c l] eqn:E; [reflexivity|].
      exfalso. apply Hno. apply (extractAllPrices_dollar t c). rewrite E. left. reflexivity.
Qed.

Lemma deal_price_pair_is_ordered_witness :
  0 < 4499 < 10000 /\ 10000 <= 100000000
  /\ has_dollar (str "Widget $44.99 (Regular Price $100)").
Proof.
  apply (proj1 (deal_price_pair_is_ordered (str "Widget $44.99 (Regular Price $100)"))
           {| Filter.dealPrice := 4499; Filter.regularPrice := 10000 |}).
  vm_compute. reflexivity.
Defined.

(** ** The resale entry of a lead *)

Section ResaleEntryFacts.
Import Filter ResaleLookup.
Variable isListingUrl : text -> bool.
Variable keeps : Z -> Z -> bool.
Variable encodeURIComponent : text -> text.

(** A price kept from one of the listing results. *)
Definition listing_price (buy : Z) (results : list SearchResult) (price : Z) : Prop :=
  exists result,
    In result results /\ isListingUrl (result_url result) = true
    /\ In price (extractAllPrices (resultText result))
    /\ keeps buy price = true.

Lemma listingStep_inv (buy : Z) (all : list SearchResult) (acc : Listing)
    (result : SearchResult) :
  In result all ->
  listingDataPoints acc = Z.of_nat (length (listingPrices acc)) ->
  Forall (listing_price buy all) (listingPrices acc) ->
  let acc' := listingStep isListingUrl keeps buy acc result in
  listingDataPoints acc' = Z.of_nat (length (listingPrices acc'))
  /\ Forall (listing_price buy all) (listingPrices acc').
Proof.
  intros Hin Hn Hall. unfold listingStep.
  destruct (isListingUrl (result_url result)) eqn:El; simpl; [|split; assumption].
  split.
  - rewrite length_app, Hn. lia.
  - apply List.Forall_app. split; [exact Hall|].
    apply List.Forall_forall. intros p Hp. apply filter_In in Hp as [Hp Hk].
    exists result. repeat split; assumption.
Qed.

Lemma listing_fold_inv (buy : Z) (all results : list SearchResult) (acc : Listing) :
  (forall r, In r results -> In r all) ->
  listingDataPoints acc = Z.of_nat (length (listingPrices acc)) ->
  Forall (listing_price buy all) (listingPrices acc) ->
  let acc' := fold_left (listingStep isListingUrl keeps buy) results acc in
  listingDataPoints acc' = Z.of_nat (length (listingPrices acc'))
  /\ Forall (listing_price buy all) (listingPrices acc').
Proof.
  revert acc. induction results as [|r results IH]; intros acc Hsub Hn Hall.
  - split; assumption.
  - cbn [fold_left].
    destruct (listingStep_inv buy all acc r (Hsub r (or_introl eq_refl)) Hn Hall)
      as [Hn' Hall'].
    apply IH; [|exact Hn'|exact Hall'].
    intros x Hx. apply Hsub. right. exact Hx.
Qed.

Lemma median_In (l : list Z) :
  l <> [] ->
  In (nth (length (Array_sort (fun a b => a - b) l) / 2)
        (Array_sort (fun a b => a - b) l) 0) l.
Proof.
  intros Hne. apply (Array_sort_In (fun a b => a - b)). apply nth_In.
  rewrite Array_sort_length.
  assert (0 < length l)%nat by (destruct l; [congruence|simpl; lia]).
  apply Nat.div_lt; lia.
Qed.

Lemma resaleInfo_cases (cleanTitle : text) (buy : Z) (results : list SearchResult) :
  let info := resaleInfo isListingUrl keeps encodeURIComponent cleanTitle buy results in
  (priceType info = Some research_needed /\ estimatedPrice info = 0
   /\ dataPoints info = 0 /\ Filter.listingDataPoints info = Some 0
   /\ platform info = str "eBay")
  \/ (listing_price buy results (estimatedPrice info)
      /\ 1 <= estimatedPrice info <= 99999999
      /\ 1 <= dataPoints info
      /\ Filter.listingDataPoints info = Some (dataPoints info)
      /\ priceType info
         = Some (if 2 <=? dataPoints info then verified else estimated)).
Proof.
  unfold resaleInfo.
  pose proof (listing_fold_inv buy results results
                {| listingPrices := []; listingDataPoints := 0;
                   bestListingUrl := []; bestListingPlatform := [] |}
                (fun r H => H) eq_refl (List.Forall_nil _)) as [Hn Hall].
  destruct (fold_left (listingStep isListingUrl keeps buy) results _) as [prices n url pf].
  simpl in Hn, Hall. cbv zeta. simpl listingPrices.
  destruct prices as [|p prices]; [left; repeat split|right].
  simpl.
  set (l := p :: prices) in *.
  assert (Hm : In (nth (length (Array_sort (fun a b => a - b) l) / 2)
                     (Array_sort (fun a b => a - b) l) 0) l)
    by (apply median_In; discriminate).
  pose proof (proj1 (List.Forall_forall _ _) Hall _ Hm) as Hlp.
  split; [exact Hlp|].
  destruct Hlp as (result & _ & _ & Hp & _).
  apply extractAllPrices_amount in Hp as [Hr _].
  split; [exact Hr|]. subst n.
  repeat split. unfold l. simpl length. lia.
Qed.

Lemma lookup_stored (lead : ScoutLead) (info : ResalePriceInfo)
    (m : gmap text ResalePriceInfo) :
  lookupResale (storeInfo lead info m) lead = Some info.
Proof.
  unfold lookupResale, storeInfo.
  destruct (decide (lead_title lead = lead_url lead)) as [E|E].
  - rewrite E, lookup_insert_eq. reflexivity.
  - rewrite lookup_insert_ne by exact E. rewrite lookup_insert_eq. reflexivity.
Qed.
End ResaleEntryFacts.

(** X28. The resale entry computed for a lead either needs research, with a
    price of zero and no data point, or carries a price that was read from
    the text of a listing result and passed the range tests; then the price
    lies between 1 and 99999999 cents, the number of data points is at
    least one, and the price type is 'verified' exactly from two data points
    on.  So the entry's price is zero exactly when its type is
    'research_needed'. *)
Theorem resale_entry_is_priced_or_needs_research
    (isListingUrl : text -> bool) (keeps : Z -> Z -> bool)
    (encodeURIComponent : text -> text)
    (cleanTitle : text) (buyPriceCents : Z) (results : list ResaleLookup.SearchResult) :
  let info := ResaleLookup.resaleInfo isListingUrl keeps encodeURIComponent
                cleanTitle buyPriceCents results in
  ((Filter.priceType info = Some Filter.research_needed /\ Filter.estimatedPrice info = 0
    /\ Filter.dataPoints info = 0 /\ Filter.listingDataPoints info = Some 0)
   \/ (listing_price isListingUrl keeps buyPriceCents results (Filter.estimatedPrice info)
       /\ 1 <= Filter.estimatedPrice info <= 99999999
       /\ 1 <= Filter.dataPoints info
       /\ Filter.listingDataPoints info = Some (Filter.dataPoints info)
       /\ Filter.priceType info
          = Some (if 2 <=? Filter.dataPoints info
                  then Filter.verified else Filter.estimated)))
  /\ (Filter.estimatedPrice info = 0
      <-> Filter.priceType info = Some Filter.research_needed).
Proof.
  intros info.
  destruct (resaleInfo_cases isListingUrl keeps encodeURIComponent cleanTitle
              buyPriceCents results) as [(H1 & H2 & H3 & H4 & _)|(H1 & H2 & H3 & H4 & H5)];
    fold info in H1, H2, H3, H4 |- *.
  - split; [left; repeat split; assumption|]. split; intros _; assumption.
  - fold info in H5. split; [right; repeat split; try assumption; lia|].
    split; [lia|]. intros C. rewrite C in H5.
    destruct (2 <=? Filter.dataPoints info); discriminate.
Qed.

(** X29. An entry stored for a lead is the one the filter finds for it, by
    the lead's link or else by its title; a lead with the same title and a
    link that is no key of the map finds the same entry; and the entries
    under other keys are as before. *)
Theorem stored_resale_entry_is_found (lead : ScoutLead)
    (info : Filter.ResalePriceInfo) (resaleMap : gmap text Filter.ResalePriceInfo) :
  let stored := ResaleLookup.storeInfo lead info resaleMap in
  Filter.lookupResale stored lead = Some info
  /\ (forall other,
        lead_title other = lead_title lead -> stored !! lead_url other = None ->
        Filter.lookupResale stored other = Some info)
  /\ (forall other,
        lead_url other <> lead_url lead -> lead_url other <> lead_title lead ->
        lead_title other <> lead_url lead -> lead_title other <> lead_title lead ->
        Filter.lookupResale stored other = Filter.lookupResale resaleMap other).
Proof.
  intros stored. split; [apply lookup_stored|]. split.
  - intros other Ht Hu. unfold Filter.lookupResale. rewrite Hu, Ht.
    unfold stored, ResaleLookup.storeInfo. rewrite lookup_insert_eq. reflexivity.
  - intros other H1 H2 H3 H4. unfold Filter.lookupResale, stored, ResaleLookup.storeInfo.
    rewrite !lookup_insert_ne by congruence. reflexivity.
Qed.

Section EarlierResaleEntryFacts.
Import Filter ResaleLookup.
Variable isListingUrl : text -> bool.
Variable keeps : Z -> Z -> bool.

(** A price kept from the answer of the search or from one of its results. *)
Definition kept_price (buy : Z) (answer : option text) (results : list SearchResult)
    (price : Z) : Prop :=
  keeps buy price = true
  /\ ((exists a, answer = Some a /\ In price (extractAllPrices a))
      \/ exists result, In result results /\ In price (extractAllPrices (resultText result))).

Definition weighed (buy : Z) (answer : option text) (results : list SearchResult)
    (e : Entry) : Prop :=
  1 <= weight e <= 3 /\ kept_price buy answer results (value e).

Lemma weighted_weighed (buy : Z) (answer : option text) (all : list SearchResult)
    (w : Z) (prices : list Z) :
  1 <= w <= 3 -> Forall (kept_price buy answer all) prices ->
  Forall (weighed buy answer all) (Rev0.weighted w prices).
Proof.
  intros Hw H. unfold Rev0.weighted. apply List.Forall_forall. intros e He.
  apply in_map_iff in He as (p & <- & Hp). split; [exact Hw|].
  exact (proj1 (List.Forall_forall _ _) H p Hp).
Qed.

Lemma answerPrices_weighed (buy : Z) (answer : option text) (all : list SearchResult) :
  Forall (weighed buy answer all) (Rev0.answerPrices keeps buy answer).
Proof.
  unfold Rev0.answerPrices. destruct answer as [[|c a]|]; try apply List.Forall_nil.
  apply weighted_weighed; [lia|]. apply List.Forall_forall. intros p Hp.
  apply filter_In in Hp as [Hp Hk]. split; [exact Hk|]. left. eexists. split; [reflexivity|exact Hp].
Qed.

Lemma resultStep_inv (buy : Z) (answer : option text) (all : list SearchResult)
    (acc : list Entry * Z) (result : SearchResult) :
  In result all ->
  Forall (weighed buy answer all) acc.1 -> 0 <= acc.2 <= Z.of_nat (length acc.1) ->
  let acc' := Rev0.resultStep isListingUrl keeps buy acc result in
  Forall (weighed buy answer all) acc'.1 /\ 0 <= acc'.2 <= Z.of_nat (length acc'.1).
Proof.
  intros Hin Hall Hn. unfold Rev0.resultStep. cbn [fst snd]. split.
  - apply List.Forall_app. split; [exact Hall|].
    apply weighted_weighed; [destruct (isListingUrl _); lia|].
    apply List.Forall_forall. intros p Hp. apply filter_In in Hp as [Hp Hk].
    split; [exact Hk|]. right. exists result. split; assumption.
  - rewrite length_app. unfold Rev0.weighted. rewrite length_map.
    destruct (isListingUrl _); lia.
Qed.

Lemma resultStep_fold_inv (buy : Z) (answer : option text) (all results : list SearchResult)
    (acc : list Entry * Z) :
  (forall r, In r results -> In r all) ->
  Forall (weighed buy answer all) acc.1 -> 0 <= acc.2 <= Z.of_nat (length acc.1) ->
  let acc' := fold_left (Rev0.resultStep isListingUrl keeps buy) results acc in
  Forall (weighed buy answer all) acc'.1 /\ 0 <= acc'.2 <= Z.of_nat (length acc'.1).
Proof.
  revert acc. induction results as [|r results IH]; intros acc Hsub Hall Hn.
  - split; assumption.
  - cbn [fold_left].
    destruct (resultStep_inv buy answer all acc r (Hsub r (or_introl eq_refl)) Hall Hn)
      as [Hall' Hn'].
    apply IH; [|exact Hall'|exact Hn'].
    intros x Hx. apply Hsub. right. exact Hx.
Qed.

Lemma earlier_resaleInfo_Some (buy : Z) (answer : option text)
    (results : list SearchResult) (info : ResalePriceInfo) :
  Rev0.resaleInfo isListingUrl keeps buy answer results = Some info ->
  kept_price buy answer results (estimatedPrice info)
  /\ 1 <= estimatedPrice info <= 99999999
  /\ (exists n, Filter.listingDataPoints info = Some n /\ 0 <= n <= dataPoints info)
  /\ 1 <= dataPoints info.
Proof.
  unfold Rev0.resaleInfo.
  pose proof (resultStep_fold_inv buy answer results results
                (Rev0.answerPrices keeps buy answer, 0) (fun r H => H)
                (answerPrices_weighed buy answer results)) as Hinv.
  cbn [fst snd] in Hinv.
  destruct (fold_left _ results _) as [weightedPrices n]. cbn [fst snd] in Hinv.
  destruct weightedPrices as [|e0 l]; [discriminate|].
  intros H. injection H as <-. cbn [estimatedPrice dataPoints Filter.listingDataPoints].
  assert (Hlen : 0 <= Z.of_nat (length (Rev0.answerPrices keeps buy answer))) by lia.
  destruct (Hinv ltac:(lia)) as [Hall Hn]. clear Hinv Hlen.
  set (entries := e0 :: l) in *.
  destruct (weightedMedian_spec entries) as [(e & He & Hv) _]; [discriminate| |].
  { intros e He. pose proof (proj1 (List.Forall_forall _ _) Hall e He) as [Hw _]. lia. }
  pose proof (proj1 (List.Forall_forall _ _) Hall e He) as [_ Hk]. rewrite Hv in Hk.
  split; [exact Hk|]. split.
  - destruct Hk as [_ [(a & _ & Hp)|(r & _ & Hp)]];
      apply extractAllPrices_amount in Hp as [Hr _]; exact Hr.
  - split; [exists n; split; [reflexivity|exact Hn]|]. unfold entries. simpl length. lia.
Qed.

Lemma resultStep_fold_prices (buy : Z) (results : list SearchResult)
    (acc : list Entry * Z) :
  map value (fold_left (Rev0.resultStep isListingUrl keeps buy) results acc).1
  = map value acc.1
    ++ flat_map (fun r => List.filter (keeps buy) (extractAllPrices (resultText r))) results.
Proof.
  revert acc. induction results as [|r results IH]; intros acc.
  - simpl. rewrite app_nil_r. reflexivity.
  - cbn [fold_left flat_map]. rewrite IH. unfold Rev0.resultStep. cbn [fst].
    rewrite map_app, <- app_assoc. f_equal. f_equal.
    unfold Rev0.weighted. rewrite map_map. simpl. apply map_id.
Qed.

Lemma earlier_resaleInfo_None (buy : Z) (answer : option text)
    (results : list SearchResult) :
  Rev0.resaleInfo isListingUrl keeps buy answer results = None ->
  forall price, ~ kept_price buy answer results price.
Proof.
  unfold Rev0.resaleInfo.
  pose proof (resultStep_fold_prices buy results (Rev0.answerPrices keeps buy answer, 0))
    as Hp.
  destruct (fold_left _ results _) as [weightedPrices n]. cbn [fst snd] in Hp.
  destruct weightedPrices as [|e0 l]; [|discriminate]. intros _ price [Hk Hin].
  simpl in Hp. symmetry in Hp. apply app_eq_nil in Hp as [Ha Hr].
  destruct Hin as [(a & -> & Hin)|(r & Hr' & Hin)].
  - unfold Rev0.answerPrices in Ha. destruct a as [|c a]; [vm_compute in Hin; exact Hin|].
    unfold Rev0.weighted in Ha. rewrite map_map in Ha. simpl in Ha. rewrite map_id in Ha.
    assert (H : In price (List.filter (keeps buy) (extractAllPrices (c :: a))))
      by (apply filter_In; split; assumption).
    rewrite Ha in H. exact H.
  - assert (H : In price (flat_map (fun r => List.filter (keeps buy)
                                     (extractAllPrices (resultText r))) results)).
    { apply in_flat_map. exists r. split; [exact Hr'|]. apply filter_In. split; assumption. }
    rewrite Hr in H. exact H.
Qed.
End EarlierResaleEntryFacts.

(** X30. In the earlier revision an entry is stored for a lead exactly when
    some price of the answer or of a result passed the range tests; the
    stored estimate is then one of those prices, between 1 and 99999999
    cents, and the listing data points are at most the data points. *)
Theorem earlier_resale_entry_is_a_kept_price
    (isListingUrl : text -> bool) (keeps : Z -> Z -> bool)
    (buyPriceCents : Z) (answer : option text) (results : list ResaleLookup.SearchResult) :
  match ResaleLookup.Rev0.resaleInfo isListingUrl keeps buyPriceCents answer results with
  | Some info =>
      kept_price keeps buyPriceCents answer results (Filter.estimatedPrice info)
      /\ 1 <= Filter.estimatedPrice info <= 99999999
      /\ (exists n, Filter.listingDataPoints info = Some n
                    /\ 0 <= n <= Filter.dataPoints info)
      /\ 1 <= Filter.dataPoints info
  | None => forall price, ~ kept_price keeps buyPriceCents answer results price
  end.
Proof.
  destruct (ResaleLookup.Rev0.resaleInfo isListingUrl keeps buyPriceCents answer results)
    as [info|] eqn:E.
  - exact (earlier_resaleInfo_Some isListingUrl keeps _ _ _ _ E).
  - exact (earlier_resaleInfo_None isListingUrl keeps _ _ _ E).
Qed.

